(** * MCPChartServer: the SSE session registry, the event broadcaster, the
    in-memory request ledger / event store and the chart-generation route.

    Shallow embedding of
    - [server/storage.ts]  (class [MemStorage]),
    - [server/sse.ts]      (class [SSEManager]),
    - [server/chart-service.ts] (method [ChartService.generateChart]),
    - [server/routes.ts]   (the [POST /api/v2/chart/generate] handler and the
      read routes),
    - [shared/schema.ts]   ([chartConfigSchema] and the row types).

    Conventions of the embedding.
    - A JavaScript [Map] is an insertion-ordered association list ([JsMap]):
      [set] on a present key replaces the value in place, on a fresh key it
      appends; iteration ([values], [forEach]) follows insertion order.
    - [Response] objects are mutable and shared by reference: they live in a
      heap of streams addressed by handles, and a session stores the handle.
    - Effects are threaded through a state-and-exception monad [M] over the
      [World] (the two module-level singletons [storage] and [sseManager], the
      stream heap, and the number of clock readings taken so far).
    - [Date.now()] / [new Date()] read an arbitrary clock oracle
      [clock : nat -> Z] (milliseconds), one reading per call.
    - JavaScript numbers that hold integers are [Z]; the post-increment of a
      counter is exact below 2^53 and sticks at 2^53 (IEEE-754 doubles). *)

From Stdlib Require Import ZArith Lia Ascii.
From stdpp Require Import base decidable option list sorting strings gmap pretty.

Open Scope string_scope.
Open Scope Z_scope.

(** ** JavaScript values and insertion-ordered maps *)

(** A column that TypeScript types as [T | null], and that the code also
    assigns from optional values ([result.url], [result.error], ...), so that
    [undefined] is a third possibility. *)
Inductive nullable (A : Type) : Type :=
  | Null
  | Undef
  | Has (a : A).
Arguments Null {A}.
Arguments Undef {A}.
Arguments Has {A} a.

(** JSON data as received in a request body or attached to an event. *)
#[warnings="-register-all"]
Inductive JVal : Type :=
  | JNull
  | JBool (b : bool)
  | JNum (n : Z)
  | JStr (s : string)
  | JArr (items : list JVal)
  | JObj (fields : list (string * JVal)).

Module JsMap.
Definition t (V : Type) : Type := list (string * V).

Definition empty {V} : t V := [].

Fixpoint get {V} (k : string) (m : t V) : option V :=
  match m with
  | [] => None
  | (k', v) :: m' => if decide (k' = k) then Some v else get k m'
  end.

Definition has {V} (k : string) (m : t V) : bool :=
  match get k m with Some _ => true | None => false end.

Fixpoint set {V} (k : string) (v : V) (m : t V) : t V :=
  match m with
  | [] => [(k, v)]
  | (k', v') :: m' =>
      if decide (k' = k) then (k, v) :: m' else (k', v') :: set k v m'
  end.

Fixpoint delete {V} (k : string) (m : t V) : t V :=
  match m with
  | [] => []
  | (k', v') :: m' =>
      if decide (k' = k) then delete k m' else (k', v') :: delete k m'
  end.

Definition size {V} (m : t V) : Z := Z.of_nat (length m).
Definition keys {V} (m : t V) : list string := m.*1.
Definition values {V} (m : t V) : list V := m.*2.

(** Well-formedness: a [Map] holds each key once. *)
Definition wf {V} (m : t V) : Prop := NoDup (keys m).
End JsMap.

(** [x++] on a JavaScript number holding a non-negative integer. *)
Definition MAX_EXACT : Z := 2 ^ 53.
Definition js_incr (n : Z) : Z := if n <? MAX_EXACT then n + 1 else n.

(** [Array.prototype.slice(0, end)] for an integer [end]. *)
Definition slice_end (len end_ : Z) : Z :=
  if end_ <? 0 then Z.max (len + end_) 0 else Z.min end_ len.
Definition slice0 {A} (end_ : Z) (l : list A) : list A :=
  take (Z.to_nat (slice_end (Z.of_nat (length l)) end_)) l.

(** [Array.prototype.sort(cmp)]: the specification fixes a stable sort, so
    for a consistent comparator the result does not depend on the algorithm;
    it is computed here by stable insertion. [cmp a b <= 0] keeps [a] first. *)
Fixpoint sort_insert {A} (cmp : A -> A -> Z) (x : A) (l : list A) : list A :=
  match l with
  | [] => [x]
  | y :: l' => if cmp x y <=? 0 then x :: y :: l' else y :: sort_insert cmp x l'
  end.
Definition js_sort {A} (cmp : A -> A -> Z) (l : list A) : list A :=
  foldr (sort_insert cmp) [] l.

(** [String.prototype.toUpperCase] on the ASCII letters (the event types the
    code passes are ASCII). *)
Definition upper_ascii (c : ascii) : ascii :=
  let n := nat_of_ascii c in
  if ((97 <=? n) && (n <=? 122))%nat then ascii_of_nat (n - 32) else c.
Fixpoint toUpperCase (s : string) : string :=
  match s with
  | EmptyString => EmptyString
  | String c s' => String (upper_ascii c) (toUpperCase s')
  end.

(** ** Rows of [shared/schema.ts] *)

Record Indicator := {
  ind_type : string;
  ind_period : option Z;
  ind_color : option string;
  ind_overbought : option Z;
  ind_oversold : option Z;
}.

Record Point := { pt_x : string; pt_y : Z }.

Record Drawing := {
  dr_type : string;
  dr_points : list Point;
  dr_color : option string;
  dr_width : option Z;
}.

(** [ChartConfig], the output type of [chartConfigSchema]; it is also what
    the routes pass as [InsertChartRequest]. *)
Record ChartConfig := {
  cfg_symbol : string;
  cfg_interval : string;
  cfg_chartType : string;
  cfg_width : Z;
  cfg_height : Z;
  cfg_indicators : list Indicator;
  cfg_drawings : list Drawing;
  cfg_theme : string;
  cfg_showVolume : bool;
  cfg_showGrid : bool;
  cfg_timezone : string;
}.

Record ChartRequest := {
  id : Z;
  requestId : string;
  symbol : string;
  interval : string;
  chartType : string;
  width : Z;
  height : Z;
  indicators : nullable (list Indicator);
  drawings : nullable (list Drawing);
  theme : string;
  showVolume : bool;
  showGrid : bool;
  timezone : string;
  status : string;
  chartUrl : nullable string;
  base64Data : nullable string;
  errorMessage : nullable string;
  processingTime : nullable Z;
  createdAt : Z;
  completedAt : nullable Z;
}.

(** [Partial<ChartRequest>]: every key may be absent ([None]). *)
Record ChartRequestUpdates := {
  u_id : option Z;
  u_requestId : option string;
  u_symbol : option string;
  u_interval : option string;
  u_chartType : option string;
  u_width : option Z;
  u_height : option Z;
  u_indicators : option (nullable (list Indicator));
  u_drawings : option (nullable (list Drawing));
  u_theme : option string;
  u_showVolume : option bool;
  u_showGrid : option bool;
  u_timezone : option string;
  u_status : option string;
  u_chartUrl : option (nullable string);
  u_base64Data : option (nullable string);
  u_errorMessage : option (nullable string);
  u_processingTime : option (nullable Z);
  u_createdAt : option Z;
  u_completedAt : option (nullable Z);
}.

Definition no_updates : ChartRequestUpdates :=
  {| u_id := None; u_requestId := None; u_symbol := None; u_interval := None;
     u_chartType := None; u_width := None; u_height := None;
     u_indicators := None; u_drawings := None; u_theme := None;
     u_showVolume := None; u_showGrid := None; u_timezone := None;
     u_status := None; u_chartUrl := None; u_base64Data := None;
     u_errorMessage := None; u_processingTime := None; u_createdAt := None;
     u_completedAt := None |}.

(** The object spread [{ ...existing, ...updates }]. *)
Definition spread (existing : ChartRequest) (updates : ChartRequestUpdates)
  : ChartRequest :=
  {| id := default (id existing) (u_id updates);
     requestId := default (requestId existing) (u_requestId updates);
     symbol := default (symbol existing) (u_symbol updates);
     interval := default (interval existing) (u_interval updates);
     chartType := default (chartType existing) (u_chartType updates);
     width := default (width existing) (u_width updates);
     height := default (height existing) (u_height updates);
     indicators := default (indicators existing) (u_indicators updates);
     drawings := default (drawings existing) (u_drawings updates);
     theme := default (theme existing) (u_theme updates);
     showVolume := default (showVolume existing) (u_showVolume updates);
     showGrid := default (showGrid existing) (u_showGrid updates);
     timezone := default (timezone existing) (u_timezone updates);
     status := default (status existing) (u_status updates);
     chartUrl := default (chartUrl existing) (u_chartUrl updates);
     base64Data := default (base64Data existing) (u_base64Data updates);
     errorMessage := default (errorMessage existing) (u_errorMessage updates);
     processingTime :=
       default (processingTime existing) (u_processingTime updates);
     createdAt := default (createdAt existing) (u_createdAt updates);
     completedAt := default (completedAt existing) (u_completedAt updates) |}.

Record InsertSseEvent := {
  ins_requestId : string;
  ins_eventType : string;
  ins_message : string;
}.

Record SseEvent := {
  ev_id : Z;
  ev_requestId : string;
  ev_eventType : string;
  ev_message : string;
  ev_timestamp : Z;
}.

(** ** The world: storage singleton, session registry, stream heap, clock *)

(** The payload object of a pushed event (the argument of [JSON.stringify]
    in [sendEvent]). *)
Record EventData := {
  ed_type : string;
  ed_message : string;
  ed_requestId : string;
  ed_timestamp : Z;
  ed_data : option JVal;
}.

(** What [Response.write] receives. [ChunkData e] stands for the string
    [`data: ${JSON.stringify(e)}\n\n`]. *)
Inductive Chunk : Type :=
  | ChunkText (s : string)
  | ChunkData (e : EventData).

(** An express [Response] used as an event stream. [failing] abstracts every
    condition under which [write] throws; it is a state of the stream, which
    the environment may change between two calls on the server
    ([StreamFault] below) but not in the middle of one. *)
Record Stream := {
  chunks : list Chunk;
  ended : bool;
  failing : bool;
}.

Definition fresh_stream : Stream :=
  {| chunks := []; ended := false; failing := false |}.

Record SSEClient := {
  client_id : string;
  response : nat;
  lastEventId : option string;
}.

(** [MemStorage] (the [users] table plays no part in the chart lifecycle and
    is left out). *)
Record MemStorage := {
  chartRequests : JsMap.t ChartRequest;
  sseEvents : gmap string (list SseEvent);
  currentChartId : Z;
  currentEventId : Z;
}.

Record World := {
  storage : MemStorage;
  clients : JsMap.t SSEClient;
  heap : gmap nat Stream;
  ticks : nat;
}.

Definition new_MemStorage : MemStorage :=
  {| chartRequests := JsMap.empty; sseEvents := ∅;
     currentChartId := 1; currentEventId := 1 |}.

Definition initial_world : World :=
  {| storage := new_MemStorage; clients := JsMap.empty; heap := ∅; ticks := 0 |}.

Definition set_storage (s : MemStorage) (w : World) : World :=
  {| storage := s; clients := clients w; heap := heap w; ticks := ticks w |}.
Definition set_clients (c : JsMap.t SSEClient) (w : World) : World :=
  {| storage := storage w; clients := c; heap := heap w; ticks := ticks w |}.
Definition set_heap (h : gmap nat Stream) (w : World) : World :=
  {| storage := storage w; clients := clients w; heap := h; ticks := ticks w |}.
Definition set_ticks (n : nat) (w : World) : World :=
  {| storage := storage w; clients := clients w; heap := heap w; ticks := n |}.

(** Every handle denotes a [Response]; one never written to is a fresh open
    stream. *)
Definition stream_of (h : nat) (w : World) : Stream :=
  default fresh_stream (heap w !! h).

(** ** State and exception monad *)

(** What a [throw] carries. *)
Inductive Exn : Type :=
  | JsError (message : string)
  | ZodError (issues : list string)
  | Thrown.

Inductive Result (A : Type) : Type :=
  | Ret (a : A) (w : World)
  | Throw (e : Exn) (w : World).
Arguments Ret {A} a w.
Arguments Throw {A} e w.

Definition M (A : Type) : Type := World -> Result A.

Definition ret {A} (a : A) : M A := fun w => Ret a w.
Definition throw {A} (e : Exn) : M A := fun w => Throw e w.
Definition bind {A B} (m : M A) (k : A -> M B) : M B :=
  fun w => match m w with
           | Ret a w' => k a w'
           | Throw e w' => Throw e w'
           end.
Definition try_catch {A} (body : M A) (handler : Exn -> M A) : M A :=
  fun w => match body w with
           | Ret a w' => Ret a w'
           | Throw e w' => handler e w'
           end.
Definition get_world : M World := fun w => Ret w w.
Definition modify (f : World -> World) : M unit := fun w => Ret tt (f w).
Definition when (b : bool) (m : M unit) : M unit := if b then m else ret tt.

Notation "'let*' x ':=' c1 'in' c2" := (bind c1 (fun x => c2))
  (at level 10, x name, c1 at level 100, c2 at level 200).
Notation "c1 ';;;' c2" := (bind c1 (fun _ => c2))
  (at level 100, c2 at level 200, right associativity).

Fixpoint for_each {A} (f : A -> M unit) (l : list A) : M unit :=
  match l with
  | [] => ret tt
  | x :: l' => f x ;;; for_each f l'
  end.

Definition world_of {A} (r : Result A) : World :=
  match r with Ret _ w => w | Throw _ w => w end.
Definition value_of {A} (r : Result A) : option A :=
  match r with Ret a _ => Some a | Throw _ _ => None end.
Definition throws {A} (r : Result A) : bool :=
  match r with Ret _ _ => false | Throw _ _ => true end.

(** [Response.write(chunk)] and [Response.end()]. *)
Definition write (h : nat) (c : Chunk) : M unit :=
  fun w =>
    let s := stream_of h w in
    if failing s then Throw (JsError "write failed") w
    else Ret tt (set_heap (<[h := {| chunks := chunks s ++ [c];
                                      ended := ended s;
                                      failing := failing s |}]> (heap w)) w).
Definition end_stream (h : nat) : M unit :=
  fun w =>
    let s := stream_of h w in
    Ret tt (set_heap (<[h := {| chunks := chunks s; ended := true;
                                 failing := failing s |}]> (heap w)) w).

Definition nl : string := String (ascii_of_nat 10) EmptyString.

(** JavaScript truthiness of an optional string ([if (clientId)]). *)
Definition truthy (o : option string) : bool :=
  match o with
  | Some s => if decide (s = "") then false else true
  | None => false
  end.
Definition str_of (o : option string) : string := default "" o.

(** An optional property read into a nullable column. *)
Definition of_optional {A} (o : option A) : nullable A :=
  match o with Some a => Has a | None => Undef end.

(** ** [shared/schema.ts]: [chartConfigSchema.parse] *)

Module Zod.
Definition field (k : string) (o : list (string * JVal)) : option JVal :=
  JsMap.get k o.

(** [z.string()] *)
Definition string_ (v : option JVal) : option string :=
  match v with Some (JStr s) => Some s | _ => None end.
(** [z.string().min(1, ...)] *)
Definition string_min1 (v : option JVal) : option string :=
  match v with
  | Some (JStr s) => if decide (s = "") then None else Some s
  | _ => None
  end.
(** [z.string().default(d)] *)
Definition string_default (d : string) (v : option JVal) : option string :=
  match v with None => Some d | Some (JStr s) => Some s | _ => None end.
(** [z.string().optional()] *)
Definition string_optional (v : option JVal) : option (option string) :=
  match v with None => Some None | Some (JStr s) => Some (Some s) | _ => None end.
(** [z.enum(allowed)] *)
Definition enum (allowed : list string) (v : option JVal) : option string :=
  match v with
  | Some (JStr s) => if decide (s ∈ allowed) then Some s else None
  | _ => None
  end.
(** [z.enum(allowed).default(d)] *)
Definition enum_default (allowed : list string) (d : string)
    (v : option JVal) : option string :=
  match v with None => Some d | _ => enum allowed v end.
(** [z.number()] *)
Definition number (v : option JVal) : option Z :=
  match v with Some (JNum n) => Some n | _ => None end.
(** [z.number().optional()] *)
Definition number_optional (v : option JVal) : option (option Z) :=
  match v with None => Some None | Some (JNum n) => Some (Some n) | _ => None end.
(** [z.number().min(lo).max(hi).default(d)] *)
Definition number_range_default (lo hi d : Z) (v : option JVal) : option Z :=
  match v with
  | None => Some d
  | Some (JNum n) => if (lo <=? n) && (n <=? hi) then Some n else None
  | _ => None
  end.
(** [z.boolean().default(d)] *)
Definition boolean_default (d : bool) (v : option JVal) : option bool :=
  match v with None => Some d | Some (JBool b) => Some b | _ => None end.
(** [z.array(item).optional().default([])] *)
Definition array_default {A} (item : JVal -> option A) (v : option JVal)
    : option (list A) :=
  match v with
  | None => Some []
  | Some (JArr items) => mapM item items
  | _ => None
  end.
(** [z.array(item)] *)
Definition array {A} (item : JVal -> option A) (v : option JVal)
    : option (list A) :=
  match v with Some (JArr items) => mapM item items | _ => None end.

Definition indicator (v : JVal) : option Indicator :=
  match v with
  | JObj o =>
      ty ← string_ (field "type" o);
      period ← number_optional (field "period" o);
      color ← string_optional (field "color" o);
      overbought ← number_optional (field "overbought" o);
      oversold ← number_optional (field "oversold" o);
      Some {| ind_type := ty; ind_period := period; ind_color := color;
              ind_overbought := overbought; ind_oversold := oversold |}
  | _ => None
  end.

Definition point (v : JVal) : option Point :=
  match v with
  | JObj o =>
      x ← string_ (field "x" o);
      y ← number (field "y" o);
      Some {| pt_x := x; pt_y := y |}
  | _ => None
  end.

Definition drawing (v : JVal) : option Drawing :=
  match v with
  | JObj o =>
      ty ← string_ (field "type" o);
      points ← array point (field "points" o);
      color ← string_optional (field "color" o);
      w ← number_optional (field "width" o);
      Some {| dr_type := ty; dr_points := points; dr_color := color;
              dr_width := w |}
  | _ => None
  end.

Definition intervals : list string :=
  ["1m"; "5m"; "15m"; "30m"; "1h"; "2h"; "4h"; "6h"; "12h"; "1D"; "1W"; "1M"].
Definition chartTypes : list string :=
  ["candlestick"; "line"; "area"; "bar"; "heikin_ashi"; "hollow_candle";
   "baseline"; "hi_lo"; "column"].
Definition themes : list string := ["light"; "dark"].

Definition f_symbol o := string_min1 (field "symbol" o).
Definition f_interval o := enum intervals (field "interval" o).
Definition f_chartType o := enum chartTypes (field "chartType" o).
Definition f_width o := number_range_default 400 2000 800 (field "width" o).
Definition f_height o := number_range_default 300 1500 600 (field "height" o).
Definition f_indicators o := array_default indicator (field "indicators" o).
Definition f_drawings o := array_default drawing (field "drawings" o).
Definition f_theme o := enum_default themes "light" (field "theme" o).
Definition f_showVolume o := boolean_default true (field "showVolume" o).
Definition f_showGrid o := boolean_default true (field "showGrid" o).
Definition f_timezone o := string_default "America/New_York" (field "timezone" o).

Definition config_of (o : list (string * JVal)) : option ChartConfig :=
  sym ← f_symbol o;
  itv ← f_interval o;
  cty ← f_chartType o;
  wd ← f_width o;
  ht ← f_height o;
  inds ← f_indicators o;
  drws ← f_drawings o;
  thm ← f_theme o;
  vol ← f_showVolume o;
  grd ← f_showGrid o;
  tz ← f_timezone o;
  Some {| cfg_symbol := sym; cfg_interval := itv; cfg_chartType := cty;
          cfg_width := wd; cfg_height := ht; cfg_indicators := inds;
          cfg_drawings := drws; cfg_theme := thm; cfg_showVolume := vol;
          cfg_showGrid := grd; cfg_timezone := tz |}.

Definition issue {A} (key : string) (r : option A) : list string :=
  match r with None => [key] | Some _ => [] end.

(** The keys whose value is rejected: the [path] heads of the issues of the
    [ZodError], once each (the error itself holds one issue per offending
    leaf). *)
Definition issues_of (o : list (string * JVal)) : list string :=
  issue "symbol" (f_symbol o) ++ issue "interval" (f_interval o) ++
  issue "chartType" (f_chartType o) ++ issue "width" (f_width o) ++
  issue "height" (f_height o) ++ issue "indicators" (f_indicators o) ++
  issue "drawings" (f_drawings o) ++ issue "theme" (f_theme o) ++
  issue "showVolume" (f_showVolume o) ++ issue "showGrid" (f_showGrid o) ++
  issue "timezone" (f_timezone o).

(** [chartConfigSchema.parse(body)]: the parsed config, or the issues of the
    thrown [ZodError]. A body that is not an object is one issue at the
    root path. *)
Definition chartConfigSchema_parse (body : option JVal)
    : list string + ChartConfig :=
  match body with
  | Some (JObj o) =>
      match config_of o with
      | Some c => inr c
      | None => inl (issues_of o)
      end
  | _ => inl [""]
  end.
End Zod.

(** ** The server *)

Section Server.
(** The system clock: the [n]-th reading of [Date.now()] / [new Date()]. *)
Variable clock : nat -> Z.
(** [ms => (ms / 1000).toFixed(1)], the seconds shown in the success
    message (a floating-point rendering, kept abstract). *)
Variable toFixed1 : Z -> string.

Definition Date_now : M Z :=
  fun w => Ret (clock (ticks w)) (set_ticks (S (ticks w)) w).

(** *** [server/storage.ts]: [MemStorage] *)

Definition get_storage : M MemStorage := fun w => Ret (storage w) w.
Definition put_storage (s : MemStorage) : M unit := modify (set_storage s).

Definition createChartRequest (insertRequest : ChartConfig) : M ChartRequest :=
  let* s := get_storage in
  let id_ := currentChartId s in
  put_storage {| chartRequests := chartRequests s; sseEvents := sseEvents s;
                 currentChartId := js_incr id_;
                 currentEventId := currentEventId s |} ;;;
  let* stamp := Date_now in
  let requestId_ := "req_" +:+ pretty stamp +:+ "_" +:+ pretty id_ in
  let* now := Date_now in
  let request :=
    {| id := id_;
       requestId := requestId_;
       symbol := cfg_symbol insertRequest;
       interval := cfg_interval insertRequest;
       chartType := cfg_chartType insertRequest;
       width := cfg_width insertRequest;
       height := cfg_height insertRequest;
       indicators := Has (cfg_indicators insertRequest);
       drawings := Has (cfg_drawings insertRequest);
       theme := cfg_theme insertRequest;
       showVolume := cfg_showVolume insertRequest;
       showGrid := cfg_showGrid insertRequest;
       timezone := cfg_timezone insertRequest;
       status := "pending";
       chartUrl := Null;
       base64Data := Null;
       errorMessage := Null;
       processingTime := Null;
       createdAt := now;
       completedAt := Null |} in
  let* s := get_storage in
  put_storage {| chartRequests := JsMap.set requestId_ request (chartRequests s);
                 sseEvents := sseEvents s;
                 currentChartId := currentChartId s;
                 currentEventId := currentEventId s |} ;;;
  ret request.

Definition getChartRequest (requestId_ : string) : M (option ChartRequest) :=
  let* s := get_storage in
  ret (JsMap.get requestId_ (chartRequests s)).

Definition updateChartRequest (requestId_ : string)
    (updates : ChartRequestUpdates) : M (option ChartRequest) :=
  let* s := get_storage in
  match JsMap.get requestId_ (chartRequests s) with
  | None => ret None
  | Some existing =>
      let updated := spread existing updates in
      put_storage {| chartRequests :=
                       JsMap.set requestId_ updated (chartRequests s);
                     sseEvents := sseEvents s;
                     currentChartId := currentChartId s;
                     currentEventId := currentEventId s |} ;;;
      ret (Some updated)
  end.

(** The comparator [(a, b) => b.createdAt.getTime() - a.createdAt.getTime()]. *)
Definition newest_first (a b : ChartRequest) : Z := createdAt b - createdAt a.

Definition getRecentChartRequests (limit : Z) : M (list ChartRequest) :=
  let* s := get_storage in
  ret (slice0 limit (js_sort newest_first (JsMap.values (chartRequests s)))).

Definition createSseEvent (insertEvent : InsertSseEvent) : M SseEvent :=
  let* s := get_storage in
  let id_ := currentEventId s in
  put_storage {| chartRequests := chartRequests s; sseEvents := sseEvents s;
                 currentChartId := currentChartId s;
                 currentEventId := js_incr id_ |} ;;;
  let* timestamp := Date_now in
  let event :=
    {| ev_id := id_;
       ev_requestId := ins_requestId insertEvent;
       ev_eventType := ins_eventType insertEvent;
       ev_message := ins_message insertEvent;
       ev_timestamp := timestamp |} in
  let* s := get_storage in
  let history : list SseEvent :=
    default [] (sseEvents s !! ins_requestId insertEvent) in
  put_storage {| chartRequests := chartRequests s;
                 sseEvents := <[ins_requestId insertEvent := (history ++ [event])%list]>
                                (sseEvents s);
                 currentChartId := currentChartId s;
                 currentEventId := currentEventId s |} ;;;
  ret event.

Definition getSseEvents (requestId_ : string) : M (list SseEvent) :=
  let* s := get_storage in
  ret (default [] (sseEvents s !! requestId_)).

(** *** [server/sse.ts]: [SSEManager] *)

Definition removeClient (clientId : string) : M unit :=
  let* w := get_world in
  match JsMap.get clientId (clients w) with
  | Some client =>
      end_stream (response client) ;;;
      modify (fun w => set_clients (JsMap.delete clientId (clients w)) w)
  | None => ret tt
  end.

Definition sendEvent (clientId eventType message requestId_ : string)
    (data : option JVal) : M unit :=
  let* w := get_world in
  match JsMap.get clientId (clients w) with
  | None => ret tt
  | Some client =>
      let* now := Date_now in
      let eventData :=
        {| ed_type := eventType; ed_message := message;
           ed_requestId := requestId_; ed_timestamp := now;
           ed_data := data |} in
      try_catch
        (write (response client)
               (ChunkText ("event: " +:+ eventType +:+ nl)) ;;;
         write (response client) (ChunkData eventData) ;;;
         (* Store event in storage for history *)
         if decide (requestId_ ≠ "system") then
           createSseEvent {| ins_requestId := requestId_;
                             ins_eventType := toUpperCase eventType;
                             ins_message := message |} ;;;
           ret tt
         else ret tt)
        (fun _ => removeClient clientId)
  end.

Definition addClient (clientId : string) (res : nat)
    (lastEventId_ : option string) : M unit :=
  let client := {| client_id := clientId; response := res;
                   lastEventId := lastEventId_ |} in
  modify (fun w => set_clients (JsMap.set clientId client (clients w)) w) ;;;
  (* Send initial connection event *)
  sendEvent clientId "connection" "SSE connection established" "system" None.

(** The two callbacks [addClient] installs, run later by the event loop:
    the ['close'] listener of [res] and one firing of the 30 s interval. *)
Definition on_close (clientId : string) : M unit := removeClient clientId.
Definition heartbeat (clientId : string) (res : nat) : M unit :=
  let* w := get_world in
  if JsMap.has clientId (clients w)
  then write res (ChunkText (": heartbeat" +:+ nl +:+ nl))
  else ret tt.

(** [clients.forEach]: the callback can delete only the entry being
    visited, so the visit follows the keys present at the start. *)
Definition broadcast (eventType message requestId_ : string)
    (data : option JVal) : M unit :=
  let* w := get_world in
  for_each (fun clientId => sendEvent clientId eventType message requestId_ data)
           (JsMap.keys (clients w)).

Definition getClientCount : M Z :=
  let* w := get_world in
  ret (JsMap.size (clients w)).

(** *** [server/chart-service.ts]: [ChartService.generateChart] *)

Record ChartImgResponse := {
  success : bool;
  url : option string;
  base64 : option string;
  error : option string;
  res_processingTime : option Z;
}.

(** How the upstream call of [generateChart] settles when the body is read
    without failure: [fetch] rejects (a rejection of [response.text()] on a
    response that is not [ok] has the same effect); the response is not
    [ok]; the body is JSON with optional [url] and [base64]; the body is a
    PNG (given base64-encoded); any other content type. The rejection of
    [response.json()] or [response.arrayBuffer()] is an outcome of the
    turn-by-turn model below ([settle_fetch], [settle_body]). *)
Inductive FetchOutcome : Type :=
  | FetchRejects (e : Exn)
  | FetchNotOk (http_status : Z) (errorText : string)
  | FetchJson (json_url json_base64 : option string)
  | FetchPng (png_base64 : string)
  | FetchOtherType.

(** [error instanceof Error ? error.message : fallback]. (The message of a
    [ZodError] renders its issues; no path of this code reads it.) *)
Definition message_or (fallback : string) (e : Exn) : string :=
  match e with
  | JsError m => m
  | ZodError issues => String.concat "; " issues
  | Thrown => fallback
  end.
(** [error.message] *)
Definition message_of (e : Exn) : nullable string :=
  match e with
  | Thrown => Undef
  | _ => Has (message_or "" e)
  end.

(** [generateChart] up to [await fetch(...)]; the result is [startTime].
    ([buildChartPayload] only prepares the body of the upstream call.) *)
Definition generateChart_begin (config : ChartConfig) (requestId_ : string)
    (clientId : option string) : M Z :=
  let* startTime := Date_now in
  when (truthy clientId)
    (sendEvent (str_of clientId) "progress" "Preparing chart request..."
               requestId_ None) ;;;
  when (truthy clientId)
    (sendEvent (str_of clientId) "progress"
               "Sending request to Chart-IMG API..." requestId_ None) ;;;
  ret startTime.

(** [generateChart] from the settlement of [fetch] to its [return]. *)
Definition generateChart_finish (config : ChartConfig) (requestId_ : string)
    (clientId : option string) (startTime : Z) (outcome : FetchOutcome)
    : M ChartImgResponse :=
  try_catch
    (match outcome with
     | FetchRejects e => throw e
     | FetchNotOk code errorText =>
         throw (JsError ("Chart-IMG API error: " +:+ pretty code +:+ " "
                         +:+ errorText))
     | _ =>
         when (truthy clientId)
           (sendEvent (str_of clientId) "progress" "Processing chart data..."
                      requestId_ None) ;;;
         let* result :=
           match outcome with
           | FetchJson u b =>
               let* t := Date_now in
               ret {| success := true; url := u; base64 := b; error := None;
                      res_processingTime := Some (t - startTime) |}
           | FetchPng b =>
               let* t := Date_now in
               ret {| success := true; url := None;
                      base64 := Some ("data:image/png;base64," +:+ b);
                      error := None;
                      res_processingTime := Some (t - startTime) |}
           | _ =>
               throw (JsError "Unexpected response format from Chart-IMG API")
           end in
         (* Send success event *)
         (if truthy clientId then
            let* t := Date_now in
            sendEvent (str_of clientId) "success"
              ("Chart generated successfully (" +:+ toFixed1 (t - startTime)
               +:+ "s)")
              requestId_
              (Some (JObj [("chartGenerated", JBool true);
                           ("processingTime",
                            match res_processingTime result with
                            | Some d => JNum d
                            | None => JNull
                            end)]))
          else ret tt) ;;;
         ret result
     end)
    (fun e =>
       let errorMessage := message_or "Unknown error occurred" e in
       (* Send error event *)
       when (truthy clientId)
         (sendEvent (str_of clientId) "error"
                    ("Chart generation failed: " +:+ errorMessage)
                    requestId_ None) ;;;
       let* t := Date_now in
       ret {| success := false; url := None; base64 := None;
              error := Some errorMessage;
              res_processingTime := Some (t - startTime) |}).

(** *** [server/routes.ts]: [POST /api/v2/chart/generate] *)

(** What the handler sends with [res.json]. *)
Inductive HttpReply : Type :=
  | ReplyStarted (requestId_ : string)        (* 200, status 'processing' *)
  | ReplyInvalid (details : list string)      (* 400, 'Invalid request parameters' *)
  | ReplyFailure (message : string).          (* 500 *)

Definition http_status_of (r : HttpReply) : Z :=
  match r with
  | ReplyStarted _ => 200
  | ReplyInvalid _ => 400
  | ReplyFailure _ => 500
  end.

(** The upstream call left in flight when the handler replies. *)
Record InFlight := {
  fl_config : ChartConfig;
  fl_requestId : string;
  fl_clientId : option string;
  fl_startTime : Z;
}.

Definition status_update (st : string) : ChartRequestUpdates :=
  {| u_id := None; u_requestId := None; u_symbol := None; u_interval := None;
     u_chartType := None; u_width := None; u_height := None;
     u_indicators := None; u_drawings := None; u_theme := None;
     u_showVolume := None; u_showGrid := None; u_timezone := None;
     u_status := Some st; u_chartUrl := None; u_base64Data := None;
     u_errorMessage := None; u_processingTime := None; u_createdAt := None;
     u_completedAt := None |}.

Definition completed_update (result : ChartImgResponse) (now : Z)
    : ChartRequestUpdates :=
  {| u_id := None; u_requestId := None; u_symbol := None; u_interval := None;
     u_chartType := None; u_width := None; u_height := None;
     u_indicators := None; u_drawings := None; u_theme := None;
     u_showVolume := None; u_showGrid := None; u_timezone := None;
     u_status := Some "completed";
     u_chartUrl := Some (of_optional (url result));
     u_base64Data := Some (of_optional (base64 result));
     u_errorMessage := None;
     u_processingTime := Some (of_optional (res_processingTime result));
     u_createdAt := None;
     u_completedAt := Some (Has now) |}.

Definition failed_update (message : nullable string)
    (duration : option (nullable Z)) (now : Z) : ChartRequestUpdates :=
  {| u_id := None; u_requestId := None; u_symbol := None; u_interval := None;
     u_chartType := None; u_width := None; u_height := None;
     u_indicators := None; u_drawings := None; u_theme := None;
     u_showVolume := None; u_showGrid := None; u_timezone := None;
     u_status := Some "failed";
     u_chartUrl := None; u_base64Data := None;
     u_errorMessage := Some message;
     u_processingTime := duration;
     u_createdAt := None;
     u_completedAt := Some (Has now) |}.

(** Lines 21-26: create the record, then send the initial event. *)
Definition generate_create_and_announce (config : ChartConfig)
    (clientId : option string) : M ChartRequest :=
  (* Create chart request record *)
  let* chartRequest := createChartRequest config in
  (* Send initial event *)
  when (truthy clientId)
    (sendEvent (str_of clientId) "request"
               ("Chart generation started for " +:+ cfg_symbol config)
               (requestId chartRequest) None) ;;;
  ret chartRequest.

(** Lines 28-31: update status to processing. *)
Definition generate_mark_processing (chartRequest : ChartRequest) : M unit :=
  updateChartRequest (requestId chartRequest) (status_update "processing") ;;;
  ret tt.

(** The handler until it replies: everything that runs before the upstream
    call settles. *)
Definition generate_handler (body : option JVal) (clientId : option string)
    : M (HttpReply * option InFlight) :=
  try_catch
    (match Zod.chartConfigSchema_parse body with
     | inl issues => throw (ZodError issues)
     | inr config =>
         let* chartRequest := generate_create_and_announce config clientId in
         generate_mark_processing chartRequest ;;;
         (* Generate chart asynchronously *)
         let* startTime :=
           generateChart_begin config (requestId chartRequest) clientId in
         ret (ReplyStarted (requestId chartRequest),
              Some {| fl_config := config;
                      fl_requestId := requestId chartRequest;
                      fl_clientId := clientId;
                      fl_startTime := startTime |})
     end)
    (fun e =>
       match e with
       | ZodError issues => ret (ReplyInvalid issues, None)
       | _ => ret (ReplyFailure (message_or "Internal server error" e), None)
       end).

(** The [.then] callback on the promise of [generateChart]. *)
Definition generate_record_result (requestId_ : string)
    (result : ChartImgResponse) : M unit :=
  if success result then
    let* now := Date_now in
    updateChartRequest requestId_ (completed_update result now) ;;;
    ret tt
  else
    let* now := Date_now in
    updateChartRequest requestId_
      (failed_update (of_optional (error result))
                     (Some (of_optional (res_processingTime result))) now) ;;;
    ret tt.

(** The detached chain [generateChart(...).then(...).catch(...)], resumed
    when the upstream call settles with [outcome], taken as one step: the
    turn in which [fetch] settles and the turn in which the body is read
    run back to back ([generate_settle_in_turns] below). What other
    requests do between the two turns is the matter of [between_turns]. *)
Definition generate_settle (fl : InFlight) (outcome : FetchOutcome) : M unit :=
  try_catch
    (let* result :=
       generateChart_finish (fl_config fl) (fl_requestId fl) (fl_clientId fl)
                            (fl_startTime fl) outcome in
     generate_record_result (fl_requestId fl) result)
    (fun e =>
       let* now := Date_now in
       updateChartRequest (fl_requestId fl)
         (failed_update (message_of e) None now) ;;;
       ret tt).

(** A whole request: the handler, then the settlement of its upstream call. *)
Definition generate_lifecycle (body : option JVal) (clientId : option string)
    (outcome : FetchOutcome) : M HttpReply :=
  let* r := generate_handler body clientId in
  match r.2 with
  | Some fl => generate_settle fl outcome ;;; ret r.1
  | None => ret r.1
  end.
End Server.

(** * Specification vocabulary *)

(** A computation keeps an invariant of the world, whether it returns or
    throws. *)
Definition preserves {A} (P : World -> Prop) (m : M A) : Prop :=
  forall w, P w -> P (world_of (m w)).

Definition never_throws {A} (m : M A) : Prop :=
  forall w, throws (m w) = false.

(** The Request Ledger and the Event Store of a world. *)
Definition ledger (w : World) : JsMap.t ChartRequest := chartRequests (storage w).
Definition event_store (w : World) : gmap string (list SseEvent) :=
  sseEvents (storage w).
Definition history (requestId_ : string) (w : World) : list SseEvent :=
  default [] (event_store w !! requestId_).

Definition ledger_status (requestId_ : string) (w : World) : option string :=
  status <$> JsMap.get requestId_ (ledger w).

(** Terminal states of a [ChartRequest]. *)
Definition is_terminal (st : string) : bool :=
  bool_decide (st = "completed") || bool_decide (st = "failed").

(** The fields written at a terminal transition. *)
Definition terminal_fields (r : ChartRequest)
  : string * nullable string * nullable string * nullable string
    * nullable Z * nullable Z :=
  (status r, chartUrl r, base64Data r, errorMessage r, processingTime r,
   completedAt r).

(** Terminal-state immutability as the specification words it: an update of
    a record in a terminal state is rejected, and the terminal fields stay. *)
Definition terminal_update_rejected (requestId_ : string)
    (updates : ChartRequestUpdates) (w : World) : Prop :=
  forall existing,
    JsMap.get requestId_ (ledger w) = Some existing ->
    is_terminal (status existing) = true ->
    let r := updateChartRequest requestId_ updates w in
    throws r = true /\
    terminal_fields <$> JsMap.get requestId_ (ledger (world_of r))
    = Some (terminal_fields existing).

(** Sequence ids in emission order. *)
Definition strictly_increasing (l : list Z) : Prop :=
  forall (i j : nat) (x y : Z),
    (i < j)%nat -> l !! i = Some x -> l !! j = Some y -> x < y.

Definition event_ids (requestId_ : string) (w : World) : list Z :=
  ev_id <$> history requestId_ w.

(** The invariant of the event store: while the counter is in the exact
    range, every history is strictly increasing and below the counter. *)
Definition events_ordered (w : World) : Prop :=
  currentEventId (storage w) < MAX_EXACT ->
  forall requestId_,
    strictly_increasing (event_ids requestId_ w) /\
    Forall (fun x => x < currentEventId (storage w)) (event_ids requestId_ w).

(** *** Everything that can happen to the server *)

Section Reachability.
Variable clock : nat -> Z.
Variable toFixed1 : Z -> string.

(** The calls the transport layer and the event loop make on the two
    singletons, and a stream starting (or ceasing) to fail. [CallSettle]
    resumes any in-flight upstream call. *)
Inductive Call : Type :=
  | CallCreateChartRequest (config : ChartConfig)
  | CallUpdateChartRequest (requestId_ : string) (updates : ChartRequestUpdates)
  | CallCreateSseEvent (insertEvent : InsertSseEvent)
  | CallAddClient (clientId : string) (res : nat) (lastEventId_ : option string)
  | CallRemoveClient (clientId : string)
  | CallSendEvent (clientId eventType message requestId_ : string)
                  (data : option JVal)
  | CallBroadcast (eventType message requestId_ : string) (data : option JVal)
  | CallClose (clientId : string)
  | CallHeartbeat (clientId : string) (res : nat)
  | CallGenerate (body : option JVal) (clientId : option string)
  | CallSettle (fl : InFlight) (outcome : FetchOutcome)
  | StreamFault (res : nat) (fails : bool).

Definition set_failing (res : nat) (fails : bool) : M unit :=
  fun w =>
    let s := stream_of res w in
    Ret tt (set_heap (<[res := {| chunks := chunks s; ended := ended s;
                                   failing := fails |}]> (heap w)) w).

Definition exec_call (c : Call) : M unit :=
  match c with
  | CallCreateChartRequest config => createChartRequest clock config ;;; ret tt
  | CallUpdateChartRequest r u => updateChartRequest r u ;;; ret tt
  | CallCreateSseEvent e => createSseEvent clock e ;;; ret tt
  | CallAddClient c res l => addClient clock c res l
  | CallRemoveClient c => removeClient c
  | CallSendEvent c ty msg r d => sendEvent clock c ty msg r d
  | CallBroadcast ty msg r d => broadcast clock ty msg r d
  | CallClose c => on_close c
  | CallHeartbeat c res => heartbeat c res
  | CallGenerate body c => generate_handler clock body c ;;; ret tt
  | CallSettle fl outcome => generate_settle clock toFixed1 fl outcome
  | StreamFault res b => set_failing res b
  end.

Inductive reachable : World -> Prop :=
  | reachable_init : reachable initial_world
  | reachable_step w c :
      reachable w -> reachable (world_of (exec_call c w)).

Definition run_calls (calls : list Call) (w : World) : World :=
  fold_left (fun w c => world_of (exec_call c w)) calls w.
End Reachability.

(** An invariant that the session registry and the broadcaster keep: it does
    not look at the clock position, the streams or the registry, and
    appending to the Event Store keeps it. *)
Record session_invariant (clock : nat -> Z) (P : World -> Prop) : Prop := {
  inv_ticks : forall w n, P w -> P (set_ticks n w);
  inv_heap : forall w h, P w -> P (set_heap h w);
  inv_clients : forall w c, P w -> P (set_clients c w);
  inv_createSseEvent :
    forall insertEvent, preserves P (createSseEvent clock insertEvent);
}.

(** An invariant of the storage singleton: moreover the two writers of the
    ledger keep it. *)
Record storage_invariant (clock : nat -> Z) (P : World -> Prop) : Prop := {
  inv_session : session_invariant clock P;
  inv_createChartRequest :
    forall config, preserves P (createChartRequest clock config);
  inv_updateChartRequest :
    forall requestId_ updates, preserves P (updateChartRequest requestId_ updates);
}.

(** *** Ledger transitions and lifecycle events *)

(** Ledger/event sequencing as the specification words it, for one world: a
    lifecycle event visible on a stream has its ledger transition already in
    place (a ['request'] event: the record has left ['pending']; a
    ['success'] event: the record shows ['completed']; an ['error'] event:
    ['failed']). The claim is about the worlds a reader can observe. *)
Definition ledger_leads_events (w : World) : Prop :=
  forall h e,
    ChunkData e ∈ chunks (stream_of h w) ->
    (ed_type e = "request" ->
     ledger_status (ed_requestId e) w
       ∈ [Some "processing"; Some "completed"; Some "failed"]) /\
    (ed_type e = "success" ->
     ledger_status (ed_requestId e) w = Some "completed") /\
    (ed_type e = "error" ->
     ledger_status (ed_requestId e) w = Some "failed").

Definition outcome_succeeds (outcome : FetchOutcome) : bool :=
  match outcome with
  | FetchJson _ _ | FetchPng _ => true
  | _ => false
  end.

Section ProgramPoints.
Variable clock : nat -> Z.
Variable toFixed1 : Z -> string.

(** The worlds at the program points of one accepted request, in program
    order: after lines 21-26 of the handler (record created, initial event
    sent), after lines 28-31 (status ['processing']), after [generateChart]
    reached its [await fetch], after [generateChart] returned, and after the
    [.then] callback wrote the outcome. *)
Definition generate_points (config : ChartConfig) (clientId : option string)
    (outcome : FetchOutcome) (w : World) : list World :=
  match generate_create_and_announce clock config clientId w with
  | Throw _ w1 => [w1]
  | Ret chartRequest w1 =>
      match generate_mark_processing chartRequest w1 with
      | Throw _ w2 => [w1; w2]
      | Ret _ w2 =>
          match generateChart_begin clock config (requestId chartRequest)
                                    clientId w2 with
          | Throw _ w3 => [w1; w2; w3]
          | Ret startTime w3 =>
              match generateChart_finish clock toFixed1 config
                      (requestId chartRequest) clientId startTime outcome w3
              with
              | Throw _ w4 => [w1; w2; w3; w4]
              | Ret result w4 =>
                  [w1; w2; w3; w4;
                   world_of (generate_record_result clock
                               (requestId chartRequest) result w4)]
              end
          end
      end
  end.
End ProgramPoints.

(** *** Concrete runs *)

Definition clock0 : nat -> Z := fun n => 1000 + Z.of_nat n.
Definition clock_frozen : nat -> Z := fun _ => 1000.
Definition toFixed0 : Z -> string := fun _ => "0.0".

Definition body0 : JVal :=
  JObj [("symbol", JStr "NASDAQ:AAPL"); ("interval", JStr "1D");
        ("chartType", JStr "candlestick")].

(** One request carried to [completed], no client header. *)
Definition world_completed : World :=
  world_of (generate_lifecycle clock0 toFixed0 (Some body0) None
              (FetchJson (Some "https://charts.example/1.png") None)
              initial_world).

(** A session ["c1"] on stream 7, then one request submitted for that
    client. *)
Definition calls_one_request : list Call :=
  [CallAddClient "c1" 7%nat None;
   CallGenerate (Some body0) (Some "c1")].

Definition config0 : ChartConfig :=
  {| cfg_symbol := "NASDAQ:AAPL"; cfg_interval := "1D";
     cfg_chartType := "candlestick"; cfg_width := 800; cfg_height := 600;
     cfg_indicators := []; cfg_drawings := []; cfg_theme := "light";
     cfg_showVolume := true; cfg_showGrid := true;
     cfg_timezone := "America/New_York" |}.

(** Scenario D as the specification words it: create R1, R2, R3 in that
    order on a fresh storage; [listRecent(2)] is [[R3, R2]]. *)
Definition scenario_D (clock : nat -> Z) (c1 c2 c3 : ChartConfig) : Prop :=
  match createChartRequest clock c1 initial_world with
  | Ret R1 w1 =>
      match createChartRequest clock c2 w1 with
      | Ret R2 w2 =>
          match createChartRequest clock c3 w2 with
          | Ret R3 w3 =>
              value_of (getRecentChartRequests 2 w3) = Some [R3; R2]
          | Throw _ _ => False
          end
      | Throw _ _ => False
      end
  | Throw _ _ => False
  end.

(** Newest first; [created_at t] selects the requests created at [t]. *)
Definition newer_or_equal (a b : ChartRequest) : Prop :=
  createdAt b <= createdAt a.
Definition older (a b : ChartRequest) : Prop := createdAt a < createdAt b.
Definition created_at (t : Z) (r : ChartRequest) : Prop := createdAt r = t.
Global Instance created_at_dec t r : Decision (created_at t r) :=
  Z.eq_dec (createdAt r) t.

(** *** Streams and sessions *)

(** The world after [write] succeeded on [h] for each chunk of [cs]. *)
Definition push_chunks (h : nat) (cs : list Chunk) (w : World) : World :=
  set_heap (<[h := {| chunks := chunks (stream_of h w) ++ cs;
                       ended := ended (stream_of h w);
                       failing := failing (stream_of h w) |}]> (heap w)) w.

(** The world after [end()] on [h]. *)
Definition close_stream (h : nat) (w : World) : World :=
  set_heap (<[h := {| chunks := chunks (stream_of h w); ended := true;
                       failing := failing (stream_of h w) |}]> (heap w)) w.

(** The two frames [sendEvent] writes. *)
Definition frames (eventType message requestId_ : string) (timestamp : Z)
    (data : option JVal) : list Chunk :=
  [ChunkText ("event: " +:+ eventType +:+ nl);
   ChunkData {| ed_type := eventType; ed_message := message;
                ed_requestId := requestId_; ed_timestamp := timestamp;
                ed_data := data |}].

(** Every registered session's stream accepts writes. *)
Definition all_writable (w : World) : Prop :=
  forall clientId client,
    JsMap.get clientId (clients w) = Some client ->
    failing (stream_of (response client) w) = false.

(** A run of registrations. *)
Definition addClients (clock : nat -> Z)
    (regs : list (string * nat * option string)) : M unit :=
  for_each (fun r => addClient clock r.1.1 r.1.2 r.2) regs.

(** The stored copy of an emitted event. *)
Definition records (eventType message requestId_ : string) (e : SseEvent)
  : Prop :=
  ev_requestId e = requestId_ /\ ev_eventType e = toUpperCase eventType /\
  ev_message e = message.

(** Disconnected-client durability as the specification words it: an event
    emitted for a chart request is appended to the Event Store whether or
    not a session is connected. *)
Definition stored_regardless_of_sessions (clock : nat -> Z)
    (clientId eventType message requestId_ : string) (data : option JVal)
    (w : World) : Prop :=
  requestId_ <> "system" ->
  exists e,
    history requestId_
      (world_of (sendEvent clock clientId eventType message requestId_ data w))
    = (history requestId_ w ++ [e])%list /\
    records eventType message requestId_ e.

(** Broadcast persistence as the specification words it: one appended copy,
    however many sessions are connected. *)
Definition broadcast_stores_once (clock : nat -> Z)
    (eventType message requestId_ : string) (data : option JVal)
    (w : World) : Prop :=
  requestId_ <> "system" ->
  length (history requestId_
            (world_of (broadcast clock eventType message requestId_ data w)))
  = S (length (history requestId_ w)).

(** Two sessions, ["c1"] on stream 7 and ["c2"] on stream 8. *)
Definition world_two_sessions : World :=
  world_of (addClients clock0 [("c1", 7%nat, None); ("c2", 8%nat, None)]
              initial_world).

(** One session, ["c1"] on stream 7. *)
Definition world_one_session : World :=
  world_of (addClient clock0 "c1" 7%nat None initial_world).

(** A submission without the required [symbol]. *)
Definition body_without_symbol : JVal :=
  JObj [("interval", JStr "1D"); ("chartType", JStr "line")].

(** Three requests created one after the other on a fresh storage. *)
Definition three_requests (clock : nat -> Z) : M unit :=
  createChartRequest clock config0 ;;;
  createChartRequest clock config0 ;;;
  createChartRequest clock config0 ;;;
  ret tt.
Definition world_three_requests : World :=
  world_of (three_requests clock0 initial_world).
Definition world_three_ties : World :=
  world_of (three_requests clock_frozen initial_world).

(** * The rest of the server code *)

(** ** [server/chart-service.ts]: [ChartService.buildChartPayload] *)

Record Study := {
  study_name : string;
  study_inputs : list Z;
  (** [styles.plot_0.color], absent for the empty object [{}] *)
  study_plot_color : option string;
}.

Record PayloadDrawing := {
  pd_type : string;
  pd_points : list Point;
  pd_color : string;
  pd_linewidth : Z;
}.

Record ChartPayload := {
  p_symbol : string;
  p_interval : string;
  p_width : Z;
  p_height : Z;
  p_theme : string;
  p_type : Z;
  p_studies : list Study;
  p_drawings : list PayloadDrawing;
  p_timezone : string;
  p_volume : bool;
  p_grid : bool;
}.

(** The [switch (config.chartType)]. *)
Definition chart_type_code (chartType_ : string) : Z :=
  if decide (chartType_ = "candlestick") then 1
  else if decide (chartType_ = "line") then 2
  else if decide (chartType_ = "area") then 3
  else if decide (chartType_ = "bar") then 0
  else if decide (chartType_ = "heikin_ashi") then 9
  else if decide (chartType_ = "hollow_candle") then 8
  else if decide (chartType_ = "baseline") then 7
  else if decide (chartType_ = "hi_lo") then 12
  else if decide (chartType_ = "column") then 11
  else 1.

Section Payload.
(** [String.prototype.toUpperCase]. It follows the Unicode case mappings and
    an indicator type is any string the caller sends, so the function is
    left open here. *)
Variable upper : string -> string.

(** [indicator.period ? [indicator.period] : []]: a number is truthy unless
    it is 0. *)
Definition study_of (indicator : Indicator) : Study :=
  {| study_name := upper (ind_type indicator);
     study_inputs :=
       match ind_period indicator with
       | Some period => if decide (period = 0) then [] else [period]
       | None => []
       end;
     study_plot_color :=
       match ind_color indicator with
       | Some color => if decide (color = "") then None else Some color
       | None => None
       end |}.

(** [drawing.color || '#8B5CF6'] and [drawing.width || 2]. *)
Definition payload_drawing_of (drawing : Drawing) : PayloadDrawing :=
  {| pd_type := dr_type drawing;
     pd_points := dr_points drawing;
     pd_color :=
       match dr_color drawing with
       | Some color => if decide (color = "") then "#8B5CF6" else color
       | None => "#8B5CF6"
       end;
     pd_linewidth :=
       match dr_width drawing with
       | Some w => if decide (w = 0) then 2 else w
       | None => 2
       end |}.

Definition buildChartPayload (config : ChartConfig) : ChartPayload :=
  {| p_symbol := cfg_symbol config;
     p_interval := cfg_interval config;
     p_width := cfg_width config;
     p_height := cfg_height config;
     p_theme := cfg_theme config;
     p_type := chart_type_code (cfg_chartType config);
     p_studies :=
       match cfg_indicators config with
       | [] => []
       | _ :: _ => study_of <$> cfg_indicators config
       end;
     p_drawings :=
       match cfg_drawings config with
       | [] => []
       | _ :: _ => payload_drawing_of <$> cfg_drawings config
       end;
     p_timezone := cfg_timezone config;
     p_volume := cfg_showVolume config;
     p_grid := cfg_showGrid config |}.
End Payload.

(** ** [server/storage.ts]: the [users] table of [MemStorage]

    The table and its counter are touched by the three user methods only;
    they are modelled as a state of their own. [users] is a [Map] from the
    numeric id, in insertion order. *)

Record InsertUser := { iu_username : string; iu_password : string }.
Record User := { user_id : Z; username : string; password : string }.

Record UserTable := {
  users : list (Z * User);
  currentUserId : Z;
}.

Definition new_UserTable : UserTable := {| users := []; currentUserId := 1 |}.

Fixpoint users_get (k : Z) (m : list (Z * User)) : option User :=
  match m with
  | [] => None
  | (k', v) :: m' => if decide (k' = k) then Some v else users_get k m'
  end.

Fixpoint users_set (k : Z) (v : User) (m : list (Z * User)) : list (Z * User) :=
  match m with
  | [] => [(k, v)]
  | (k', v') :: m' =>
      if decide (k' = k) then (k, v) :: m' else (k', v') :: users_set k v m'
  end.

Definition getUser (id_ : Z) (t : UserTable) : option User :=
  users_get id_ (users t).

(** [Array.from(this.users.values()).find(user => user.username === username)] *)
Definition getUserByUsername (name : string) (t : UserTable) : option User :=
  snd <$> list_find (fun u => username u = name) (users t).*2.

Definition createUser (insertUser : InsertUser) (t : UserTable)
  : User * UserTable :=
  let id_ := currentUserId t in
  let user := {| user_id := id_; username := iu_username insertUser;
                 password := iu_password insertUser |} in
  (user, {| users := users_set id_ user (users t);
            currentUserId := js_incr id_ |}).

(** ** [server/routes.ts]: the read routes *)

(** [GET /api/v2/chart/status/:requestId] *)
Record ChartInfo := {
  ci_url : nullable string;
  ci_base64 : nullable string;
  ci_symbol : string;
  ci_interval : string;
  ci_chartType : string;
  ci_width : Z;
  ci_height : Z;
  ci_generatedAt : nullable Z;
  ci_indicators : nullable (list Indicator);
  ci_drawings : nullable (list Drawing);
}.

Record StatusBody := {
  sb_requestId : string;
  sb_status : string;
  sb_symbol : string;
  sb_interval : string;
  sb_chartType : string;
  sb_createdAt : Z;
  sb_chart : option ChartInfo;
  sb_processingTime : option (nullable Z);
  sb_error : option (nullable string);
}.

Inductive StatusReply : Type :=
  | StatusNotFound                  (* 404, 'Chart request not found' *)
  | StatusOk (body : StatusBody).   (* 200 *)

Definition route_status (requestId_ : string) : M StatusReply :=
  let* found := getChartRequest requestId_ in
  match found with
  | None => ret StatusNotFound
  | Some chartRequest =>
      let completed := bool_decide (status chartRequest = "completed") in
      let failed := bool_decide (status chartRequest = "failed") in
      ret (StatusOk
             {| sb_requestId := requestId chartRequest;
                sb_status := status chartRequest;
                sb_symbol := symbol chartRequest;
                sb_interval := interval chartRequest;
                sb_chartType := chartType chartRequest;
                sb_createdAt := createdAt chartRequest;
                sb_chart :=
                  if completed then
                    Some {| ci_url := chartUrl chartRequest;
                            ci_base64 := base64Data chartRequest;
                            ci_symbol := symbol chartRequest;
                            ci_interval := interval chartRequest;
                            ci_chartType := chartType chartRequest;
                            ci_width := width chartRequest;
                            ci_height := height chartRequest;
                            ci_generatedAt := completedAt chartRequest;
                            ci_indicators := indicators chartRequest;
                            ci_drawings := drawings chartRequest |}
                  else None;
                sb_processingTime :=
                  if completed then Some (processingTime chartRequest)
                  else None;
                sb_error :=
                  if failed then Some (errorMessage chartRequest) else None |})
  end.

(** [GET /api/v2/chart/recent]. [parsed] is the value of
    [parseInt(req.query.limit)], [None] for [NaN]; [|| 10] replaces the
    falsy results [NaN] and [0]. *)
Definition recent_limit (parsed : option Z) : Z :=
  match parsed with
  | Some n => if decide (n = 0) then 10 else n
  | None => 10
  end.

Record RecentItem := {
  ri_requestId : string;
  ri_symbol : string;
  ri_interval : string;
  ri_chartType : string;
  ri_status : string;
  ri_createdAt : Z;
  ri_completedAt : nullable Z;
  ri_processingTime : nullable Z;
}.

Definition recent_item (req : ChartRequest) : RecentItem :=
  {| ri_requestId := requestId req; ri_symbol := symbol req;
     ri_interval := interval req; ri_chartType := chartType req;
     ri_status := status req; ri_createdAt := createdAt req;
     ri_completedAt := completedAt req;
     ri_processingTime := processingTime req |}.

Definition route_recent (parsed : option Z) : M (list RecentItem) :=
  let limit := recent_limit parsed in
  let* requests := getRecentChartRequests limit in
  ret (recent_item <$> requests).

(** [GET /api/v2/events/:requestId] *)
Record EventItem := {
  ei_id : Z;
  ei_type : string;
  ei_message : string;
  ei_timestamp : Z;
}.

Definition event_item (event : SseEvent) : EventItem :=
  {| ei_id := ev_id event; ei_type := ev_eventType event;
     ei_message := ev_message event; ei_timestamp := ev_timestamp event |}.

Definition route_events (requestId_ : string) : M (list EventItem) :=
  let* events := getSseEvents requestId_ in
  ret (event_item <$> events).

(** ** Vocabulary for the properties of the storage *)

(** The identifier [createChartRequest] mints: [`req_${Date.now()}_${id}`]. *)
Definition request_id (stamp id_ : Z) : string :=
  "req_" +:+ pretty stamp +:+ "_" +:+ pretty id_.

Fixpoint no_underscore (s : string) : Prop :=
  match s with
  | EmptyString => True
  | String c s' => c <> "_"%char /\ no_underscore s'
  end.

(** While the request counter is in the exact range, every key of the
    ledger was minted with a sequence number below the counter. *)
Definition ledger_keys_minted (w : World) : Prop :=
  currentChartId (storage w) < MAX_EXACT ->
  forall k, k ∈ JsMap.keys (ledger w) ->
            exists stamp i, k = request_id stamp i /\
                            i < currentChartId (storage w).

(** Every stored event sits in the history of its own request. *)
Definition events_filed_by_request (w : World) : Prop :=
  forall requestId_ e, e ∈ history requestId_ w -> ev_requestId e = requestId_.

(** While the event counter is in the exact range, no two stored events
    share a sequence id. *)
Definition event_ids_unique (w : World) : Prop :=
  currentEventId (storage w) < MAX_EXACT ->
  (forall requestId_ e,
      e ∈ history requestId_ w -> ev_id e < currentEventId (storage w)) /\
  (forall r1 r2 (i j : nat) e1 e2,
      history r1 w !! i = Some e1 -> history r2 w !! j = Some e2 ->
      ev_id e1 = ev_id e2 -> r1 = r2 /\ i = j).

(** ** Vocabulary for the properties of the session registry *)

(** The keep-alive comment line. *)
Definition heartbeat_chunk : Chunk := ChunkText (": heartbeat" +:+ nl +:+ nl).

(** Two registrations of the same clientId, on [res1] and then on [res2]. *)
Definition register_twice (clock : nat -> Z) (clientId : string)
    (res1 res2 : nat) : M unit :=
  addClient clock clientId res1 None ;;;
  addClient clock clientId res2 None.

(** Two sessions of which the second one's stream throws on every write. *)
Definition world_one_failing : World :=
  world_of (set_failing 8%nat true world_two_sessions).

(** ** Vocabulary for the properties of the schema and of the payload *)

Definition valid_config (config : ChartConfig) : Prop :=
  cfg_symbol config <> "" /\
  cfg_interval config ∈ Zod.intervals /\
  cfg_chartType config ∈ Zod.chartTypes /\
  400 <= cfg_width config <= 2000 /\
  300 <= cfg_height config <= 1500 /\
  cfg_theme config ∈ Zod.themes.

(** The codes the upstream API knows. *)
Definition chart_type_codes : list Z := [1; 2; 3; 0; 9; 8; 7; 12; 11].

(** An optional number or string as the conditions of [buildChartPayload]
    see it: 0 and the empty string count as absent. *)
Definition truthy_number (o : option Z) : option Z :=
  match o with
  | Some n => if decide (n = 0) then None else Some n
  | None => None
  end.
Definition truthy_string (o : option string) : option string :=
  match o with
  | Some t => if decide (t = "") then None else Some t
  | None => None
  end.

(** The part of a config that can make a difference to the payload. *)
Definition significant_indicator (i : Indicator) : Indicator :=
  {| ind_type := ind_type i;
     ind_period := truthy_number (ind_period i);
     ind_color := truthy_string (ind_color i);
     ind_overbought := None;
     ind_oversold := None |}.
Definition significant_drawing (d : Drawing) : Drawing :=
  {| dr_type := dr_type d;
     dr_points := dr_points d;
     dr_color := truthy_string (dr_color d);
     dr_width := truthy_number (dr_width d) |}.
Definition significant (config : ChartConfig) : ChartConfig :=
  {| cfg_symbol := cfg_symbol config;
     cfg_interval := cfg_interval config;
     cfg_chartType := cfg_chartType config;
     cfg_width := cfg_width config;
     cfg_height := cfg_height config;
     cfg_indicators := significant_indicator <$> cfg_indicators config;
     cfg_drawings := significant_drawing <$> cfg_drawings config;
     cfg_theme := cfg_theme config;
     cfg_showVolume := cfg_showVolume config;
     cfg_showGrid := cfg_showGrid config;
     cfg_timezone := cfg_timezone config |}.

Definition well_formed_study (s : Study) : Prop :=
  (length (study_inputs s) <= 1)%nat /\ (0 ∉ study_inputs s) /\
  study_plot_color s <> Some "".

Definition well_formed_drawing (d : PayloadDrawing) : Prop :=
  pd_linewidth d <> 0 /\ pd_color d <> "".

(** ** Vocabulary for the properties of the users table *)

(** The table after [createUser] was called for each element of [ins], on a
    fresh storage. *)
Definition users_after (ins : list InsertUser) : UserTable :=
  foldl (fun t i => (createUser i t).2) new_UserTable ins.

(** The user that the [n]-th call ([n] from 0) creates, and its entry in
    the table. *)
Definition nth_user (n : nat) (i : InsertUser) : User :=
  {| user_id := Z.of_nat n + 1; username := iu_username i;
     password := iu_password i |}.
Definition entry_of (n : nat) (i : InsertUser) : Z * User :=
  (Z.of_nat n + 1, nth_user n i).

(** ** Vocabulary for the properties of the generate route *)

(** The message of the error that [generateChart] catches when the upstream
    call does not yield a chart. *)
Definition failure_message (outcome : FetchOutcome) : string :=
  match outcome with
  | FetchRejects e => message_or "Unknown error occurred" e
  | FetchNotOk code errorText =>
      "Chart-IMG API error: " +:+ pretty code +:+ " " +:+ errorText
  | _ => "Unexpected response format from Chart-IMG API"
  end.

(** The value [generateChart] resolves to, for a processing time [d]. *)
Definition response_of (outcome : FetchOutcome) (d : Z) : ChartImgResponse :=
  match outcome with
  | FetchJson u b =>
      {| success := true; url := u; base64 := b; error := None;
         res_processingTime := Some d |}
  | FetchPng b =>
      {| success := true; url := None;
         base64 := Some ("data:image/png;base64," +:+ b); error := None;
         res_processingTime := Some d |}
  | _ =>
      {| success := false; url := None; base64 := None;
         error := Some (failure_message outcome);
         res_processingTime := Some d |}
  end.

(** The update that the [.then] callback of the route writes for a result. *)
Definition outcome_update (result : ChartImgResponse) (now : Z)
  : ChartRequestUpdates :=
  if success result then completed_update result now
  else failed_update (of_optional (error result))
                     (Some (of_optional (res_processingTime result))) now.

Definition monotone (clock : nat -> Z) : Prop :=
  forall i j : nat, (i <= j)%nat -> clock i <= clock j.

(** A session that is registered and whose stream accepts writes. *)
Definition session_live (clientId : string) (w : World) : Prop :=
  exists client,
    JsMap.get clientId (clients w) = Some client /\
    failing (stream_of (response client) w) = false.

(** From [w0] to [w], the history of [requestId_] grew by events of the
    given types, all carrying [requestId_]. *)
Definition appended (requestId_ : string) (w0 w : World)
    (types : list string) : Prop :=
  exists es,
    history requestId_ w = (history requestId_ w0 ++ es)%list /\
    ev_eventType <$> es = types /\
    Forall (fun e => ev_requestId e = requestId_) es.

(** The world after a session ["c1"] was opened and one request submitted
    for it. *)
Definition world_one_request : World :=
  run_calls clock0 toFixed0 calls_one_request initial_world.

Definition first_event_of_request : SseEvent :=
  {| ev_id := 1; ev_requestId := "req_1001_1"; ev_eventType := "REQUEST";
     ev_message := "Chart generation started for NASDAQ:AAPL";
     ev_timestamp := 1004 |}.

(** * The generate route by turns of the event loop *)

(** JavaScript runs every callback of the event loop to completion. An
    [await] on a promise that is already settled (the methods of [storage]
    are [async] functions without an [await] of their own) defers the rest
    of the function to the microtask queue only, which is emptied before the
    server handles anything else. Another request can therefore be handled
    in the middle of a chart request at two places only, the awaits of
    [generateChart] on the network: [await fetch(...)] and the read of the
    body ([response.text()], [response.json()], [response.arrayBuffer()]).
    A request runs in at most three turns: the handler, up to [await fetch]
    ([generate_handler]); from the settlement of [fetch] up to the read of
    the body ([settle_fetch]); from the settlement of that read on
    ([settle_body]). *)

(** How [await fetch(...)] settles: it rejects, or it resolves to a response
    that is not [ok], or to one whose content type includes
    ['application/json'], or ['image/png'], or neither. *)
Inductive FetchSettlement : Type :=
  | Rejected (e : Exn)
  | NotOk (http_status : Z)
  | JsonType
  | PngType
  | OtherType.

(** The read of the body that [generateChart] awaits next. *)
Inductive BodyRead : Type :=
  | ReadText (http_status : Z)   (* response.text(), of a response not ok *)
  | ReadJson                     (* response.json() *)
  | ReadArrayBuffer.             (* response.arrayBuffer() *)

(** What the read resolves to: the error text; [jsonData.url] and
    [jsonData.base64]; the buffer, given base64-encoded. (A JSON body on
    which the access [jsonData.url] throws has the effect of a read that
    rejects with that error.) *)
Definition body_of (read : BodyRead) : Type :=
  match read with
  | ReadText _ => string
  | ReadJson => (option string * option string)%type
  | ReadArrayBuffer => string
  end.

(** A request between two of its turns. *)
Inductive Waiting : Type :=
  | AwaitsFetch (fl : InFlight)
  | AwaitsBody (fl : InFlight) (read : BodyRead).

Definition waiting_request (p : Waiting) : string :=
  match p with
  | AwaitsFetch fl => fl_requestId fl
  | AwaitsBody fl _ => fl_requestId fl
  end.

(** The server between two turns: its state and the requests in flight. *)
Record ServerState := {
  world : World;
  waiting : list Waiting;
}.

Definition initial_server : ServerState :=
  {| world := initial_world; waiting := [] |}.

(** The turns of the session side: a registration ([addClient], which
    [handleSSEConnection] calls), a stream closes, a heartbeat interval
    fires; and the environment making a stream fail or recover. *)
Definition session_call (c : Call) : bool :=
  match c with
  | CallAddClient _ _ _ | CallClose _ | CallHeartbeat _ _
  | StreamFault _ _ => true
  | _ => false
  end.

Section Turns.
Variable clock : nat -> Z.
Variable toFixed1 : Z -> string.

(** The [catch] block of [generateChart] (lines 95-109). *)
Definition generateChart_catch (requestId_ : string)
    (clientId : option string) (startTime : Z) (e : Exn)
    : M ChartImgResponse :=
  let errorMessage := message_or "Unknown error occurred" e in
  (* Send error event *)
  when (truthy clientId)
    (sendEvent clock (str_of clientId) "error"
               ("Chart generation failed: " +:+ errorMessage)
               requestId_ None) ;;;
  let* t := Date_now clock in
  ret {| success := false; url := None; base64 := None;
         error := Some errorMessage;
         res_processingTime := Some (t - startTime) |}.

(** The end of the [try] block (lines 83-92), once [result] is built. *)
Definition generateChart_return (requestId_ : string)
    (clientId : option string) (startTime : Z) (result : ChartImgResponse)
    : M ChartImgResponse :=
  (* Send success event *)
  (if truthy clientId then
     let* t := Date_now clock in
     sendEvent clock (str_of clientId) "success"
       ("Chart generated successfully (" +:+ toFixed1 (t - startTime)
        +:+ "s)")
       requestId_
       (Some (JObj [("chartGenerated", JBool true);
                    ("processingTime",
                     match res_processingTime result with
                     | Some d => JNum d
                     | None => JNull
                     end)]))
   else ret tt) ;;;
  ret result.

(** [generateChart] from the settlement of [await fetch] to its [return]
    ([inl]) or to the read of the body it awaits next ([inr]). *)
Definition generateChart_after_fetch (requestId_ : string)
    (clientId : option string) (startTime : Z) (settled : FetchSettlement)
    : M (ChartImgResponse + BodyRead) :=
  try_catch
    (match settled with
     | Rejected e => throw e
     | NotOk http_status => ret (inr (ReadText http_status))
     | JsonType =>
         when (truthy clientId)
           (sendEvent clock (str_of clientId) "progress"
                      "Processing chart data..." requestId_ None) ;;;
         ret (inr ReadJson)
     | PngType =>
         when (truthy clientId)
           (sendEvent clock (str_of clientId) "progress"
                      "Processing chart data..." requestId_ None) ;;;
         ret (inr ReadArrayBuffer)
     | OtherType =>
         when (truthy clientId)
           (sendEvent clock (str_of clientId) "progress"
                      "Processing chart data..." requestId_ None) ;;;
         throw (JsError "Unexpected response format from Chart-IMG API")
     end)
    (fun e =>
       let* result := generateChart_catch requestId_ clientId startTime e in
       ret (inl result)).

(** [generateChart] from the settlement of the read of the body ([inl]: the
    read rejects) to its [return]. *)
Definition generateChart_after_body (requestId_ : string)
    (clientId : option string) (startTime : Z) (read : BodyRead)
    : Exn + body_of read -> M ChartImgResponse :=
  match read with
  | ReadText http_status => fun settled =>
      try_catch
        (match settled with
         | inl e => throw e
         | inr errorText =>
             throw (JsError ("Chart-IMG API error: " +:+ pretty http_status
                             +:+ " " +:+ errorText))
         end)
        (generateChart_catch requestId_ clientId startTime)
  | ReadJson => fun settled =>
      try_catch
        (match settled with
         | inl e => throw e
         | inr jsonData =>
             let* t := Date_now clock in
             generateChart_return requestId_ clientId startTime
               {| success := true; url := jsonData.1; base64 := jsonData.2;
                  error := None;
                  res_processingTime := Some (t - startTime) |}
         end)
        (generateChart_catch requestId_ clientId startTime)
  | ReadArrayBuffer => fun settled =>
      try_catch
        (match settled with
         | inl e => throw e
         | inr buffer =>
             let* t := Date_now clock in
             generateChart_return requestId_ clientId startTime
               {| success := true; url := None;
                  base64 := Some ("data:image/png;base64," +:+ buffer);
                  error := None;
                  res_processingTime := Some (t - startTime) |}
         end)
        (generateChart_catch requestId_ clientId startTime)
  end.

(** The [.catch] callback of the route (lines 53-59). *)
Definition generate_catch (requestId_ : string) (e : Exn) : M unit :=
  let* now := Date_now clock in
  updateChartRequest requestId_ (failed_update (message_of e) None now) ;;;
  ret tt.

(** The turn that starts when [fetch] settles. When [generateChart] returns
    in this turn, the [.then] callback runs in it too; otherwise the request
    waits for the body ([Some read]). *)
Definition settle_fetch (fl : InFlight) (settled : FetchSettlement)
    : M (option BodyRead) :=
  try_catch
    (let* r := generateChart_after_fetch (fl_requestId fl) (fl_clientId fl)
                 (fl_startTime fl) settled in
     match r with
     | inl result =>
         generate_record_result clock (fl_requestId fl) result ;;; ret None
     | inr read => ret (Some read)
     end)
    (fun e => generate_catch (fl_requestId fl) e ;;; ret None).

(** The turn that starts when the read of the body settles. *)
Definition settle_body (fl : InFlight) (read : BodyRead)
    (settled : Exn + body_of read) : M unit :=
  try_catch
    (let* result := generateChart_after_body (fl_requestId fl)
                      (fl_clientId fl) (fl_startTime fl) read settled in
     generate_record_result clock (fl_requestId fl) result)
    (generate_catch (fl_requestId fl)).

(** [handleSSEConnection] (sse.ts, lines 91-113), after [res.writeHead]:
    the two writes of the initial frame, then [addClient]. [clientId] is
    the query parameter or the generated id, [connected] the serialised
    object of the data line ([new Date()] is read for it). A write that
    throws ends the handler. *)
Definition handleSSEConnection (clientId : string) (res : nat)
    (lastEventId_ : option string) (connected : string) : M unit :=
  (* Send initial connection event *)
  write res (ChunkText ("event: connection" +:+ nl)) ;;;
  let* _ := Date_now clock in
  write res (ChunkText ("data: " +:+ connected +:+ nl +:+ nl)) ;;;
  addClient clock clientId res lastEventId_.

(** The server after one turn. *)
Definition after_generate (body : option JVal) (clientId : option string)
    (s : ServerState) : ServerState :=
  let r := generate_handler clock body clientId (world s) in
  {| world := world_of r;
     waiting := waiting s ++
                match value_of r with
                | Some (_, Some fl) => [AwaitsFetch fl]
                | _ => []
                end |}.

Definition after_fetch (i : nat) (fl : InFlight) (settled : FetchSettlement)
    (s : ServerState) : ServerState :=
  let r := settle_fetch fl settled (world s) in
  {| world := world_of r;
     waiting := match value_of r with
                | Some (Some read) => <[i := AwaitsBody fl read]> (waiting s)
                | _ => delete i (waiting s)
                end |}.

Definition after_body (i : nat) (fl : InFlight) (read : BodyRead)
    (settled : Exn + body_of read) (s : ServerState) : ServerState :=
  {| world := world_of (settle_body fl read settled (world s));
     waiting := delete i (waiting s) |}.

Definition after_connect (clientId : string) (res : nat)
    (lastEventId_ : option string) (connected : string) (s : ServerState)
    : ServerState :=
  {| world := world_of (handleSSEConnection clientId res lastEventId_
                          connected (world s));
     waiting := waiting s |}.

Definition after_session (c : Call) (s : ServerState) : ServerState :=
  {| world := world_of (exec_call clock toFixed1 c (world s));
     waiting := waiting s |}.

(** The states in which the HTTP server of [routes.ts] can start handling a
    request: those between two turns. A turn is a submission to the generate
    route, the settlement of [fetch] or of the read of the body for a
    request in flight, a connection to the events route, or a turn of the
    session side; the read routes change nothing. An exception that escapes
    a heartbeat is taken to leave the server running. ([mcp-server.ts] is
    another program: it has a storage object of its own and calls
    [generateChart] without a client id, so it sends no event.) *)
Inductive between_turns : ServerState -> Prop :=
  | turns_init : between_turns initial_server
  | turns_generate s body clientId :
      between_turns s -> between_turns (after_generate body clientId s)
  | turns_fetch s i fl settled :
      between_turns s ->
      waiting s !! i = Some (AwaitsFetch fl) ->
      between_turns (after_fetch i fl settled s)
  | turns_body s i fl read settled :
      between_turns s ->
      waiting s !! i = Some (AwaitsBody fl read) ->
      between_turns (after_body i fl read settled s)
  | turns_connect s clientId res lastEventId_ connected :
      between_turns s ->
      between_turns (after_connect clientId res lastEventId_ connected s)
  | turns_session s c :
      between_turns s ->
      session_call c = true ->
      between_turns (after_session c s).

(** The upstream call of the atomic model as the two settlements of the
    turns. *)
Definition fetch_part (outcome : FetchOutcome) : FetchSettlement :=
  match outcome with
  | FetchRejects e => Rejected e
  | FetchNotOk http_status _ => NotOk http_status
  | FetchJson _ _ => JsonType
  | FetchPng _ => PngType
  | FetchOtherType => OtherType
  end.

Definition settle_in_turns (fl : InFlight) (outcome : FetchOutcome) : M unit :=
  let* next := settle_fetch fl (fetch_part outcome) in
  match next, outcome with
  | Some (ReadText http_status), FetchNotOk _ errorText =>
      settle_body fl (ReadText http_status) (inr errorText)
  | Some ReadJson, FetchJson u b => settle_body fl ReadJson (inr (u, b))
  | Some ReadArrayBuffer, FetchPng b => settle_body fl ReadArrayBuffer (inr b)
  | _, _ => ret tt
  end.
End Turns.

(** ** Vocabulary for the properties of the turns *)

(** A lifecycle event of type [T] (in upper case) of request [requestId_]
    can be observed in [w]: it was written to a stream, or it is in the
    event store. *)
Definition shown (w : World) (requestId_ T : string) : Prop :=
  (exists h d, ChunkData d ∈ chunks (stream_of h w) /\
               ed_requestId d = requestId_ /\ toUpperCase (ed_type d) = T) \/
  (exists e, e ∈ history requestId_ w /\ ev_eventType e = T).

(** The ledger status that an observed event asks for. *)
Definition status_allows (st : option string) (T : string) : Prop :=
  (T = "REQUEST" ->
   st ∈ [Some "processing"; Some "completed"; Some "failed"]) /\
  (T = "SUCCESS" -> st = Some "completed") /\
  (T = "ERROR" -> st = Some "failed").

Definition ledger_leads_shown (w : World) : Prop :=
  forall requestId_ T,
    shown w requestId_ T -> status_allows (ledger_status requestId_ w) T.

(** Ledger/event sequencing for the reader of the events route: a stored
    lifecycle event has its ledger transition in place. *)
Definition ledger_leads_stored_events (w : World) : Prop :=
  forall requestId_ e,
    e ∈ history requestId_ w ->
    (ev_eventType e = "REQUEST" ->
     ledger_status requestId_ w
       ∈ [Some "processing"; Some "completed"; Some "failed"]) /\
    (ev_eventType e = "SUCCESS" ->
     ledger_status requestId_ w = Some "completed") /\
    (ev_eventType e = "ERROR" ->
     ledger_status requestId_ w = Some "failed").

(** From [w] to [w'] nothing new can be observed but events of request
    [requestId_] with a type in [Ts]. *)
Definition shown_delta (w w' : World) (requestId_ : string)
    (Ts : list string) : Prop :=
  forall r T, shown w' r T -> shown w r T \/ (r = requestId_ /\ T ∈ Ts).

(** What holds between two turns, while the request counter is exact: the
    ledger keys are minted ids; observed events belong to ['system'] or to a
    request of the ledger; the requests in flight are distinct, show
    ['processing'] and have no terminal event yet; the ledger leads the
    events. *)
Definition turn_invariant (s : ServerState) : Prop :=
  currentChartId (storage (world s)) < MAX_EXACT ->
  ledger_keys_minted (world s) /\
  (forall r T, shown (world s) r T ->
               r = "system" \/ is_Some (JsMap.get r (ledger (world s)))) /\
  NoDup (waiting_request <$> waiting s) /\
  (forall p, p ∈ waiting s ->
     ledger_status (waiting_request p) (world s) = Some "processing" /\
     forall T, shown (world s) (waiting_request p) T ->
               T ∈ ["REQUEST"; "PROGRESS"]) /\
  ledger_leads_shown (world s).

(** How a computation ends. *)
Definition outcome_of {A} (res : Result A) : Exn + A :=
  match res with
  | Ret a _ => inr a
  | Throw e _ => inl e
  end.

(** A computation that leaves the ledger and the request counter as they
    were and shows nothing new but events of [requestId_] with a type in
    [Ts]; [Q] holds of the way it ends. *)
Definition emits {A} (requestId_ : string) (Ts : list string)
    (Q : Exn + A -> Prop) (m : M A) : Prop :=
  forall w,
    Q (outcome_of (m w)) /\
    ledger (world_of (m w)) = ledger w /\
    currentChartId (storage (world_of (m w))) = currentChartId (storage w) /\
    shown_delta w (world_of (m w)) requestId_ Ts.

(** ** Vocabulary for the events of each turn *)

(** The event types each turn of a request stores when they are delivered. *)
Definition handler_event_types : list string :=
  ["REQUEST"; "PROGRESS"; "PROGRESS"].

Definition fetch_event_types (settled : FetchSettlement) : list string :=
  match settled with
  | Rejected _ => ["ERROR"]
  | NotOk _ => []
  | JsonType | PngType => ["PROGRESS"]
  | OtherType => ["PROGRESS"; "ERROR"]
  end.

Definition body_event_types (read : BodyRead) (settled : Exn + body_of read)
  : list string :=
  match settled with
  | inl _ => ["ERROR"]
  | inr _ =>
      match read with
      | ReadText _ => ["ERROR"]
      | ReadJson | ReadArrayBuffer => ["SUCCESS"]
      end
  end.

(** Whether the turn that starts with [settled] ends the request. *)
Definition fetch_ends_request (settled : FetchSettlement) : bool :=
  match settled with
  | Rejected _ | OtherType => true
  | _ => false
  end.

(** The state of the client's session at the start of a turn: registered on
    a stream that accepts writes, or not. *)
Definition session_is (live : bool) (clientId : string) (w : World) : Prop :=
  if live then session_live clientId w else ~ session_live clientId w.

(** *** A concrete run *)

(** The session ["c1"] opens on stream 7 and submits a request; the request
    then waits for [fetch], for the body, and is settled. *)
Definition flight0 : InFlight :=
  {| fl_config := config0; fl_requestId := "req_1002_1";
     fl_clientId := Some "c1"; fl_startTime := 1006 |}.

Definition server_submitted : ServerState :=
  after_generate clock0 (Some body0) (Some "c1")
    (after_connect clock0 "c1" 7%nat None "connected" initial_server).

Definition server_answered : ServerState :=
  after_fetch clock0 0 flight0 JsonType server_submitted.

Definition server_settled : ServerState :=
  after_body clock0 toFixed0 0 flight0 ReadJson
    (inr (Some "https://charts.example/1.png", None)) server_answered.

(** * Properties *)

(** ** Insertion-ordered maps *)

Module JsMapFacts.
Import JsMap.

Lemma get_set_eq {V} k (v : V) m : get k (set k v m) = Some v.
Proof.
  induction m as [|[k' v'] m IH]; csimpl.
  - by rewrite decide_True.
  - destruct (decide (k' = k)) as [->|Hne]; csimpl.
    + by rewrite decide_True.
    + by rewrite decide_False.
Qed.

Lemma get_set_ne {V} k k' (v : V) m : k ≠ k' → get k' (set k v m) = get k' m.
Proof.
  intros Hne. induction m as [|[k0 v0] m IH]; csimpl.
  - by rewrite decide_False.
  - destruct (decide (k0 = k)) as [->|Hne0]; csimpl.
    + by rewrite !decide_False.
    + destruct (decide (k0 = k')); auto.
Qed.

Lemma get_delete_eq {V} k (m : t V) : get k (delete k m) = None.
Proof.
  induction m as [|[k' v'] m IH]; csimpl; [done|].
  destruct (decide (k' = k)); csimpl; [done|]. by rewrite decide_False.
Qed.

Lemma get_delete_ne {V} k k' (m : t V) :
  k ≠ k' → get k' (delete k m) = get k' m.
Proof.
  intros Hne. induction m as [|[k0 v0] m IH]; csimpl; [done|].
  destruct (decide (k0 = k)) as [->|]; csimpl.
  - by rewrite decide_False.
  - by rewrite IH.
Qed.

Lemma delete_absent {V} k (m : t V) : get k m = None → delete k m = m.
Proof.
  induction m as [|[k' v'] m IH]; csimpl; [done|].
  destruct (decide (k' = k)); [done|]. intros H. by rewrite IH.
Qed.

Lemma get_Some_keys {V} k (m : t V) : is_Some (get k m) ↔ k ∈ keys m.
Proof.
  unfold keys. induction m as [|[k' v'] m IH]; csimpl.
  - split; [by intros [? ?]|by intros ?%elem_of_nil].
  - rewrite elem_of_cons. destruct (decide (k' = k)) as [->|Hne].
    + split; eauto.
    + rewrite IH. split; [by right|]. by intros [?|?].
Qed.

Lemma get_None_keys {V} k (m : t V) : get k m = None ↔ k ∉ keys m.
Proof. rewrite <- get_Some_keys, eq_None_not_Some. done. Qed.

Lemma keys_set_present {V} k (v : V) m :
  is_Some (get k m) → keys (set k v m) = keys m.
Proof.
  unfold keys. induction m as [|[k' v'] m IH]; csimpl.
  - by intros [? ?].
  - destruct (decide (k' = k)) as [->|Hne]; csimpl; [done|].
    intros H. by rewrite IH.
Qed.

Lemma keys_set_absent {V} k (v : V) m :
  get k m = None → keys (set k v m) = (keys m ++ [k])%list.
Proof.
  unfold keys. induction m as [|[k' v'] m IH]; csimpl; [done|].
  destruct (decide (k' = k)); [done|]. csimpl. intros H. by rewrite IH.
Qed.

Lemma values_set_absent {V} k (v : V) m :
  get k m = None → values (set k v m) = (values m ++ [v])%list.
Proof.
  unfold values. induction m as [|[k' v'] m IH]; csimpl; [done|].
  destruct (decide (k' = k)); [done|]. csimpl. intros H. by rewrite IH.
Qed.

Lemma wf_set {V} k (v : V) m : wf m → wf (set k v m).
Proof.
  unfold wf. intros Hwf. destruct (get k m) eqn:Hg.
  - by rewrite keys_set_present.
  - rewrite keys_set_absent by done.
    apply NoDup_app. split_and!; [done| |apply NoDup_singleton].
    intros x Hx ->%list_elem_of_singleton. by apply get_None_keys in Hg.
Qed.

Lemma keys_delete {V} k (m : t V) :
  keys (delete k m) = filter (λ k', k' ≠ k) (keys m).
Proof.
  unfold keys. induction m as [|[k' v'] m IH]; csimpl; [done|].
  destruct (decide (k' = k)) as [->|Hne].
  - rewrite filter_cons_False by naive_solver. done.
  - rewrite filter_cons_True by done. csimpl. by rewrite IH.
Qed.

Lemma wf_delete {V} k (m : t V) : wf m → wf (delete k m).
Proof. unfold wf. rewrite keys_delete. apply NoDup_filter. Qed.

Lemma size_set {V} k (v : V) m :
  size (set k v m) = if has k m then size m else size m + 1.
Proof.
  unfold size, has. induction m as [|[k' v'] m IH]; csimpl; [done|].
  destruct (decide (k' = k)); csimpl; [done|].
  destruct (get k m); lia.
Qed.

Lemma size_keys {V} (m : t V) : size m = Z.of_nat (length (keys m)).
Proof. unfold size, keys. by rewrite length_fmap. Qed.
End JsMapFacts.

(** ** Running the monad *)

Lemma world_of_Ret {A} (a : A) w : world_of (Ret a w) = w.
Proof. reflexivity. Qed.

Section Combinators.
Context (P : World -> Prop).

Lemma preserves_ret {A} (a : A) : preserves P (ret a).
Proof. by intros w Hw. Qed.

Lemma preserves_throw {A} e : preserves P (@throw A e).
Proof. by intros w Hw. Qed.

Lemma preserves_get_world : preserves P get_world.
Proof. by intros w Hw. Qed.

Lemma preserves_bind {A B} (m : M A) (k : A -> M B) :
  preserves P m -> (forall a, preserves P (k a)) -> preserves P (bind m k).
Proof.
  intros Hm Hk w Hw. unfold bind. specialize (Hm w Hw).
  destruct (m w) as [a w'|e w']; simpl in *; [by apply Hk|done].
Qed.

Lemma preserves_try_catch {A} (m : M A) (h : Exn -> M A) :
  preserves P m -> (forall e, preserves P (h e)) -> preserves P (try_catch m h).
Proof.
  intros Hm Hh w Hw. unfold try_catch. specialize (Hm w Hw).
  destruct (m w) as [a w'|e w']; simpl in *; [done|by apply Hh].
Qed.

Lemma preserves_when b (m : M unit) : preserves P m -> preserves P (when b m).
Proof. destruct b; simpl; [done|]. intros _. apply preserves_ret. Qed.

Lemma preserves_for_each {A} (f : A -> M unit) l :
  (forall a, preserves P (f a)) -> preserves P (for_each f l).
Proof.
  intros Hf. induction l as [|x l IH]; simpl.
  - apply preserves_ret.
  - apply preserves_bind; [apply Hf|done].
Qed.

Lemma preserves_modify (f : World -> World) :
  (forall w, P w -> P (f w)) -> preserves P (modify f).
Proof. intros Hf w Hw. by apply Hf. Qed.
End Combinators.

Lemma never_throws_ret {A} (a : A) : never_throws (ret a).
Proof. done. Qed.

Lemma never_throws_bind {A B} (m : M A) (k : A -> M B) :
  never_throws m -> (forall a, never_throws (k a)) -> never_throws (bind m k).
Proof.
  intros Hm Hk w. unfold bind. specialize (Hm w).
  destruct (m w) as [a w'|e w']; [apply Hk|done].
Qed.

Lemma never_throws_try_catch {A} (m : M A) (h : Exn -> M A) :
  (forall e, never_throws (h e)) -> never_throws (try_catch m h).
Proof.
  intros Hh w. unfold try_catch. destruct (m w) as [a w'|e w']; [done|apply Hh].
Qed.

Lemma never_throws_when b (m : M unit) : never_throws m -> never_throws (when b m).
Proof. destruct b; simpl; [done|]. intros _. apply never_throws_ret. Qed.

Lemma never_throws_for_each {A} (f : A -> M unit) l :
  (forall a, never_throws (f a)) -> never_throws (for_each f l).
Proof.
  intros Hf. induction l as [|x l IH]; simpl.
  - apply never_throws_ret.
  - apply never_throws_bind; [apply Hf|done].
Qed.

(** ** The request ledger *)

Section Ledger.

Lemma updateChartRequest_run requestId_ updates w :
  updateChartRequest requestId_ updates w =
  match JsMap.get requestId_ (ledger w) with
  | None => Ret None w
  | Some existing =>
      Ret (Some (spread existing updates))
          (set_storage
             {| chartRequests :=
                  JsMap.set requestId_ (spread existing updates) (ledger w);
                sseEvents := sseEvents (storage w);
                currentChartId := currentChartId (storage w);
                currentEventId := currentEventId (storage w) |} w)
  end.
Proof.
  unfold updateChartRequest, bind, get_storage, ledger.
  destruct (JsMap.get requestId_ (chartRequests (storage w))); reflexivity.
Qed.

(** C10. [updateChartRequest] on a [requestId] that the ledger does not hold
    returns [undefined] and changes nothing at all: the world after the call
    is the world before it (no entry created, none modified). *)
Theorem updateChartRequest_unknown_is_noop requestId_ updates w :
  JsMap.get requestId_ (ledger w) = None ->
  updateChartRequest requestId_ updates w = Ret None w.
Proof. intros H. rewrite updateChartRequest_run, H. reflexivity. Qed.
End Ledger.

Section LedgerUpdates.

(** C2 (as stated) fails: the completed request of [world_completed] accepts
    an update back to ['processing'] without any error, and its status
    changes. *)
Lemma terminal_update_is_accepted :
  ~ terminal_update_rejected "req_1000_1" (status_update "processing")
      world_completed.
Proof.
  intros H. unfold terminal_update_rejected in H.
  edestruct H as [Hthrows _]; [vm_compute; reflexivity | reflexivity |].
  vm_compute in Hthrows. discriminate.
Qed.

(** C2 (amended). [updateChartRequest] has no terminal-state guard: on a
    record whose status is ['completed'] or ['failed'] it returns normally
    with the merged record and stores it; each terminal field named in the
    update takes the new value, each one not named keeps its value. *)
Theorem updateChartRequest_on_terminal_overwrites requestId_ updates existing w :
  JsMap.get requestId_ (ledger w) = Some existing ->
  is_terminal (status existing) = true ->
  let r := updateChartRequest requestId_ updates w in
  r = Ret (Some (spread existing updates)) (world_of r) /\
  JsMap.get requestId_ (ledger (world_of r)) = Some (spread existing updates) /\
  terminal_fields (spread existing updates) =
    (default (status existing) (u_status updates),
     default (chartUrl existing) (u_chartUrl updates),
     default (base64Data existing) (u_base64Data updates),
     default (errorMessage existing) (u_errorMessage updates),
     default (processingTime existing) (u_processingTime updates),
     default (completedAt existing) (u_completedAt updates)).
Proof.
  intros Hget _ r. subst r. rewrite updateChartRequest_run, Hget. simpl.
  split_and!; [reflexivity| |reflexivity].
  unfold ledger. simpl. apply JsMapFacts.get_set_eq.
Qed.

Lemma updateChartRequest_on_terminal_overwrites_witness :
  exists existing,
    JsMap.get "req_1000_1" (ledger world_completed) = Some existing /\
    status existing = "completed" /\
    ledger_status "req_1000_1"
      (world_of (updateChartRequest "req_1000_1" (status_update "processing")
                   world_completed))
    = Some "processing".
Proof.
  assert (exists ex, JsMap.get "req_1000_1" (ledger world_completed) = Some ex
                     /\ status ex = "completed") as (ex & Hget & Hst).
  { eexists. split; vm_compute; reflexivity. }
  exists ex. split; [exact Hget|]. split; [exact Hst|].
  destruct (updateChartRequest_on_terminal_overwrites "req_1000_1"
              (status_update "processing") ex world_completed Hget)
    as (_ & Hstored & _).
  { unfold is_terminal. rewrite Hst. reflexivity. }
  unfold ledger_status. rewrite Hstored. reflexivity.
Defined.

Lemma updateChartRequest_unknown_is_noop_witness :
  updateChartRequest "req_0_0" (status_update "failed") world_completed
  = Ret None world_completed.
Proof.
  apply updateChartRequest_unknown_is_noop. vm_compute. reflexivity.
Defined.
End LedgerUpdates.

(** ** The event store *)

Section EventStore.
Context (clock : nat -> Z) (toFixed1 : Z -> string).

Lemma createSseEvent_run insertEvent w :
  createSseEvent clock insertEvent w =
  let event :=
    {| ev_id := currentEventId (storage w);
       ev_requestId := ins_requestId insertEvent;
       ev_eventType := ins_eventType insertEvent;
       ev_message := ins_message insertEvent;
       ev_timestamp := clock (ticks w) |} in
  Ret event
    {| storage :=
         {| chartRequests := ledger w;
            sseEvents :=
              <[ins_requestId insertEvent :=
                  (history (ins_requestId insertEvent) w ++ [event])%list]>
                (event_store w);
            currentChartId := currentChartId (storage w);
            currentEventId := js_incr (currentEventId (storage w)) |};
       clients := clients w;
       heap := heap w;
       ticks := S (ticks w) |}.
Proof. reflexivity. Qed.

Lemma createChartRequest_events config w :
  let w' := world_of (createChartRequest clock config w) in
  event_store w' = event_store w /\
  currentEventId (storage w') = currentEventId (storage w).
Proof. split; reflexivity. Qed.

Lemma updateChartRequest_events requestId_ updates w :
  let w' := world_of (updateChartRequest requestId_ updates w) in
  event_store w' = event_store w /\
  currentEventId (storage w') = currentEventId (storage w).
Proof.
  rewrite updateChartRequest_run.
  destruct (JsMap.get requestId_ (ledger w)); split; reflexivity.
Qed.

Lemma history_after_createSseEvent insertEvent requestId_ w :
  history requestId_ (world_of (createSseEvent clock insertEvent w)) =
  if decide (ins_requestId insertEvent = requestId_)
  then (history requestId_ w ++
        [{| ev_id := currentEventId (storage w);
            ev_requestId := ins_requestId insertEvent;
            ev_eventType := ins_eventType insertEvent;
            ev_message := ins_message insertEvent;
            ev_timestamp := clock (ticks w) |}])%list
  else history requestId_ w.
Proof.
  rewrite createSseEvent_run. unfold history, event_store. simpl.
  destruct (decide (ins_requestId insertEvent = requestId_)) as [<-|Hne].
  - by rewrite lookup_insert_eq.
  - by rewrite lookup_insert_ne.
Qed.

Lemma strictly_increasing_nil : strictly_increasing [].
Proof. intros i j x y _ Hi. by rewrite lookup_nil in Hi. Qed.

Lemma strictly_increasing_snoc l c :
  strictly_increasing l -> Forall (fun x => x < c) l ->
  strictly_increasing (l ++ [c]).
Proof.
  intros Hl Hc i j x y Hij Hi Hj.
  assert (j < length (l ++ [c]))%nat as Hjlen by (by eapply lookup_lt_Some).
  rewrite length_app in Hjlen. simpl in Hjlen.
  assert (i < length l)%nat as Hilen by lia.
  rewrite lookup_app_l in Hi by done.
  destruct (decide (j < length l)%nat) as [Hjl|Hjl].
  - rewrite lookup_app_l in Hj by done. exact (Hl i j x y Hij Hi Hj).
  - assert (j = length l) as -> by lia.
    rewrite list_lookup_middle in Hj by done. injection Hj as <-.
    rewrite Forall_forall in Hc. apply Hc. by eapply list_elem_of_lookup_2.
Qed.

Lemma events_ordered_same w w' :
  event_store w' = event_store w ->
  currentEventId (storage w') = currentEventId (storage w) ->
  events_ordered w -> events_ordered w'.
Proof.
  intros Hs Hc Hw. unfold events_ordered, event_ids, history in *.
  rewrite Hs, Hc. exact Hw.
Qed.

Lemma events_ordered_initial : events_ordered initial_world.
Proof.
  intros _ r. unfold event_ids, history, event_store. simpl.
  rewrite lookup_empty. simpl. split; [apply strictly_increasing_nil|constructor].
Qed.

Lemma js_incr_below n : js_incr n < MAX_EXACT -> n < MAX_EXACT /\ js_incr n = n + 1.
Proof.
  unfold js_incr. destruct (n <? MAX_EXACT) eqn:E; [|lia].
  apply Z.ltb_lt in E. lia.
Qed.

Lemma createSseEvent_ordered insertEvent :
  preserves events_ordered (createSseEvent clock insertEvent).
Proof.
  intros w Hw Hlt r.
  assert (Hc : currentEventId (storage
            (world_of (createSseEvent clock insertEvent w)))
          = js_incr (currentEventId (storage w))) by reflexivity.
  rewrite Hc in *. apply js_incr_below in Hlt as [Hlt Hinc].
  destruct (Hw Hlt r) as [Hsorted Hbelow].
  unfold event_ids in *. rewrite history_after_createSseEvent, Hinc.
  destruct (decide (ins_requestId insertEvent = r)).
  - rewrite fmap_app. simpl. split.
    + by apply strictly_increasing_snoc.
    + apply Forall_app. split.
      * eapply Forall_impl; [exact Hbelow|]. simpl. intros; lia.
      * repeat constructor. lia.
  - split; [done|]. eapply Forall_impl; [exact Hbelow|]. simpl. intros; lia.
Qed.
End EventStore.

(** ** Storage invariants hold in every reachable world *)

Create HintDb preserve.

Ltac preserves_step :=
  match goal with
  | |- preserves _ (bind _ _) => apply preserves_bind; [|intros ?]
  | |- preserves _ (try_catch _ _) => apply preserves_try_catch; [|intros ?]
  | |- preserves _ (ret _) => apply preserves_ret
  | |- preserves _ (throw _) => apply preserves_throw
  | |- preserves _ get_world => apply preserves_get_world
  | |- preserves _ (when _ _) => apply preserves_when
  | |- preserves _ (for_each _ _) => apply preserves_for_each; intros ?
  | |- preserves _ (match ?x with _ => _ end) => destruct x
  end.

Section SessionInvariants.
Context (clock : nat -> Z) (toFixed1 : Z -> string).
Context (P : World -> Prop) (HP : session_invariant clock P).

Lemma Date_now_preserves : preserves P (Date_now clock).
Proof. intros w Hw. simpl. by apply (inv_ticks _ _ HP). Qed.

Lemma write_preserves h c : preserves P (write h c).
Proof.
  intros w Hw. unfold write. destruct (failing (stream_of h w)); simpl; [done|].
  by apply (inv_heap _ _ HP).
Qed.

Lemma end_stream_preserves h : preserves P (end_stream h).
Proof. intros w Hw. simpl. by apply (inv_heap _ _ HP). Qed.

Lemma set_failing_preserves h b : preserves P (set_failing h b).
Proof. intros w Hw. simpl. by apply (inv_heap _ _ HP). Qed.

Lemma set_clients_preserves f :
  preserves P (modify (fun w => set_clients (f w) w)).
Proof. apply preserves_modify. intros w Hw. by apply (inv_clients _ _ HP). Qed.

Local Hint Resolve Date_now_preserves write_preserves end_stream_preserves
  set_failing_preserves set_clients_preserves : preserve.
Local Hint Extern 1 (preserves _ (createSseEvent _ _)) =>
  apply (inv_createSseEvent _ _ HP) : preserve.

Ltac preserves_auto :=
  repeat first [ preserves_step | solve [eauto with preserve] ].

Lemma removeClient_preserves clientId : preserves P (removeClient clientId).
Proof. unfold removeClient. preserves_auto. Qed.
Local Hint Resolve removeClient_preserves : preserve.

Lemma sendEvent_preserves clientId eventType message requestId_ data :
  preserves P (sendEvent clock clientId eventType message requestId_ data).
Proof. unfold sendEvent. preserves_auto. Qed.
Local Hint Resolve sendEvent_preserves : preserve.

Lemma addClient_preserves clientId res l :
  preserves P (addClient clock clientId res l).
Proof. unfold addClient. preserves_auto. Qed.

Lemma broadcast_preserves eventType message requestId_ data :
  preserves P (broadcast clock eventType message requestId_ data).
Proof. unfold broadcast. preserves_auto. Qed.

Lemma heartbeat_preserves clientId res : preserves P (heartbeat clientId res).
Proof. unfold heartbeat. preserves_auto. Qed.

Lemma generateChart_begin_preserves config requestId_ clientId :
  preserves P (generateChart_begin clock config requestId_ clientId).
Proof. unfold generateChart_begin. preserves_auto. Qed.

Lemma generateChart_finish_preserves config requestId_ clientId startTime outcome :
  preserves P (generateChart_finish clock toFixed1 config requestId_ clientId
                                    startTime outcome).
Proof. unfold generateChart_finish. preserves_auto. Qed.

End SessionInvariants.

Section StorageInvariants.
Context (clock : nat -> Z) (toFixed1 : Z -> string).
Context (P : World -> Prop) (HP : storage_invariant clock P).

Local Hint Extern 1 (preserves _ (createChartRequest _ _)) =>
  apply (inv_createChartRequest _ _ HP) : preserve.
Local Hint Extern 1 (preserves _ (updateChartRequest _ _)) =>
  apply (inv_updateChartRequest _ _ HP) : preserve.
Local Hint Extern 1 (preserves _ (createSseEvent _ _)) =>
  apply (inv_createSseEvent _ _ (inv_session _ _ HP)) : preserve.
Local Hint Extern 1 (preserves _ (Date_now _)) =>
  eapply Date_now_preserves; apply (inv_session _ _ HP) : preserve.
Local Hint Extern 1 (preserves _ (removeClient _)) =>
  eapply removeClient_preserves; apply (inv_session _ _ HP) : preserve.
Local Hint Extern 1 (preserves _ (set_failing _ _)) =>
  eapply set_failing_preserves; apply (inv_session _ _ HP) : preserve.
Local Hint Extern 1 (preserves _ (sendEvent _ _ _ _ _ _)) =>
  eapply sendEvent_preserves; apply (inv_session _ _ HP) : preserve.
Local Hint Extern 1 (preserves _ (addClient _ _ _ _)) =>
  eapply addClient_preserves; apply (inv_session _ _ HP) : preserve.
Local Hint Extern 1 (preserves _ (broadcast _ _ _ _ _)) =>
  eapply broadcast_preserves; apply (inv_session _ _ HP) : preserve.
Local Hint Extern 1 (preserves _ (heartbeat _ _)) =>
  eapply heartbeat_preserves; apply (inv_session _ _ HP) : preserve.
Local Hint Extern 1 (preserves _ (generateChart_begin _ _ _ _)) =>
  eapply generateChart_begin_preserves; apply (inv_session _ _ HP) : preserve.
Local Hint Extern 1 (preserves _ (generateChart_finish _ _ _ _ _ _ _)) =>
  eapply generateChart_finish_preserves; apply (inv_session _ _ HP)
  : preserve.

Ltac preserves_auto :=
  repeat first [ preserves_step | solve [eauto with preserve] ].

Lemma generate_handler_preserves body clientId :
  preserves P (generate_handler clock body clientId).
Proof.
  unfold generate_handler, generate_create_and_announce,
    generate_mark_processing.
  preserves_auto.
Qed.

Lemma generate_settle_preserves fl outcome :
  preserves P (generate_settle clock toFixed1 fl outcome).
Proof. unfold generate_settle, generate_record_result. preserves_auto. Qed.

Local Hint Resolve generate_handler_preserves generate_settle_preserves
  : preserve.

Lemma exec_call_preserves c : preserves P (exec_call clock toFixed1 c).
Proof. destruct c; simpl; unfold on_close; preserves_auto. Qed.

Lemma reachable_invariant w :
  P initial_world -> reachable clock toFixed1 w -> P w.
Proof.
  intros Hinit Hreach. induction Hreach as [|w c _ IH]; [done|].
  by apply exec_call_preserves.
Qed.
End StorageInvariants.

Section EventOrdering.
Context (clock : nat -> Z) (toFixed1 : Z -> string).

Lemma reachable_run_calls calls w :
  reachable clock toFixed1 w ->
  reachable clock toFixed1 (run_calls clock toFixed1 calls w).
Proof.
  revert w. induction calls as [|c calls IH]; intros w Hw; simpl; [done|].
  apply IH. by constructor.
Qed.

Lemma events_ordered_is_storage_invariant :
  storage_invariant clock events_ordered.
Proof.
  split; [split|..].
  - intros w n Hw. exact Hw.
  - intros w h Hw. exact Hw.
  - intros w c Hw. exact Hw.
  - apply createSseEvent_ordered.
  - intros config w Hw.
    eapply events_ordered_same; [..|exact Hw];
      apply (createChartRequest_events clock).
  - intros r u w Hw.
    eapply events_ordered_same; [..|exact Hw]; apply updateChartRequest_events.
Qed.

(** C8. In every reachable world whose event counter is still in the range
    where [currentEventId++] is exact (below 2^53), the events that
    [getSseEvents(requestId)] returns carry strictly increasing sequence ids,
    in the order in which they were appended. *)
Theorem event_ids_strictly_increasing w requestId_ :
  reachable clock toFixed1 w ->
  currentEventId (storage w) < MAX_EXACT ->
  exists events,
    getSseEvents requestId_ w = Ret events w /\
    strictly_increasing (ev_id <$> events).
Proof.
  intros Hreach Hlt. exists (history requestId_ w). split; [reflexivity|].
  pose proof (reachable_invariant clock toFixed1 events_ordered
                events_ordered_is_storage_invariant w
                events_ordered_initial Hreach) as Hinv.
  by destruct (Hinv Hlt requestId_).
Qed.
End EventOrdering.

Lemma event_ids_strictly_increasing_witness :
  exists events,
    getSseEvents "req_1001_1"
      (run_calls clock0 toFixed0 calls_one_request initial_world)
    = Ret events
        (run_calls clock0 toFixed0 calls_one_request initial_world) /\
    length events = 3%nat /\
    strictly_increasing (ev_id <$> events).
Proof.
  destruct (event_ids_strictly_increasing clock0 toFixed0
              (run_calls clock0 toFixed0 calls_one_request initial_world)
              "req_1001_1") as (events & Hget & Hinc).
  - apply reachable_run_calls. constructor.
  - vm_compute. reflexivity.
  - exists events. split; [exact Hget|]. split; [|exact Hinc].
    vm_compute in Hget. injection Hget as <-. reflexivity.
Defined.

(** ** Recent requests *)

Section Recent.

Lemma sort_insert_perm {A} (cmp : A -> A -> Z) x l :
  sort_insert cmp x l ≡ₚ x :: l.
Proof.
  induction l as [|y l IH]; simpl; [done|].
  destruct (cmp x y <=? 0); [done|].
  rewrite IH. apply perm_swap.
Qed.

Lemma js_sort_perm {A} (cmp : A -> A -> Z) l : js_sort cmp l ≡ₚ l.
Proof.
  induction l as [|x l IH]; simpl; [done|].
  rewrite sort_insert_perm. by rewrite IH.
Qed.

Lemma sort_insert_sorted x l :
  StronglySorted newer_or_equal l ->
  StronglySorted newer_or_equal (sort_insert newest_first x l).
Proof.
  induction 1 as [|y l Hl IH Hy]; simpl.
  - repeat constructor.
  - unfold newest_first at 1.
    destruct (createdAt y - createdAt x <=? 0) eqn:E.
    + apply Z.leb_le in E. constructor; [by constructor|].
      constructor; [unfold newer_or_equal; lia|].
      eapply Forall_impl; [exact Hy|]. unfold newer_or_equal. intros; lia.
    + apply Z.leb_gt in E. constructor; [done|].
      rewrite sort_insert_perm. constructor; [|done].
      unfold newer_or_equal. lia.
Qed.

Lemma js_sort_sorted l : StronglySorted newer_or_equal (js_sort newest_first l).
Proof.
  induction l as [|x l IH]; simpl; [constructor|]. by apply sort_insert_sorted.
Qed.

Lemma sort_insert_stable t x l :
  filter (created_at t) (sort_insert newest_first x l)
  = filter (created_at t) (x :: l).
Proof.
  induction l as [|y l IH]; simpl; [done|].
  unfold newest_first at 1.
  destruct (createdAt y - createdAt x <=? 0) eqn:E; [done|].
  apply Z.leb_gt in E.
  rewrite (filter_cons _ y), IH, !(filter_cons _ x), (filter_cons _ y).
  unfold created_at.
  destruct (decide (createdAt y = t)), (decide (createdAt x = t));
    try reflexivity; lia.
Qed.

Lemma js_sort_stable t l :
  filter (created_at t) (js_sort newest_first l) = filter (created_at t) l.
Proof.
  induction l as [|x l IH]; simpl; [done|].
  rewrite sort_insert_stable, !filter_cons, IH. done.
Qed.

Lemma sort_insert_oldest x l :
  Forall (older x) l -> sort_insert newest_first x l = (l ++ [x])%list.
Proof.
  induction 1 as [|y l Hy _ IH]; simpl; [done|].
  unfold older in *. unfold newest_first at 1.
  destruct (createdAt y - createdAt x <=? 0) eqn:E.
  - apply Z.leb_le in E. lia.
  - by rewrite IH.
Qed.

Lemma js_sort_increasing l :
  StronglySorted older l -> js_sort newest_first l = reverse l.
Proof.
  induction 1 as [|x l _ IH Hx]; simpl; [done|].
  rewrite IH, reverse_cons. apply sort_insert_oldest.
  by rewrite Forall_reverse.
Qed.

Lemma filter_created_at_nil l :
  (forall t, filter (created_at t) l = []) -> l = [].
Proof.
  destruct l as [|x l]; [done|]. intros H. specialize (H (createdAt x)).
  rewrite filter_cons_True in H by done. discriminate.
Qed.

Lemma sorted_head_newest x l t :
  StronglySorted newer_or_equal (x :: l) -> createdAt x < t ->
  filter (created_at t) (x :: l) = [].
Proof.
  intros Hs Hlt. apply StronglySorted_inv in Hs as [_ Hx].
  rewrite filter_cons_False by (unfold created_at; lia).
  induction l as [|y l IH]; [done|].
  apply Forall_cons in Hx as [Hy Hx]. unfold newer_or_equal in Hy.
  rewrite filter_cons_False by (unfold created_at; lia). by apply IH.
Qed.

(** A stable sort has one possible result: two arrangements that are both
    newest first and both keep, for each creation time, the requests created
    then in their original order, are the same list. So the result of
    [js_sort newest_first] is the result of any conforming
    [Array.prototype.sort]. *)
Lemma stable_sort_unique l1 l2 :
  StronglySorted newer_or_equal l1 ->
  StronglySorted newer_or_equal l2 ->
  (forall t, filter (created_at t) l1 = filter (created_at t) l2) ->
  l1 = l2.
Proof.
  revert l2. induction l1 as [|x l1 IH]; intros l2 Hs1 Hs2 Hf.
  - symmetry. apply filter_created_at_nil. intros t. by rewrite <- Hf.
  - destruct l2 as [|y l2].
    { pose proof (filter_created_at_nil (x :: l1) Hf). discriminate. }
    assert (Hkey : createdAt x = createdAt y).
    { destruct (Z.lt_trichotomy (createdAt x) (createdAt y)) as [Hlt|[Heq|Hgt]];
        [|done|].
      - pose proof (Hf (createdAt y)) as H.
        rewrite (sorted_head_newest x l1) in H by done.
        rewrite filter_cons_True in H by done. discriminate.
      - pose proof (Hf (createdAt x)) as H.
        rewrite (sorted_head_newest y l2) in H by (done || lia).
        rewrite filter_cons_True in H by done. discriminate. }
    pose proof (Hf (createdAt x)) as Hhead.
    rewrite filter_cons_True in Hhead by done.
    rewrite filter_cons_True in Hhead by (unfold created_at; lia).
    injection Hhead as -> Htail0. f_equal.
    apply StronglySorted_inv in Hs1 as [Hs1 _].
    apply StronglySorted_inv in Hs2 as [Hs2 _].
    apply IH; [done|done|]. intros t. specialize (Hf t).
    rewrite !filter_cons in Hf. destruct (decide (created_at t y)); [|done].
    by injection Hf.
Qed.

Lemma length_slice0 {A} limit (l : list A) :
  Z.of_nat (length (slice0 limit l))
  = if limit <? 0 then Z.max (Z.of_nat (length l) + limit) 0
    else Z.min limit (Z.of_nat (length l)).
Proof.
  unfold slice0, slice_end. rewrite length_take.
  destruct (limit <? 0) eqn:E; [apply Z.ltb_lt in E|apply Z.ltb_ge in E]; lia.
Qed.

(** C6 (as stated) fails: three requests created within one millisecond tie
    on [createdAt], the stable sort keeps them in insertion order, and
    [listRecent(2)] is [[R1, R2]], not [[R3, R2]]. *)
Lemma scenario_D_fails_on_ties :
  ~ scenario_D clock_frozen config0 config0 config0.
Proof. unfold scenario_D. vm_compute. discriminate. Qed.

(** C6 (amended). [getRecentChartRequests(limit)] never throws and leaves the
    world alone; it returns a prefix of the ledger's records rearranged
    newest first by [createdAt], where records with the same [createdAt]
    keep their insertion order (the earlier-created one first). For
    [limit >= 0] the prefix has [min(limit, size)] records (a negative
    [limit] drops that many from the end instead). In particular, three
    records R1, R2, R3 with strictly increasing creation times give
    [[R3, R2]] for limit 2. *)
Theorem getRecentChartRequests_newest_first_stable w limit :
  exists sorted,
    getRecentChartRequests limit w = Ret (slice0 limit sorted) w /\
    slice0 limit sorted `prefix_of` sorted /\
    sorted ≡ₚ JsMap.values (ledger w) /\
    StronglySorted newer_or_equal sorted /\
    (forall t, filter (created_at t) sorted
               = filter (created_at t) (JsMap.values (ledger w))) /\
    Z.of_nat (length (slice0 limit sorted))
      = (if limit <? 0 then Z.max (JsMap.size (ledger w) + limit) 0
         else Z.min limit (JsMap.size (ledger w))) /\
    (forall R1 R2 R3,
        JsMap.values (ledger w) = [R1; R2; R3] ->
        createdAt R1 < createdAt R2 < createdAt R3 ->
        slice0 2 sorted = [R3; R2]).
Proof.
  exists (js_sort newest_first (JsMap.values (ledger w))).
  split_and!.
  - reflexivity.
  - apply prefix_take.
  - apply js_sort_perm.
  - apply js_sort_sorted.
  - intros t. apply js_sort_stable.
  - rewrite length_slice0.
    rewrite (Permutation_length (js_sort_perm _ _)).
    unfold JsMap.size, JsMap.values. by rewrite length_fmap.
  - intros R1 R2 R3 Hv [H12 H23]. rewrite Hv, js_sort_increasing.
    + reflexivity.
    + repeat constructor; unfold older; lia.
Qed.
End Recent.

(** ** The session registry and the broadcaster *)

Section Sessions.
Context (clock : nat -> Z).

Lemma stream_of_push h cs w :
  stream_of h (push_chunks h cs w) =
  {| chunks := chunks (stream_of h w) ++ cs; ended := ended (stream_of h w);
     failing := failing (stream_of h w) |}.
Proof. unfold stream_of, push_chunks. simpl. by rewrite lookup_insert_eq. Qed.

Lemma stream_of_push_ne h h' cs w :
  h <> h' -> stream_of h' (push_chunks h cs w) = stream_of h' w.
Proof.
  intros Hne. unfold stream_of, push_chunks. simpl.
  by rewrite lookup_insert_ne.
Qed.

Lemma push_chunks_push h cs1 cs2 w :
  push_chunks h cs2 (push_chunks h cs1 w) = push_chunks h (cs1 ++ cs2) w.
Proof.
  unfold push_chunks at 1. rewrite stream_of_push. simpl.
  unfold push_chunks. simpl. rewrite insert_insert_eq.
  by rewrite <- (assoc_L (++)).
Qed.

Lemma write_run h c w :
  write h c w = if failing (stream_of h w) then Throw (JsError "write failed") w
                else Ret tt (push_chunks h [c] w).
Proof. reflexivity. Qed.

Lemma removeClient_run clientId w :
  removeClient clientId w =
  match JsMap.get clientId (clients w) with
  | Some client =>
      Ret tt (set_clients (JsMap.delete clientId (clients w))
                          (close_stream (response client) w))
  | None => Ret tt w
  end.
Proof.
  unfold removeClient, bind, get_world.
  destruct (JsMap.get clientId (clients w)); reflexivity.
Qed.

Lemma sendEvent_run clientId eventType message requestId_ data w :
  sendEvent clock clientId eventType message requestId_ data w =
  match JsMap.get clientId (clients w) with
  | None => Ret tt w
  | Some client =>
      let w1 := set_ticks (S (ticks w)) w in
      if failing (stream_of (response client) w)
      then removeClient clientId w1
      else
        let w2 := push_chunks (response client)
                    (frames eventType message requestId_ (clock (ticks w)) data)
                    w1 in
        if decide (requestId_ <> "system")
        then Ret tt (world_of (createSseEvent clock
                                 {| ins_requestId := requestId_;
                                    ins_eventType := toUpperCase eventType;
                                    ins_message := message |} w2))
        else Ret tt w2
  end.
Proof.
  unfold sendEvent, bind at 1, get_world.
  destruct (JsMap.get clientId (clients w)) as [client|]; [|reflexivity].
  unfold bind at 1, Date_now, try_catch, bind at 1. rewrite write_run.
  change (stream_of (response client) (set_ticks (S (ticks w)) w))
    with (stream_of (response client) w).
  destruct (failing (stream_of (response client) w)) eqn:Hf; [reflexivity|].
  cbv zeta. unfold bind at 1. rewrite write_run, stream_of_push. simpl failing.
  change (stream_of (response client) (set_ticks (S (ticks w)) w))
    with (stream_of (response client) w).
  rewrite Hf, push_chunks_push.
  destruct (decide (requestId_ <> "system")); reflexivity.
Qed.
End Sessions.

Section Deregistration.

(** C9. [removeClient] is total and idempotent: it never throws; a second
    call with the same clientId changes nothing and returns normally; a call
    with a clientId that is not registered changes nothing and returns
    normally; so [getClientCount] after a repeated call equals its value
    after the first. *)
Theorem removeClient_idempotent_total clientId w :
  throws (removeClient clientId w) = false /\
  (let w1 := world_of (removeClient clientId w) in
   removeClient clientId w1 = Ret tt w1 /\
   getClientCount (world_of (removeClient clientId w1)) = getClientCount w1) /\
  (JsMap.get clientId (clients w) = None -> removeClient clientId w = Ret tt w).
Proof.
  assert (Hsecond : removeClient clientId (world_of (removeClient clientId w))
                    = Ret tt (world_of (removeClient clientId w))).
  { rewrite (removeClient_run clientId w).
    destruct (JsMap.get clientId (clients w)) as [client|] eqn:Hget; simpl.
    - rewrite removeClient_run. simpl. by rewrite JsMapFacts.get_delete_eq.
    - by rewrite removeClient_run, Hget. }
  split; [|split].
  - rewrite removeClient_run. by destruct (JsMap.get clientId (clients w)).
  - cbv zeta. split; [exact Hsecond|by rewrite Hsecond].
  - intros Hnone. by rewrite removeClient_run, Hnone.
Qed.
End Deregistration.

Section Durability.
Context (clock : nat -> Z).

(** C1 (as stated) fails: with no session registered, [sendEvent] for the
    request of [world_completed] returns at its first guard and stores
    nothing. *)
Lemma event_lost_without_session :
  ~ stored_regardless_of_sessions clock0 "c1" "request"
      "Chart generation started for NASDAQ:AAPL" "req_1000_1" None
      world_completed.
Proof.
  intros H. destruct H as (e & He & _); [discriminate|].
  vm_compute in He. discriminate.
Qed.

(** A whole request submitted with the header of a client that has no
    session: the request completes, and no event of it can be retrieved. *)
Example lifecycle_without_session_stores_nothing :
  let w :=
    world_of (generate_lifecycle clock0 toFixed0 (Some body0) (Some "c9")
                (FetchJson (Some "https://charts.example/1.png") None)
                initial_world) in
  ledger_status "req_1000_1" w = Some "completed" /\
  getSseEvents "req_1000_1" w = Ret [] w.
Proof. split; vm_compute; reflexivity. Qed.

(** C1 (amended). For a requestId other than ['system'], [sendEvent] appends
    the event to the Event Store exactly when the target client has a
    registered session whose stream accepts the two writes: then the history
    of the request grows by that one event, at its end, and the frames go to
    the stream. With no registered session the call changes nothing (nothing
    is written, nothing is stored); when the write throws, nothing is stored
    and the session is removed. *)
Theorem sendEvent_stores_iff_delivered
    clientId eventType message requestId_ data w :
  requestId_ <> "system" ->
  let r := sendEvent clock clientId eventType message requestId_ data w in
  match JsMap.get clientId (clients w) with
  | None => r = Ret tt w
  | Some client =>
      if failing (stream_of (response client) w)
      then history requestId_ (world_of r) = history requestId_ w /\
           JsMap.get clientId (clients (world_of r)) = None
      else
        history requestId_ (world_of r) =
          (history requestId_ w ++
           [{| ev_id := currentEventId (storage w);
               ev_requestId := requestId_;
               ev_eventType := toUpperCase eventType;
               ev_message := message;
               ev_timestamp := clock (S (ticks w)) |}])%list /\
        chunks (stream_of (response client) (world_of r)) =
          (chunks (stream_of (response client) w) ++
           frames eventType message requestId_ (clock (ticks w)) data)%list
  end.
Proof.
  intros Hsys r. subst r. rewrite sendEvent_run.
  destruct (JsMap.get clientId (clients w)) as [client|] eqn:Hget; [|done].
  cbv zeta. destruct (failing (stream_of (response client) w)) eqn:Hf.
  - rewrite removeClient_run. simpl clients. rewrite Hget. simpl. split.
    + reflexivity.
    + apply JsMapFacts.get_delete_eq.
  - rewrite decide_True by done. rewrite world_of_Ret. split.
    + rewrite history_after_createSseEvent. simpl. by rewrite decide_True.
    + rewrite createSseEvent_run. cbv zeta.
      change (chunks (stream_of (response client)
                (push_chunks (response client)
                   (frames eventType message requestId_ (clock (ticks w)) data)
                   (set_ticks (S (ticks w)) w)))
              = (chunks (stream_of (response client) w) ++
                 frames eventType message requestId_ (clock (ticks w)) data)%list).
      by rewrite stream_of_push.
Qed.
End Durability.

Lemma sendEvent_stores_iff_delivered_witness :
  history "req_1000_1"
    (world_of (sendEvent clock0 "c1" "progress" "Preparing chart request..."
                 "req_1000_1" None world_one_session))
  = [{| ev_id := 1; ev_requestId := "req_1000_1"; ev_eventType := "PROGRESS";
        ev_message := "Preparing chart request..."; ev_timestamp := 1002 |}].
Proof.
  assert (Hsys : "req_1000_1" <> "system") by discriminate.
  pose proof (sendEvent_stores_iff_delivered clock0 "c1" "progress"
                "Preparing chart request..." "req_1000_1" None
                world_one_session Hsys) as H.
  simpl in H. destruct H as [H _]. rewrite H. reflexivity.
Defined.

Section Registration.
Context (clock : nat -> Z).

Lemma delete_set {V} k (v : V) m :
  JsMap.delete k (JsMap.set k v m) = JsMap.delete k m.
Proof.
  induction m as [|[k' v'] m IH]; simpl.
  - by rewrite decide_True.
  - destruct (decide (k' = k)) as [->|Hne]; simpl.
    + by rewrite decide_True.
    + rewrite decide_False by done. by rewrite IH.
Qed.

Lemma delete_delete {V} k (m : JsMap.t V) :
  JsMap.delete k (JsMap.delete k m) = JsMap.delete k m.
Proof.
  apply JsMapFacts.delete_absent, JsMapFacts.get_delete_eq.
Qed.

Lemma size_delete_present {V} k (m : JsMap.t V) :
  JsMap.wf m -> is_Some (JsMap.get k m) ->
  JsMap.size m = JsMap.size (JsMap.delete k m) + 1.
Proof.
  unfold JsMap.wf, JsMap.keys, JsMap.size.
  induction m as [|[k' v'] m IH]; csimpl.
  - by intros _ [? ?].
  - intros [Hnotin Hnd]%NoDup_cons. destruct (decide (k' = k)) as [->|Hne].
    + intros _. rewrite JsMapFacts.delete_absent; [lia|].
      by apply JsMapFacts.get_None_keys.
    + intros Hsome. csimpl. specialize (IH Hnd Hsome). lia.
Qed.

Lemma elem_of_get {V} k (v : V) m :
  JsMap.wf m -> (k, v) ∈ m <-> JsMap.get k m = Some v.
Proof.
  unfold JsMap.wf, JsMap.keys.
  induction m as [|[k' v'] m IH]; csimpl.
  - intros _. split; [by intros ?%elem_of_nil|done].
  - intros [Hnotin Hnd]%NoDup_cons. rewrite elem_of_cons, (IH Hnd).
    destruct (decide (k' = k)) as [->|Hne].
    + split.
      * intros [[= ->]|Hget]; [done|].
        exfalso. apply Hnotin. apply (JsMapFacts.get_Some_keys k m). eauto.
      * intros [= ->]. by left.
    + split; [|by right]. intros [[= ? ?]|?]; [congruence|done].
Qed.

Lemma addClient_run clientId res l w :
  addClient clock clientId res l w =
  let client := {| client_id := clientId; response := res; lastEventId := l |} in
  let registered := JsMap.set clientId client (clients w) in
  let w0 := set_ticks (S (ticks w)) (set_clients registered w) in
  if failing (stream_of res w)
  then Ret tt (set_clients (JsMap.delete clientId registered)
                           (close_stream res w0))
  else Ret tt (push_chunks res
                 (frames "connection" "SSE connection established" "system"
                         (clock (ticks w)) None) w0).
Proof.
  unfold addClient, bind at 1, modify. rewrite sendEvent_run.
  simpl clients. rewrite JsMapFacts.get_set_eq. cbv zeta. simpl response.
  change (stream_of res (set_clients ?c w)) with (stream_of res w).
  destruct (failing (stream_of res w)) eqn:Hf.
  - rewrite removeClient_run. simpl clients.
    by rewrite JsMapFacts.get_set_eq.
  - by rewrite decide_False by (intros H; by apply H).
Qed.

Lemma addClient_failing clientId res l h w :
  failing (stream_of h (world_of (addClient clock clientId res l w)))
  = failing (stream_of h w).
Proof.
  rewrite addClient_run. cbv zeta.
  destruct (failing (stream_of res w)) eqn:Hf; simpl world_of.
  - unfold stream_of, close_stream. simpl.
    destruct (decide (res = h)) as [->|Hne].
    + rewrite lookup_insert_eq. reflexivity.
    + by rewrite lookup_insert_ne.
  - destruct (decide (res = h)) as [->|Hne].
    + rewrite stream_of_push. reflexivity.
    + by rewrite stream_of_push_ne.
Qed.

Lemma addClient_wf clientId res l :
  preserves (fun w => JsMap.wf (clients w)) (addClient clock clientId res l).
Proof.
  intros w Hwf. rewrite addClient_run. cbv zeta.
  destruct (failing (stream_of res w)); simpl.
  - by apply JsMapFacts.wf_delete, JsMapFacts.wf_set.
  - by apply JsMapFacts.wf_set.
Qed.

Lemma addClient_clients_deleted clientId res l w :
  JsMap.delete clientId (clients (world_of (addClient clock clientId res l w)))
  = JsMap.delete clientId (clients w).
Proof.
  rewrite addClient_run. cbv zeta.
  destruct (failing (stream_of res w)); simpl.
  - by rewrite delete_delete, delete_set.
  - by rewrite delete_set.
Qed.

(** C5. Starting from a registry that holds each clientId once, every run of
    [addClient] calls leaves a registry that holds each clientId once.
    Registering the same clientId twice, the second time on a stream that
    accepts the initial write, leaves exactly one session under that
    clientId, the new one; [getClientCount] counts it once (the other
    sessions plus one); and the earlier stream is no longer registered under
    that clientId: it is orphaned, and the second registration does not
    close it. *)
Theorem addClient_one_session_per_client w regs clientId res1 l1 res2 l2 :
  JsMap.wf (clients w) ->
  JsMap.wf (clients (world_of (addClients clock regs w))) /\
  (failing (stream_of res2 w) = false ->
   let w1 := world_of (addClient clock clientId res1 l1 w) in
   let w2 := world_of (addClient clock clientId res2 l2 w1) in
   JsMap.wf (clients w2) /\
   (forall client,
      (clientId, client) ∈ clients w2 <->
      client = {| client_id := clientId; response := res2; lastEventId := l2 |}) /\
   getClientCount w2 =
     Ret (JsMap.size (JsMap.delete clientId (clients w)) + 1) w2 /\
   ended (stream_of res1 w2) = ended (stream_of res1 w1)).
Proof.
  intros Hwf. split.
  - unfold addClients.
    by apply (preserves_for_each (fun w => JsMap.wf (clients w)));
      [intros r; apply addClient_wf|].
  - intros Hok w1 w2.
    assert (Hwf1 : JsMap.wf (clients w1)) by by apply addClient_wf.
    assert (Hwf2 : JsMap.wf (clients w2)) by by apply addClient_wf.
    assert (Hok1 : failing (stream_of res2 w1) = false)
      by (subst w1; by rewrite addClient_failing).
    assert (Hw2 : w2 = push_chunks res2
              (frames "connection" "SSE connection established" "system"
                      (clock (ticks w1)) None)
              (set_ticks (S (ticks w1))
                 (set_clients
                    (JsMap.set clientId
                       {| client_id := clientId; response := res2;
                          lastEventId := l2 |} (clients w1)) w1))).
    { subst w2. rewrite addClient_run. cbv zeta. by rewrite Hok1. }
    assert (Hget : JsMap.get clientId (clients w2)
                   = Some {| client_id := clientId; response := res2;
                             lastEventId := l2 |}).
    { rewrite Hw2. simpl. apply JsMapFacts.get_set_eq. }
    split_and!.
    + done.
    + intros client. rewrite elem_of_get by done. rewrite Hget.
      split; [by intros [= <-]|by intros ->].
    + unfold getClientCount, bind, get_world, ret. f_equal.
      rewrite (size_delete_present clientId) by (by rewrite ?Hget).
      subst w2 w1. by rewrite !addClient_clients_deleted.
    + rewrite Hw2. destruct (decide (res2 = res1)) as [->|Hne].
      * by rewrite stream_of_push.
      * by rewrite stream_of_push_ne.
Qed.
End Registration.

Lemma addClient_one_session_per_client_witness :
  let w2 := world_of (addClient clock0 "c1" 9%nat None world_one_session) in
  getClientCount w2 = Ret 1 w2 /\
  JsMap.get "c1" (clients w2)
  = Some {| client_id := "c1"; response := 9%nat; lastEventId := None |}.
Proof.
  assert (Hwf : JsMap.wf (clients initial_world)) by apply NoDup_nil_2.
  destruct (addClient_one_session_per_client clock0 initial_world []
              "c1" 7%nat None 9%nat None Hwf) as [_ H].
  destruct (H eq_refl) as (Hwf2 & Hone & Hcount & _).
  split.
  - exact Hcount.
  - apply elem_of_get; [exact Hwf2|]. by apply Hone.
Defined.

Section Broadcast.
Context (clock : nat -> Z).
Context (eventType message requestId_ : string) (data : option JVal).

(** One delivery to a registered session on a writable stream. *)
Lemma sendEvent_delivered clientId client w :
  JsMap.get clientId (clients w) = Some client ->
  failing (stream_of (response client) w) = false ->
  requestId_ <> "system" ->
  exists w' e,
    sendEvent clock clientId eventType message requestId_ data w = Ret tt w' /\
    clients w' = clients w /\
    ledger w' = ledger w /\
    (forall h, failing (stream_of h w') = failing (stream_of h w)) /\
    history requestId_ w' = (history requestId_ w ++ [e])%list /\
    records eventType message requestId_ e /\
    (forall h, chunks (stream_of h w') =
               (chunks (stream_of h w) ++
                if decide (h = response client)
                then frames eventType message requestId_ (clock (ticks w)) data
                else [])%list).
Proof.
  intros Hget Hf Hsys. rewrite sendEvent_run, Hget. cbv zeta.
  rewrite Hf, decide_True by done. eexists _, _.
  split; [reflexivity|]. split; [reflexivity|]. split; [reflexivity|].
  split; [|split; [|split]].
  - intros h. rewrite createSseEvent_run. cbv zeta.
    change (failing (stream_of h
              (push_chunks (response client)
                 (frames eventType message requestId_ (clock (ticks w)) data)
                 (set_ticks (S (ticks w)) w)))
            = failing (stream_of h w)).
    destruct (decide (response client = h)) as [<-|Hne].
    + by rewrite stream_of_push.
    + by rewrite stream_of_push_ne.
  - rewrite history_after_createSseEvent. simpl. rewrite decide_True by done.
    reflexivity.
  - by split_and!.
  - intros h. rewrite createSseEvent_run. cbv zeta.
    change (chunks (stream_of h
              (push_chunks (response client)
                 (frames eventType message requestId_ (clock (ticks w)) data)
                 (set_ticks (S (ticks w)) w)))
            = (chunks (stream_of h w) ++
               if decide (h = response client)
               then frames eventType message requestId_ (clock (ticks w)) data
               else [])%list).
    destruct (decide (h = response client)) as [->|Hne].
    + by rewrite stream_of_push.
    + rewrite stream_of_push_ne by done. by rewrite app_nil_r.
Qed.

Lemma broadcast_loop ks :
  forall w,
    all_writable w ->
    (forall k, k ∈ ks -> is_Some (JsMap.get k (clients w))) ->
    requestId_ <> "system" ->
    exists w' copies,
      for_each (fun k => sendEvent clock k eventType message requestId_ data)
               ks w = Ret tt w' /\
      clients w' = clients w /\
      history requestId_ w' = (history requestId_ w ++ copies)%list /\
      length copies = length ks /\
      Forall (records eventType message requestId_) copies /\
      (forall h, exists written,
          chunks (stream_of h w') = (chunks (stream_of h w) ++ written)%list /\
          forall k client,
            k ∈ ks -> JsMap.get k (clients w) = Some client ->
            response client = h ->
            exists t, ChunkData {| ed_type := eventType; ed_message := message;
                                   ed_requestId := requestId_;
                                   ed_timestamp := t; ed_data := data |}
                      ∈ written).
Proof.
  induction ks as [|k ks IH]; intros w Hok Hreg Hsys.
  - exists w, []. simpl. split_and!; try done.
    + by rewrite app_nil_r.
    + intros h. exists []. split; [by rewrite app_nil_r|].
      by intros k client ?%elem_of_nil.
  - destruct (Hreg k) as [client Hget]; [by left|].
    destruct (sendEvent_delivered k client w Hget (Hok _ _ Hget) Hsys)
      as (w1 & e & Hrun & Hclients & _ & Hfail & Hhist & Hrec & Hchunks).
    destruct (IH w1) as (w' & copies & Hrun' & Hclients' & Hhist' & Hlen
                         & Hrecs & Hchunks').
    { intros c cl Hc. rewrite Hfail. rewrite Hclients in Hc. by eapply Hok. }
    { intros k' Hk'. rewrite Hclients. apply Hreg. by right. }
    { done. }
    exists w', (e :: copies). simpl. unfold bind. rewrite Hrun.
    split_and!.
    + exact Hrun'.
    + by rewrite Hclients'.
    + rewrite Hhist', Hhist. by rewrite <- (assoc_L (++)).
    + simpl. by rewrite Hlen.
    + by constructor.
    + intros h. destruct (Hchunks' h) as (written & Hw & Hin).
      eexists. split.
      { rewrite Hw, Hchunks. by rewrite <- (assoc_L (++)). }
      intros k' client' Hk' Hget' Hresp.
      apply elem_of_cons in Hk' as [->|Hk'].
      * rewrite Hget in Hget'. injection Hget' as <-.
        rewrite decide_True by done. exists (clock (ticks w)).
        apply elem_of_app. left. unfold frames. set_solver.
      * destruct (Hin k' client' Hk') as [t Ht]; [by rewrite Hclients|done|].
        exists t. apply elem_of_app. by right.
Qed.

(** C4 (amended). A broadcast for a requestId other than ['system'], while
    every registered session's stream accepts writes, never throws, writes
    the event to the stream of each registered session, and appends one copy
    of it to the Event Store per registered session: n copies for n
    sessions (none when no session is registered). *)
Theorem broadcast_stores_one_copy_per_session w :
  all_writable w ->
  requestId_ <> "system" ->
  let r := broadcast clock eventType message requestId_ data w in
  throws r = false /\
  (exists copies,
      history requestId_ (world_of r) = (history requestId_ w ++ copies)%list /\
      Z.of_nat (length copies) = JsMap.size (clients w) /\
      Forall (records eventType message requestId_) copies) /\
  (forall clientId client,
      JsMap.get clientId (clients w) = Some client ->
      exists written t,
        chunks (stream_of (response client) (world_of r))
        = (chunks (stream_of (response client) w) ++ written)%list /\
        ChunkData {| ed_type := eventType; ed_message := message;
                     ed_requestId := requestId_; ed_timestamp := t;
                     ed_data := data |} ∈ written).
Proof.
  intros Hok Hsys r.
  destruct (broadcast_loop (JsMap.keys (clients w)) w Hok)
    as (w' & copies & Hrun & _ & Hhist & Hlen & Hrecs & Hchunks); [|done|].
  { intros k Hk. by apply JsMapFacts.get_Some_keys. }
  assert (Hr : r = Ret tt w') by exact Hrun.
  rewrite Hr. simpl. split_and!.
  - done.
  - exists copies. split_and!; [done| |done].
    rewrite Hlen. by rewrite JsMapFacts.size_keys.
  - intros clientId client Hget.
    destruct (Hchunks (response client)) as (written & Hw & Hin).
    destruct (Hin clientId client) as [t Ht]; [|done|done|].
    { apply JsMapFacts.get_Some_keys. eauto. }
    by exists written, t.
Qed.
End Broadcast.

(** C4 (as stated) fails: with two sessions registered, one broadcast for a
    request appends two copies of the event to its history. *)
Lemma broadcast_stores_a_copy_per_session :
  ~ broadcast_stores_once clock0 "progress" "Preparing chart request..."
      "req_1000_1" None world_two_sessions.
Proof.
  intros H. unfold broadcast_stores_once in H.
  assert (Hsys : "req_1000_1" <> "system") by discriminate.
  specialize (H Hsys). vm_compute in H. discriminate.
Qed.

Lemma all_writable_two_sessions : all_writable world_two_sessions.
Proof.
  intros clientId client Hget.
  change (clients world_two_sessions)
    with [("c1", {| client_id := "c1"; response := 7%nat; lastEventId := None |});
          ("c2", {| client_id := "c2"; response := 8%nat; lastEventId := None |})]
    in Hget.
  simpl in Hget.
  repeat (case_decide; [injection Hget as <-; reflexivity|]).
  discriminate.
Qed.

Lemma broadcast_stores_one_copy_per_session_witness :
  length (history "req_1000_1"
            (world_of (broadcast clock0 "progress" "Preparing chart request..."
                         "req_1000_1" None world_two_sessions)))
  = 2%nat.
Proof.
  assert (Hsys : "req_1000_1" <> "system") by discriminate.
  destruct (broadcast_stores_one_copy_per_session clock0 "progress"
              "Preparing chart request..." "req_1000_1" None
              world_two_sessions all_writable_two_sessions Hsys)
    as (_ & (copies & Hhist & Hlen & _) & _).
  rewrite Hhist, length_app. change (JsMap.size (clients world_two_sessions))
    with 2 in Hlen.
  change (history "req_1000_1" world_two_sessions) with (@nil SseEvent).
  simpl. lia.
Defined.

(** ** The chart-generation route *)

Ltac never_throws_step :=
  match goal with
  | |- never_throws (bind _ _) => apply never_throws_bind; [|intros ?]
  | |- never_throws (try_catch _ _) => apply never_throws_try_catch; intros ?
  | |- never_throws (ret _) => apply never_throws_ret
  | |- never_throws (when _ _) => apply never_throws_when
  | |- never_throws (match ?x with _ => _ end) => destruct x
  end.

Create HintDb total.

Section Totality.
Context (clock : nat -> Z) (toFixed1 : Z -> string).

Lemma never_throws_returns {A} (m : M A) w :
  never_throws m -> exists a w', m w = Ret a w'.
Proof.
  intros H. specialize (H w). destruct (m w) as [a w'|e w']; [eauto|done].
Qed.

Lemma Date_now_total : never_throws (Date_now clock).
Proof. done. Qed.
Lemma get_world_total : never_throws get_world.
Proof. done. Qed.
Lemma modify_total f : never_throws (modify f).
Proof. done. Qed.
Lemma end_stream_total h : never_throws (end_stream h).
Proof. done. Qed.
Lemma createChartRequest_total config :
  never_throws (createChartRequest clock config).
Proof. done. Qed.
Lemma createSseEvent_total e : never_throws (createSseEvent clock e).
Proof. done. Qed.
Lemma updateChartRequest_total r u : never_throws (updateChartRequest r u).
Proof.
  intros w. rewrite updateChartRequest_run. by destruct (JsMap.get r (ledger w)).
Qed.
Lemma removeClient_total clientId : never_throws (removeClient clientId).
Proof.
  intros w. rewrite removeClient_run.
  by destruct (JsMap.get clientId (clients w)).
Qed.

Local Hint Resolve Date_now_total get_world_total modify_total end_stream_total
  createChartRequest_total createSseEvent_total updateChartRequest_total
  removeClient_total : total.

Ltac total_auto :=
  repeat first [ never_throws_step | solve [eauto with total] ].

Lemma sendEvent_total clientId eventType message requestId_ data :
  never_throws (sendEvent clock clientId eventType message requestId_ data).
Proof. unfold sendEvent. total_auto. Qed.
Local Hint Resolve sendEvent_total : total.

Lemma generate_create_and_announce_total config clientId :
  never_throws (generate_create_and_announce clock config clientId).
Proof. unfold generate_create_and_announce. total_auto. Qed.

Lemma generate_mark_processing_total chartRequest :
  never_throws (generate_mark_processing chartRequest).
Proof. unfold generate_mark_processing. total_auto. Qed.

Lemma generateChart_begin_total config requestId_ clientId :
  never_throws (generateChart_begin clock config requestId_ clientId).
Proof. unfold generateChart_begin. total_auto. Qed.

Lemma generateChart_finish_total config requestId_ clientId startTime outcome :
  never_throws (generateChart_finish clock toFixed1 config requestId_ clientId
                                     startTime outcome).
Proof. unfold generateChart_finish. total_auto. Qed.

Lemma generate_record_result_total requestId_ result :
  never_throws (generate_record_result clock requestId_ result).
Proof. unfold generate_record_result. total_auto. Qed.
End Totality.

Section Route.
Context (clock : nat -> Z) (toFixed1 : Z -> string).

Lemma ledger_is_session_invariant L :
  session_invariant clock (fun w => ledger w = L).
Proof.
  split.
  - intros w n Hw. exact Hw.
  - intros w h Hw. exact Hw.
  - intros w c Hw. exact Hw.
  - intros e w Hw. rewrite createSseEvent_run. exact Hw.
Qed.

Lemma sendEvent_ledger clientId eventType message requestId_ data w :
  ledger (world_of (sendEvent clock clientId eventType message requestId_ data w))
  = ledger w.
Proof.
  by apply (sendEvent_preserves clock _ (ledger_is_session_invariant (ledger w))).
Qed.

Lemma generateChart_begin_ledger config requestId_ clientId w :
  ledger (world_of (generateChart_begin clock config requestId_ clientId w))
  = ledger w.
Proof.
  by apply (generateChart_begin_preserves clock _
              (ledger_is_session_invariant (ledger w))).
Qed.

Lemma generateChart_finish_ledger config requestId_ clientId startTime outcome w :
  ledger (world_of (generateChart_finish clock toFixed1 config requestId_
                      clientId startTime outcome w))
  = ledger w.
Proof.
  by apply (generateChart_finish_preserves clock toFixed1 _
              (ledger_is_session_invariant (ledger w))).
Qed.

Lemma createChartRequest_run config w :
  createChartRequest clock config w =
  let requestId_ := "req_" +:+ pretty (clock (ticks w)) +:+ "_"
                    +:+ pretty (currentChartId (storage w)) in
  let request :=
    {| id := currentChartId (storage w);
       requestId := requestId_;
       symbol := cfg_symbol config;
       interval := cfg_interval config;
       chartType := cfg_chartType config;
       width := cfg_width config;
       height := cfg_height config;
       indicators := Has (cfg_indicators config);
       drawings := Has (cfg_drawings config);
       theme := cfg_theme config;
       showVolume := cfg_showVolume config;
       showGrid := cfg_showGrid config;
       timezone := cfg_timezone config;
       status := "pending";
       chartUrl := Null;
       base64Data := Null;
       errorMessage := Null;
       processingTime := Null;
       createdAt := clock (S (ticks w));
       completedAt := Null |} in
  Ret request
    {| storage :=
         {| chartRequests := JsMap.set requestId_ request (ledger w);
            sseEvents := event_store w;
            currentChartId := js_incr (currentChartId (storage w));
            currentEventId := currentEventId (storage w) |};
       clients := clients w;
       heap := heap w;
       ticks := S (S (ticks w)) |}.
Proof. reflexivity. Qed.

(** The points of [generate_points] are the program points of the route: the
    last one is the world in which the whole lifecycle ends. *)
Lemma generate_lifecycle_ends_at_last_point body config clientId outcome w :
  Zod.chartConfigSchema_parse body = inr config ->
  exists w1 w2 w3 w4,
    generate_points clock toFixed1 config clientId outcome w
    = [w1; w2; w3; w4;
       world_of (generate_lifecycle clock toFixed1 body clientId outcome w)].
Proof.
  intros Hparse.
  destruct (never_throws_returns
              (generate_create_and_announce clock config clientId) w
              (generate_create_and_announce_total clock config clientId))
    as (cr & w1 & H1).
  destruct (never_throws_returns (generate_mark_processing cr) w1
              (generate_mark_processing_total cr)) as ([] & w2 & H2).
  destruct (never_throws_returns
              (generateChart_begin clock config (requestId cr) clientId) w2
              (generateChart_begin_total clock config (requestId cr) clientId))
    as (t & w3 & H3).
  destruct (never_throws_returns
              (generateChart_finish clock toFixed1 config (requestId cr)
                                    clientId t outcome) w3
              (generateChart_finish_total clock toFixed1 config (requestId cr)
                                          clientId t outcome))
    as (res & w4 & H4).
  destruct (never_throws_returns
              (generate_record_result clock (requestId cr) res) w4
              (generate_record_result_total clock (requestId cr) res))
    as ([] & w5 & H5).
  exists w1, w2, w3, w4.
  unfold generate_points. rewrite H1, H2, H3, H4, H5.
  unfold generate_lifecycle, generate_handler, generate_settle.
  unfold bind, try_catch, ret. rewrite Hparse, H1, H2, H3. simpl.
  rewrite H4, H5. reflexivity.
Qed.
End Route.

Section Validation.
Context (clock : nat -> Z) (toFixed1 : Z -> string).

Lemma missing_symbol_is_invalid o :
  Zod.field "symbol" o = None ->
  exists issues,
    Zod.chartConfigSchema_parse (Some (JObj o)) = inl issues /\
    "symbol" ∈ issues.
Proof.
  intros Hmissing. exists (Zod.issues_of o).
  unfold Zod.chartConfigSchema_parse, Zod.config_of, Zod.issues_of,
    Zod.f_symbol.
  rewrite Hmissing. simpl. split; [reflexivity|]. by left.
Qed.

(** C7. When [chartConfigSchema.parse] rejects the body, the handler replies
    at once with the 400 'Invalid request parameters' reply carrying the
    issues, leaves no upstream call in flight, and the world is untouched: no
    [ChartRequest] is created, nothing is written to any stream, nothing is
    stored, and [getRecentChartRequests] answers as before. A body without
    the [symbol] key is such a rejected submission. *)
Theorem invalid_submission_changes_nothing body clientId outcome issues w :
  Zod.chartConfigSchema_parse body = inl issues ->
  generate_handler clock body clientId w = Ret (ReplyInvalid issues, None) w /\
  generate_lifecycle clock toFixed1 body clientId outcome w
    = Ret (ReplyInvalid issues) w /\
  (forall limit,
      getRecentChartRequests limit
        (world_of (generate_lifecycle clock toFixed1 body clientId outcome w))
      = getRecentChartRequests limit w) /\
  (forall o, Zod.field "symbol" o = None ->
             exists issues',
               Zod.chartConfigSchema_parse (Some (JObj o)) = inl issues' /\
               "symbol" ∈ issues').
Proof.
  intros Hparse.
  assert (Hhandler : generate_handler clock body clientId w
                     = Ret (ReplyInvalid issues, None) w).
  { unfold generate_handler, try_catch. by rewrite Hparse. }
  assert (Hlife : generate_lifecycle clock toFixed1 body clientId outcome w
                  = Ret (ReplyInvalid issues) w).
  { unfold generate_lifecycle, bind. by rewrite Hhandler. }
  split_and!; [done|done| |apply missing_symbol_is_invalid].
  intros limit. by rewrite Hlife.
Qed.
End Validation.

Lemma invalid_submission_changes_nothing_witness :
  generate_handler clock0 (Some body_without_symbol) (Some "c1")
    world_one_session
  = Ret (ReplyInvalid ["symbol"], None) world_one_session.
Proof.
  assert (Hparse : Zod.chartConfigSchema_parse (Some body_without_symbol)
                   = inl ["symbol"]) by (vm_compute; reflexivity).
  exact (proj1 (invalid_submission_changes_nothing clock0 toFixed0
                  (Some body_without_symbol) (Some "c1") FetchOtherType
                  ["symbol"] world_one_session Hparse)).
Defined.

Section Sequencing.
Context (clock : nat -> Z) (toFixed1 : Z -> string).

Ltac send_returns :=
  match goal with
  | |- context [sendEvent ?c ?a ?b ?m ?r ?d ?w] =>
      let H := fresh "Hsend" in
      destruct (never_throws_returns (sendEvent c a b m r d) w
                  (sendEvent_total c a b m r d)) as ([] & ? & H);
      rewrite H; clear H
  end.

Lemma generateChart_finish_success config requestId_ clientId startTime outcome w :
  exists result w',
    generateChart_finish clock toFixed1 config requestId_ clientId startTime
                         outcome w = Ret result w' /\
    success result = outcome_succeeds outcome.
Proof.
  unfold generateChart_finish, try_catch, bind, throw, when, ret, Date_now.
  destruct outcome, (truthy clientId); cbv beta iota;
    repeat send_returns; cbv beta iota; eauto.
Qed.

Lemma generate_record_result_status requestId_ result existing w :
  JsMap.get requestId_ (ledger w) = Some existing ->
  ledger_status requestId_
    (world_of (generate_record_result clock requestId_ result w))
  = Some (if success result then "completed" else "failed").
Proof.
  intros Hget. unfold generate_record_result, bind, Date_now, ret.
  destruct (success result); rewrite updateChartRequest_run;
    change (ledger (set_ticks ?n w)) with (ledger w); rewrite Hget;
    unfold ledger_status, ledger; simpl;
    by rewrite JsMapFacts.get_set_eq.
Qed.

Lemma createChartRequest_facts config w :
  exists cr w0,
    createChartRequest clock config w = Ret cr w0 /\
    requestId cr = "req_" +:+ pretty (clock (ticks w)) +:+ "_"
                   +:+ pretty (currentChartId (storage w)) /\
    status cr = "pending" /\
    ledger w0 = JsMap.set (requestId cr) cr (ledger w) /\
    clients w0 = clients w /\
    heap w0 = heap w /\
    ticks w0 = S (S (ticks w)).
Proof.
  eexists _, _. rewrite createChartRequest_run. cbv zeta.
  split_and!; reflexivity.
Qed.

Lemma request_id_not_system stamp n :
  "req_" +:+ stamp +:+ "_" +:+ n <> "system".
Proof. discriminate. Qed.

(** Program order inside the turns of one request. For a request submitted
    for a registered client whose stream accepts writes, the route goes
    through five program points. At the first, the ['request'] event has
    been written to the client's stream while the ledger still shows
    ['pending']; the transition to ['processing'] is the next statement and
    is in place at the second point; and at the last point, where the
    lifecycle ends, the ledger shows ['completed'] when the upstream call
    yielded a chart and ['failed'] otherwise. The first and the fourth point
    lie inside a turn of the event loop: the server handles nothing else
    there. *)
Lemma started_event_then_processing
    body config clientId client outcome w :
  Zod.chartConfigSchema_parse body = inr config ->
  clientId <> "" ->
  JsMap.get clientId (clients w) = Some client ->
  failing (stream_of (response client) w) = false ->
  exists requestId_ w1 w2 w3 w4 w5,
    generate_points clock toFixed1 config (Some clientId) outcome w
      = [w1; w2; w3; w4; w5] /\
    w5 = world_of (generate_lifecycle clock toFixed1 body (Some clientId)
                     outcome w) /\
    chunks (stream_of (response client) w1)
      = (chunks (stream_of (response client) w) ++
         frames "request" ("Chart generation started for " +:+ cfg_symbol config)
                requestId_ (clock (S (S (ticks w)))) None)%list /\
    ledger_status requestId_ w1 = Some "pending" /\
    ledger_status requestId_ w2 = Some "processing" /\
    ledger_status requestId_ w5
      = Some (if outcome_succeeds outcome then "completed" else "failed").
Proof.
  intros Hparse Hid Hget Hok.
  destruct (createChartRequest_facts config w)
    as (cr & w0 & Hcreate & Hrid & Hpending & Hl0 & Hc0 & Hh0 & Ht0).
  set (rid := requestId cr) in *.
  assert (Hstream0 : forall h, stream_of h w0 = stream_of h w).
  { intros h. unfold stream_of. by rewrite Hh0. }
  assert (Hsys : rid <> "system").
  { rewrite Hrid. apply request_id_not_system. }
  destruct (sendEvent_delivered clock "request"
              ("Chart generation started for " +:+ cfg_symbol config)
              rid None clientId client w0)
    as (w1 & e & Hsend & _ & Hledger1 & _ & _ & _ & Hchunks);
    [by rewrite Hc0|by rewrite Hstream0|done|].
  assert (H1 : generate_create_and_announce clock config (Some clientId) w
               = Ret cr w1).
  { unfold generate_create_and_announce, bind at 1. rewrite Hcreate.
    unfold truthy. rewrite decide_False by done.
    unfold when, bind, str_of. simpl default. fold rid. by rewrite Hsend. }
  assert (Hget1 : JsMap.get rid (ledger w1) = Some cr).
  { rewrite Hledger1, Hl0. apply JsMapFacts.get_set_eq. }
  destruct (generate_lifecycle_ends_at_last_point clock toFixed1 body config
              (Some clientId) outcome w Hparse) as (p1 & p2 & p3 & p4 & Hpts).
  pose proof Hpts as Hpts'. unfold generate_points in Hpts'.
  rewrite H1 in Hpts'. unfold generate_mark_processing in Hpts'.
  unfold bind at 1 in Hpts'. rewrite updateChartRequest_run in Hpts'.
  fold rid in Hpts'. rewrite Hget1 in Hpts'.
  unfold ret in Hpts'.
  match type of Hpts' with context [generateChart_begin _ _ _ _ ?w2'] =>
    set (w2 := w2') in * end.
  assert (Hget2 : JsMap.get rid (ledger w2)
                  = Some (spread cr (status_update "processing"))).
  { apply JsMapFacts.get_set_eq. }
  pose proof (generateChart_begin_ledger clock config rid (Some clientId) w2)
    as Hl3.
  destruct (generateChart_begin clock config rid (Some clientId) w2)
    as [t w3|? ?]; [|discriminate Hpts'].
  simpl in Hl3.
  pose proof (generateChart_finish_ledger clock toFixed1 config rid
                (Some clientId) t outcome w3) as Hl4.
  destruct (generateChart_finish_success config rid (Some clientId) t
              outcome w3) as (res & w4 & Hfin & Hsucc).
  rewrite Hfin in Hpts', Hl4. simpl in Hl4.
  injection Hpts' as <- <- <- <- Hw5.
  exists rid, w1, w2, w3, w4,
    (world_of (generate_record_result clock rid res w4)).
  split_and!.
  - rewrite Hpts. by rewrite <- Hw5.
  - done.
  - rewrite Hchunks, Hstream0, Ht0. by rewrite decide_True.
  - unfold ledger_status. rewrite Hget1. simpl. by rewrite Hpending.
  - unfold ledger_status. by rewrite Hget2.
  - rewrite <- Hsucc. apply generate_record_result_status
      with (existing := spread cr (status_update "processing")).
    by rewrite Hl4, Hl3.
Qed.
End Sequencing.

Lemma started_event_then_processing_witness :
  exists requestId_,
    ledger_status requestId_
      (world_of (generate_lifecycle clock0 toFixed0 (Some body0) (Some "c1")
                   (FetchJson (Some "https://charts.example/1.png") None)
                   world_one_session))
    = Some "completed".
Proof.
  assert (Hparse : Zod.chartConfigSchema_parse (Some body0) = inr config0)
    by (vm_compute; reflexivity).
  assert (Hid : "c1" <> "") by discriminate.
  destruct (started_event_then_processing clock0 toFixed0 (Some body0) config0
              "c1" {| client_id := "c1"; response := 7%nat; lastEventId := None |}
              (FetchJson (Some "https://charts.example/1.png") None)
              world_one_session Hparse Hid eq_refl eq_refl)
    as (rid & w1 & w2 & w3 & w4 & w5 & _ & Hw5 & _ & _ & _ & Hfinal).
  exists rid. rewrite <- Hw5. exact Hfinal.
Defined.

(** Three requests created in the same millisecond: [listRecent(2)] gives
    the two created first. *)
Example recent_of_three_ties :
  exists result,
    getRecentChartRequests 2 world_three_ties = Ret result world_three_ties /\
    id <$> result = [1; 2].
Proof. eexists. split; vm_compute; reflexivity. Qed.

Lemma getRecentChartRequests_newest_first_stable_witness :
  exists result,
    getRecentChartRequests 2 world_three_requests
    = Ret result world_three_requests /\
    id <$> result = [3; 2].
Proof.
  destruct (getRecentChartRequests_newest_first_stable world_three_requests 2)
    as (sorted & Hrun & _ & _ & _ & _ & _ & Hscenario).
  exists (slice0 2 sorted). split; [exact Hrun|].
  assert (exists R1 R2 R3,
             JsMap.values (ledger world_three_requests) = [R1; R2; R3] /\
             createdAt R1 < createdAt R2 < createdAt R3 /\
             id R3 = 3 /\ id R2 = 2)
    as (R1 & R2 & R3 & Hvalues & Hlt & H3 & H2).
  { eexists _, _, _. split_and!; vm_compute; reflexivity. }
  rewrite (Hscenario R1 R2 R3 Hvalues Hlt). simpl. by rewrite H3, H2.
Defined.

Lemma removeClient_idempotent_total_witness :
  getClientCount
    (world_of (removeClient "c1"
                 (world_of (removeClient "c1" world_one_session))))
  = Ret 0 (world_of (removeClient "c1" world_one_session)) /\
  removeClient "nobody" world_one_session = Ret tt world_one_session.
Proof.
  destruct (removeClient_idempotent_total "c1" world_one_session)
    as (_ & [Hsecond _] & _).
  destruct (removeClient_idempotent_total "nobody" world_one_session)
    as (_ & _ & Hunknown).
  split.
  - rewrite Hsecond. reflexivity.
  - apply Hunknown. reflexivity.
Defined.

(** * Further properties of the code *)

(** ** Request identifiers *)

Section RequestIds.

Lemma pretty_N_char_no_underscore x : pretty_N_char x <> "_"%char.
Proof. unfold pretty_N_char. repeat case_match; discriminate. Qed.

Lemma pretty_N_go_no_underscore x s :
  no_underscore s -> no_underscore (pretty_N_go x s).
Proof.
  revert s. induction (N.lt_wf_0 x) as [x _ IH]; intros s Hs.
  assert (x = 0 \/ 0 < x)%N as [->|Hpos] by lia.
  - by rewrite pretty_N_go_0.
  - rewrite pretty_N_go_step by done. apply IH.
    + by apply N.div_lt.
    + split; [apply pretty_N_char_no_underscore|done].
Qed.

Lemma pretty_N_no_underscore (x : N) : no_underscore (pretty x).
Proof.
  unfold pretty, pretty_N. case_decide.
  - simpl. split; [discriminate|done].
  - by apply pretty_N_go_no_underscore.
Qed.

Lemma pretty_Z_no_underscore (x : Z) : no_underscore (pretty x).
Proof.
  destruct x as [|p|p].
  - simpl. split; [discriminate|done].
  - apply (pretty_N_no_underscore (Npos p)).
  - change (no_underscore (String "-" (pretty (Npos p)))).
    split; [discriminate|apply pretty_N_no_underscore].
Qed.

Lemma split_at_underscore a c b d :
  no_underscore a -> no_underscore c ->
  a +:+ String "_" b = c +:+ String "_" d -> a = c /\ b = d.
Proof.
  revert c. induction a as [|x a IH]; intros [|y c] Ha Hc Heq; simpl in *.
  - by injection Heq as ->.
  - injection Heq as <- _. by destruct Hc.
  - injection Heq as -> _. by destruct Ha.
  - injection Heq as -> Heq. destruct Ha as [_ Ha], Hc as [_ Hc].
    destruct (IH c Ha Hc Heq) as [-> ->]. done.
Qed.

Lemma request_id_inj stamp1 i1 stamp2 i2 :
  request_id stamp1 i1 = request_id stamp2 i2 -> stamp1 = stamp2 /\ i1 = i2.
Proof.
  unfold request_id. intros Heq. simpl in Heq. injection Heq as Heq.
  apply split_at_underscore in Heq as [Hs Hi];
    [|apply pretty_Z_no_underscore..].
  split; by apply (inj pretty).
Qed.
End RequestIds.

(** ** The ledger: minting, round trips, frames *)

Section LedgerExtras.
Context (clock : nat -> Z) (toFixed1 : Z -> string).

Lemma set_set {V} k (v v' : V) m :
  JsMap.set k v' (JsMap.set k v m) = JsMap.set k v' m.
Proof.
  induction m as [|[k0 v0] m IH]; simpl.
  - by rewrite decide_True.
  - destruct (decide (k0 = k)) as [->|Hne]; simpl.
    + by rewrite decide_True.
    + rewrite decide_False by done. by rewrite IH.
Qed.

Lemma set_same {V} k (v : V) m : JsMap.get k m = Some v -> JsMap.set k v m = m.
Proof.
  induction m as [|[k0 v0] m IH]; simpl; [done|].
  destruct (decide (k0 = k)) as [->|Hne].
  - by intros [= ->].
  - intros H. by rewrite IH.
Qed.

Lemma default_default {A} (a : A) (o : option A) :
  default (default a o) o = default a o.
Proof. by destruct o. Qed.

Lemma spread_spread existing updates :
  spread (spread existing updates) updates = spread existing updates.
Proof. unfold spread. simpl. by rewrite !default_default. Qed.

Lemma spread_no_updates existing : spread existing no_updates = existing.
Proof. by destruct existing. Qed.

Lemma ledger_keys_minted_invariant :
  storage_invariant clock ledger_keys_minted.
Proof.
  split; [split|..].
  - intros w n Hw. exact Hw.
  - intros w h Hw. exact Hw.
  - intros w c Hw. exact Hw.
  - intros e w Hw. rewrite createSseEvent_run. exact Hw.
  - intros config w Hw. rewrite createChartRequest_run. cbv zeta.
    intros Hlt k Hk. simpl in Hlt. apply js_incr_below in Hlt as [Hlt Hinc].
    unfold ledger in Hk. simpl in Hk. simpl. rewrite Hinc.
    fold (request_id (clock (ticks w)) (currentChartId (storage w))) in Hk.
    fold (ledger w) in Hk.
    destruct (JsMap.get (request_id (clock (ticks w))
                           (currentChartId (storage w))) (ledger w)) eqn:Hget.
    + rewrite JsMapFacts.keys_set_present in Hk by (by rewrite Hget).
      destruct (Hw Hlt k Hk) as (stamp & i & -> & Hi).
      exists stamp, i. split; [done|lia].
    + rewrite JsMapFacts.keys_set_absent in Hk by done.
      apply elem_of_app in Hk as [Hk|Hk].
      * destruct (Hw Hlt k Hk) as (stamp & i & -> & Hi).
        exists stamp, i. split; [done|lia].
      * apply list_elem_of_singleton in Hk as ->.
        eexists _, _. split; [reflexivity|lia].
  - intros r u w Hw. rewrite updateChartRequest_run.
    destruct (JsMap.get r (ledger w)) as [existing|] eqn:Hget; [|exact Hw].
    intros Hlt k Hk. unfold ledger in Hk. simpl in Hk. fold (ledger w) in Hk.
    rewrite JsMapFacts.keys_set_present in Hk by (by rewrite Hget).
    exact (Hw Hlt k Hk).
Qed.

Lemma ledger_keys_minted_initial : ledger_keys_minted initial_world.
Proof. intros _ k Hk. by apply elem_of_nil in Hk. Qed.

(** X1. Request ids are unique: in every reachable world whose request
    counter is below 2^53, the id that [createChartRequest] mints is not yet
    in the ledger, so the new record is appended after all earlier ones, the
    ledger grows by exactly one record, and every earlier record is read
    back unchanged. *)
Theorem createChartRequest_mints_fresh_id config w :
  reachable clock toFixed1 w ->
  currentChartId (storage w) < MAX_EXACT ->
  exists r w',
    createChartRequest clock config w = Ret r w' /\
    JsMap.get (requestId r) (ledger w) = None /\
    JsMap.values (ledger w') = (JsMap.values (ledger w) ++ [r])%list /\
    JsMap.size (ledger w') = JsMap.size (ledger w) + 1 /\
    (forall k, k ∈ JsMap.keys (ledger w) ->
               JsMap.get k (ledger w') = JsMap.get k (ledger w)).
Proof.
  intros Hreach Hlt.
  pose proof (reachable_invariant clock toFixed1 ledger_keys_minted
                ledger_keys_minted_invariant w ledger_keys_minted_initial
                Hreach Hlt) as Hkeys.
  rewrite createChartRequest_run. cbv zeta. eexists _, _.
  split; [reflexivity|]. simpl requestId.
  fold (request_id (clock (ticks w)) (currentChartId (storage w))).
  assert (Hfresh : JsMap.get (request_id (clock (ticks w))
                                (currentChartId (storage w))) (ledger w) = None).
  { apply JsMapFacts.get_None_keys. intros Hin.
    destruct (Hkeys _ Hin) as (stamp & i & Heq & Hi).
    apply request_id_inj in Heq as [_ Heq]. lia. }
  split; [exact Hfresh|]. unfold ledger in *. simpl. split_and!.
  - by apply JsMapFacts.values_set_absent.
  - rewrite JsMapFacts.size_set. unfold JsMap.has. by rewrite Hfresh.
  - intros k Hk. apply JsMapFacts.get_set_ne. intros <-.
    by apply JsMapFacts.get_None_keys in Hfresh.
Qed.

(** X2. [createChartRequest] followed by [getChartRequest] of the returned
    id reads back exactly the returned record: it is ['pending'], carries
    every one of the eleven fields of the config (symbol, interval, chart
    type, width, height, theme, indicators, drawings, showVolume, showGrid,
    timezone), was created at the second reading of the clock, and has no
    result, error, duration or completion time; the lookup of any other id
    is unaffected, and neither the event store nor the sessions and streams
    change. *)
Theorem createChartRequest_then_get config w :
  exists r w',
    createChartRequest clock config w = Ret r w' /\
    getChartRequest (requestId r) w' = Ret (Some r) w' /\
    id r = currentChartId (storage w) /\
    status r = "pending" /\
    (symbol r, interval r, chartType r, width r, height r, theme r)
      = (cfg_symbol config, cfg_interval config, cfg_chartType config,
         cfg_width config, cfg_height config, cfg_theme config) /\
    (indicators r, drawings r, showVolume r, showGrid r, timezone r)
      = (Has (cfg_indicators config), Has (cfg_drawings config),
         cfg_showVolume config, cfg_showGrid config, cfg_timezone config) /\
    createdAt r = clock (S (ticks w)) /\
    (chartUrl r, base64Data r, errorMessage r, processingTime r, completedAt r)
      = (Null, Null, Null, Null, Null) /\
    (forall k, k <> requestId r ->
               getChartRequest k w' = Ret (JsMap.get k (ledger w)) w') /\
    event_store w' = event_store w /\
    clients w' = clients w /\ heap w' = heap w.
Proof.
  rewrite createChartRequest_run. cbv zeta. eexists _, _.
  split; [reflexivity|]. split_and!; try reflexivity.
  - unfold getChartRequest, bind, get_storage, ret. simpl.
    by rewrite JsMapFacts.get_set_eq.
  - intros k Hk. unfold getChartRequest, bind, get_storage, ret. simpl.
    simpl in Hk. by rewrite JsMapFacts.get_set_ne.
Qed.

(** X3. A successful [updateChartRequest] changes the one record it names
    and nothing else: the ledger keeps its keys in their order, every other
    record is read back unchanged, and the event store, the sessions and the
    streams are untouched. *)
Theorem updateChartRequest_changes_one_record requestId_ updates existing w :
  JsMap.get requestId_ (ledger w) = Some existing ->
  let w' := world_of (updateChartRequest requestId_ updates w) in
  getChartRequest requestId_ w' = Ret (Some (spread existing updates)) w' /\
  JsMap.keys (ledger w') = JsMap.keys (ledger w) /\
  (forall k, k <> requestId_ ->
             JsMap.get k (ledger w') = JsMap.get k (ledger w)) /\
  event_store w' = event_store w /\
  clients w' = clients w /\ heap w' = heap w /\ ticks w' = ticks w.
Proof.
  intros Hget w'. subst w'. rewrite updateChartRequest_run, Hget. simpl.
  split_and!; try reflexivity.
  - unfold getChartRequest, bind, get_storage, ret. simpl.
    by rewrite JsMapFacts.get_set_eq.
  - unfold ledger at 1. simpl. apply JsMapFacts.keys_set_present.
    by rewrite Hget.
  - intros k Hk. unfold ledger at 1. simpl. by apply JsMapFacts.get_set_ne.
Qed.

(** X4. Updates are idempotent: applying the same update a second time
    leaves the world exactly as the first application left it, and an update
    that names no field leaves an existing record, and the whole world, as
    it was. *)
Theorem updateChartRequest_idempotent requestId_ updates existing w :
  JsMap.get requestId_ (ledger w) = Some existing ->
  let w1 := world_of (updateChartRequest requestId_ updates w) in
  updateChartRequest requestId_ updates w1
    = Ret (Some (spread existing updates)) w1 /\
  updateChartRequest requestId_ no_updates w = Ret (Some existing) w.
Proof.
  intros Hget w1. subst w1. split.
  - rewrite (updateChartRequest_run requestId_ updates w), Hget. simpl.
    rewrite updateChartRequest_run. unfold ledger at 1. simpl.
    rewrite JsMapFacts.get_set_eq, spread_spread.
    unfold ledger at 1. simpl. by rewrite set_set.
  - rewrite updateChartRequest_run, Hget, spread_no_updates.
    rewrite set_same by done. by destruct w as [[] ? ? ?].
Qed.
End LedgerExtras.

Lemma createChartRequest_mints_fresh_id_witness :
  exists r w',
    createChartRequest clock0 config0 world_three_requests = Ret r w' /\
    requestId r = "req_1006_4" /\
    JsMap.size (ledger w') = 4.
Proof.
  assert (Hreach : reachable clock0 toFixed0 world_three_requests).
  { change world_three_requests
      with (run_calls clock0 toFixed0
              [CallCreateChartRequest config0; CallCreateChartRequest config0;
               CallCreateChartRequest config0] initial_world).
    apply reachable_run_calls. constructor. }
  destruct (createChartRequest_mints_fresh_id clock0 toFixed0 config0
              world_three_requests Hreach)
    as (r & w' & Hrun & _ & _ & Hsize & _); [vm_compute; reflexivity|].
  exists r, w'. split; [exact Hrun|]. split.
  - rewrite createChartRequest_run in Hrun. injection Hrun as <- _.
    vm_compute. reflexivity.
  - rewrite Hsize. vm_compute. reflexivity.
Defined.

Lemma updateChartRequest_changes_one_record_witness :
  ledger_status "req_1000_1"
    (world_of (updateChartRequest "req_1002_2" (status_update "processing")
                 world_three_requests))
  = Some "pending".
Proof.
  assert (exists existing,
             JsMap.get "req_1002_2" (ledger world_three_requests)
             = Some existing) as [existing Hget].
  { eexists. vm_compute. reflexivity. }
  destruct (updateChartRequest_changes_one_record "req_1002_2"
              (status_update "processing") existing world_three_requests Hget)
    as (_ & _ & Hothers & _).
  unfold ledger_status. rewrite Hothers by discriminate.
  vm_compute. reflexivity.
Defined.

Lemma updateChartRequest_idempotent_witness :
  let w1 := world_of (updateChartRequest "req_1002_2"
                        (status_update "processing") world_three_requests) in
  world_of (updateChartRequest "req_1002_2" (status_update "processing") w1)
  = w1.
Proof.
  assert (exists existing,
             JsMap.get "req_1002_2" (ledger world_three_requests)
             = Some existing) as [existing Hget].
  { eexists. vm_compute. reflexivity. }
  destruct (updateChartRequest_idempotent "req_1002_2"
              (status_update "processing") existing world_three_requests Hget)
    as [Htwice _].
  cbv zeta. by rewrite Htwice.
Defined.

(** ** What the storage never does *)

Section AppendOnly.
Context (clock : nat -> Z) (toFixed1 : Z -> string).

Lemma keys_prefix_invariant L :
  storage_invariant clock (fun w => L `prefix_of` JsMap.keys (ledger w)).
Proof.
  split; [split|..].
  - intros w n Hw. exact Hw.
  - intros w h Hw. exact Hw.
  - intros w c Hw. exact Hw.
  - intros e w Hw. rewrite createSseEvent_run. exact Hw.
  - intros config w Hw. rewrite createChartRequest_run. cbv zeta.
    unfold ledger at 1. simpl.
    match goal with |- context [JsMap.set ?k ?v (ledger w)] =>
      destruct (JsMap.get k (ledger w)) eqn:Hget;
      [rewrite JsMapFacts.keys_set_present by (by rewrite Hget); exact Hw
      |rewrite JsMapFacts.keys_set_absent by done]
    end.
    by apply prefix_app_r.
  - intros r u w Hw. rewrite updateChartRequest_run.
    destruct (JsMap.get r (ledger w)) as [existing|] eqn:Hget; [|exact Hw].
    unfold ledger at 1. simpl.
    rewrite JsMapFacts.keys_set_present by (by rewrite Hget). exact Hw.
Qed.

Lemma history_prefix_invariant requestId_ H :
  storage_invariant clock (fun w => H `prefix_of` history requestId_ w).
Proof.
  split; [split|..].
  - intros w n Hw. exact Hw.
  - intros w h Hw. exact Hw.
  - intros w c Hw. exact Hw.
  - intros e w Hw. rewrite history_after_createSseEvent.
    destruct (decide (ins_requestId e = requestId_)); [|exact Hw].
    by apply prefix_app_r.
  - intros config w Hw. rewrite createChartRequest_run. exact Hw.
  - intros r u w Hw. rewrite updateChartRequest_run.
    by destruct (JsMap.get r (ledger w)).
Qed.

Lemma run_calls_invariant P calls w :
  storage_invariant clock P -> P w -> P (run_calls clock toFixed1 calls w).
Proof.
  intros HP. revert w. induction calls as [|c calls IH]; intros w Hw; [done|].
  simpl. apply IH. by apply exec_call_preserves.
Qed.

(** X5. The ledger is append-only: whatever calls are made on the server,
    no request is ever removed and the requests keep the order in which they
    were inserted (the keys before the calls are a prefix of the keys after
    them), so every request that could be looked up before can be looked up
    after. *)
Theorem ledger_is_append_only calls w :
  let w' := run_calls clock toFixed1 calls w in
  JsMap.keys (ledger w) `prefix_of` JsMap.keys (ledger w') /\
  (forall k, is_Some (JsMap.get k (ledger w)) ->
             is_Some (JsMap.get k (ledger w'))).
Proof.
  intros w'.
  assert (Hprefix : JsMap.keys (ledger w) `prefix_of` JsMap.keys (ledger w')).
  { by apply (run_calls_invariant _ calls w (keys_prefix_invariant _)). }
  split; [done|]. intros k Hk.
  apply JsMapFacts.get_Some_keys. apply JsMapFacts.get_Some_keys in Hk.
  destruct Hprefix as [more ->]. apply elem_of_app. by left.
Qed.

(** X6. The event store is append-only: whatever calls are made on the
    server, the history of every request keeps all its events, unchanged and
    in the same positions, and can only grow at its end. *)
Theorem event_store_is_append_only calls requestId_ w :
  history requestId_ w
    `prefix_of` history requestId_ (run_calls clock toFixed1 calls w).
Proof.
  by apply (run_calls_invariant _ calls w (history_prefix_invariant _ _)).
Qed.

Lemma events_filed_invariant : storage_invariant clock events_filed_by_request.
Proof.
  split; [split|..].
  - intros w n Hw. exact Hw.
  - intros w h Hw. exact Hw.
  - intros w c Hw. exact Hw.
  - intros e w Hw r ev. rewrite history_after_createSseEvent.
    destruct (decide (ins_requestId e = r)) as [<-|Hne]; [|apply Hw].
    intros [Hin|Hin]%elem_of_app; [by apply Hw|].
    by apply list_elem_of_singleton in Hin as ->.
  - intros config w Hw. rewrite createChartRequest_run. exact Hw.
  - intros r u w Hw. rewrite updateChartRequest_run.
    by destruct (JsMap.get r (ledger w)).
Qed.

(** X7. In every reachable world an event returned by
    [getSseEvents(requestId)] carries that same [requestId]: events are
    never filed under another request. *)
Theorem events_filed_under_their_request w requestId_ :
  reachable clock toFixed1 w ->
  exists events,
    getSseEvents requestId_ w = Ret events w /\
    Forall (fun e => ev_requestId e = requestId_) events.
Proof.
  intros Hreach. exists (history requestId_ w). split; [reflexivity|].
  apply Forall_forall. intros e He.
  eapply (reachable_invariant clock toFixed1 events_filed_by_request
            events_filed_invariant w); [|done..].
  intros r ev. unfold history, event_store. simpl. rewrite lookup_empty.
  by intros ?%elem_of_nil.
Qed.

Lemma event_ids_unique_invariant : storage_invariant clock event_ids_unique.
Proof.
  split; [split|..].
  - intros w n Hw. exact Hw.
  - intros w h Hw. exact Hw.
  - intros w c Hw. exact Hw.
  - intros e w Hw Hlt.
    assert (Hc : currentEventId (storage (world_of (createSseEvent clock e w)))
                 = js_incr (currentEventId (storage w))) by reflexivity.
    rewrite Hc in *. apply js_incr_below in Hlt as [Hlt Hinc]. rewrite Hinc.
    destruct (Hw Hlt) as [Hbelow Huniq].
    assert (Hlookup : forall r i ev,
               history r (world_of (createSseEvent clock e w)) !! i = Some ev ->
               (history r w !! i = Some ev) \/
               (r = ins_requestId e /\ i = length (history r w) /\
                ev_id ev = currentEventId (storage w))).
    { intros r i ev. rewrite history_after_createSseEvent.
      destruct (decide (ins_requestId e = r)) as [<-|Hne]; [|by left].
      intros Hi. apply lookup_app_Some in Hi as [Hi|[Hge Hi]]; [by left|].
      right. apply list_lookup_singleton_Some in Hi as [Hidx <-].
      split_and!; [done|lia|done]. }
    split.
    + intros r ev [i Hi]%list_elem_of_lookup.
      destruct (Hlookup r i ev Hi) as [Hold|(_ & _ & ->)]; [|lia].
      assert (ev_id ev < currentEventId (storage w)); [|lia].
      apply (Hbelow r). by eapply list_elem_of_lookup_2.
    + intros r1 r2 i j e1 e2 H1 H2 Hid.
      destruct (Hlookup r1 i e1 H1) as [Ho1|(-> & -> & Hn1)],
               (Hlookup r2 j e2 H2) as [Ho2|(-> & -> & Hn2)].
      * by apply (Huniq r1 r2 i j e1 e2).
      * assert (ev_id e1 < currentEventId (storage w)); [|lia].
        apply (Hbelow r1). by eapply list_elem_of_lookup_2.
      * assert (ev_id e2 < currentEventId (storage w)); [|lia].
        apply (Hbelow r2). by eapply list_elem_of_lookup_2.
      * done.
  - intros config w Hw. rewrite createChartRequest_run. exact Hw.
  - intros r u w Hw. rewrite updateChartRequest_run.
    by destruct (JsMap.get r (ledger w)).
Qed.

(** X8. Sequence ids identify events across the whole store: in every
    reachable world whose event counter is below 2^53, two stored events
    with the same id are the same event of the same request. *)
Theorem event_ids_are_unique w r1 r2 e1 e2 :
  reachable clock toFixed1 w ->
  currentEventId (storage w) < MAX_EXACT ->
  e1 ∈ history r1 w -> e2 ∈ history r2 w -> ev_id e1 = ev_id e2 ->
  r1 = r2 /\ e1 = e2.
Proof.
  intros Hreach Hlt [i Hi]%list_elem_of_lookup [j Hj]%list_elem_of_lookup Hid.
  assert (Hinit : event_ids_unique initial_world).
  { intros _. split.
    - intros r ev. unfold history, event_store. simpl. rewrite lookup_empty.
      by intros ?%elem_of_nil.
    - intros ? ? ? ? ? ?. unfold history, event_store. simpl.
      rewrite lookup_empty. simpl. by rewrite lookup_nil. }
  destruct (reachable_invariant clock toFixed1 event_ids_unique
              event_ids_unique_invariant w Hinit Hreach Hlt) as [_ Huniq].
  destruct (Huniq r1 r2 i j e1 e2 Hi Hj Hid) as [-> ->].
  split; [done|]. congruence.
Qed.
End AppendOnly.

(** ** The session registry: deregistration, callbacks, failures *)

Section RegistryExtras.
Context (clock : nat -> Z) (toFixed1 : Z -> string).

Lemma stream_of_close h w :
  stream_of h (close_stream h w) =
  {| chunks := chunks (stream_of h w); ended := true;
     failing := failing (stream_of h w) |}.
Proof. unfold stream_of, close_stream. simpl. by rewrite lookup_insert_eq. Qed.

Lemma stream_of_close_ne h h' w :
  h <> h' -> stream_of h' (close_stream h w) = stream_of h' w.
Proof.
  intros Hne. unfold stream_of, close_stream. simpl.
  by rewrite lookup_insert_ne.
Qed.

(** X9. Connection events are not persisted: [sendEvent] with the reserved
    requestId ['system'], and therefore [addClient], never changes the
    storage, whatever the state of the target session and of its stream. *)
Theorem connection_events_are_not_stored
    clientId eventType message data res lastEventId_ w :
  storage (world_of (sendEvent clock clientId eventType message "system" data w))
    = storage w /\
  storage (world_of (addClient clock clientId res lastEventId_ w)) = storage w.
Proof.
  split.
  - rewrite sendEvent_run.
    destruct (JsMap.get clientId (clients w)) as [client|]; [|done].
    cbv zeta. destruct (failing (stream_of (response client) w)).
    + rewrite removeClient_run. simpl clients.
      by destruct (JsMap.get clientId (clients w)).
    + rewrite decide_False by (intros H; by apply H). done.
  - rewrite addClient_run. cbv zeta. by destruct (failing (stream_of res w)).
Qed.

(** X10. [removeClient] of a registered client removes exactly that
    session: the clientId is no longer registered, [end()] has been called
    on its stream (whose written chunks stay), [getClientCount] drops by
    one, every other session and every other stream is as before, and the
    storage is untouched. *)
Theorem removeClient_deregisters clientId client w :
  JsMap.wf (clients w) ->
  JsMap.get clientId (clients w) = Some client ->
  let w' := world_of (removeClient clientId w) in
  JsMap.get clientId (clients w') = None /\
  ended (stream_of (response client) w') = true /\
  chunks (stream_of (response client) w')
    = chunks (stream_of (response client) w) /\
  getClientCount w' = Ret (JsMap.size (clients w) - 1) w' /\
  (forall k, k <> clientId ->
             JsMap.get k (clients w') = JsMap.get k (clients w)) /\
  (forall h, h <> response client -> stream_of h w' = stream_of h w) /\
  storage w' = storage w.
Proof.
  intros Hwf Hget w'. subst w'. rewrite removeClient_run, Hget. simpl.
  split_and!.
  - apply JsMapFacts.get_delete_eq.
  - change (ended (stream_of (response client)
                     (close_stream (response client) w)) = true).
    by rewrite stream_of_close.
  - change (chunks (stream_of (response client)
                      (close_stream (response client) w))
            = chunks (stream_of (response client) w)).
    by rewrite stream_of_close.
  - unfold getClientCount, bind, get_world, ret. simpl. f_equal.
    rewrite (size_delete_present clientId (clients w)) by (by rewrite ?Hget).
    lia.
  - intros k Hk. by apply JsMapFacts.get_delete_ne.
  - intros h Hh.
    change (stream_of h (close_stream (response client) w) = stream_of h w).
    by apply stream_of_close_ne.
  - reflexivity.
Qed.

Lemma heartbeat_run clientId res w :
  heartbeat clientId res w =
  if JsMap.has clientId (clients w)
  then if failing (stream_of res w) then Throw (JsError "write failed") w
       else Ret tt (push_chunks res [heartbeat_chunk] w)
  else Ret tt w.
Proof.
  unfold heartbeat, bind, get_world.
  destruct (JsMap.has clientId (clients w)); [|done]. by rewrite write_run.
Qed.

Lemma register_twice_run clientId res1 res2 w :
  failing (stream_of res2 w) = false ->
  exists w2,
    register_twice clock clientId res1 res2 w = Ret tt w2 /\
    JsMap.get clientId (clients w2)
      = Some {| client_id := clientId; response := res2; lastEventId := None |} /\
    (forall h, failing (stream_of h w2) = failing (stream_of h w)) /\
    (forall h, ended (stream_of h w2) = true -> h <> res1 ->
               ended (stream_of h w) = true).
Proof.
  intros Hok. unfold register_twice, bind.
  pose proof (addClient_failing clock clientId res1 None) as Hf1.
  destruct (never_throws_returns (addClient clock clientId res1 None) w)
    as ([] & w1 & Hrun1).
  { unfold addClient. apply never_throws_bind; [done|].
    intros _. apply sendEvent_total. }
  rewrite Hrun1. rewrite addClient_run. cbv zeta.
  assert (Hf : forall h, failing (stream_of h w1) = failing (stream_of h w)).
  { intros h. specialize (Hf1 h w). by rewrite Hrun1 in Hf1. }
  rewrite Hf, Hok. eexists. split; [reflexivity|]. split_and!.
  - simpl. apply JsMapFacts.get_set_eq.
  - intros h. destruct (decide (res2 = h)) as [->|Hne].
    + rewrite stream_of_push. simpl.
      change (failing (stream_of h w1) = failing (stream_of h w)). apply Hf.
    + rewrite stream_of_push_ne by done.
      change (failing (stream_of h w1) = failing (stream_of h w)). apply Hf.
  - intros h Hended Hne.
    assert (Hended1 : ended (stream_of h w1) = true).
    { destruct (decide (res2 = h)) as [->|Hne2].
      - by rewrite stream_of_push in Hended.
      - by rewrite stream_of_push_ne in Hended. }
    rewrite addClient_run in Hrun1. cbv zeta in Hrun1.
    destruct (failing (stream_of res1 w)); injection Hrun1 as <-.
    + change (ended (stream_of h (close_stream res1 w)) = true) in Hended1.
      by rewrite stream_of_close_ne in Hended1.
    + change (ended (stream_of h
                (push_chunks res1
                   (frames "connection" "SSE connection established" "system"
                           (clock (ticks w)) None) w)) = true) in Hended1.
      by rewrite stream_of_push_ne in Hended1.
Qed.

(** X11. The ['close'] listener that [addClient] installs captures only the
    clientId. After the same clientId was registered a second time on
    another stream (one that accepts the initial write), the close of the
    first, replaced stream runs [removeClient(clientId)] and thereby
    deregisters the new session and ends the new stream. *)
Theorem stale_close_removes_replacement clientId res1 res2 w :
  failing (stream_of res2 w) = false ->
  exists w2,
    register_twice clock clientId res1 res2 w = Ret tt w2 /\
    response <$> JsMap.get clientId (clients w2) = Some res2 /\
    let w3 := world_of (on_close clientId w2) in
    JsMap.get clientId (clients w3) = None /\
    ended (stream_of res2 w3) = true.
Proof.
  intros Hok.
  destruct (register_twice_run clientId res1 res2 w Hok)
    as (w2 & Hrun & Hget & _ & _).
  exists w2. split; [done|]. split; [by rewrite Hget|].
  unfold on_close. rewrite removeClient_run, Hget. simpl. split.
  - apply JsMapFacts.get_delete_eq.
  - change (ended (stream_of res2 (close_stream res2 w2)) = true).
    by rewrite stream_of_close.
Qed.

(** X12. The heartbeat tests only whether the clientId is registered. Once
    the client is deregistered, a firing of its interval writes nothing;
    but after the clientId was registered again on another stream, the
    interval of the first registration keeps writing its keep-alive line to
    the first, orphaned stream. *)
Theorem heartbeat_follows_the_client_id clientId res1 res2 w :
  (let w' := world_of (removeClient clientId w) in
   heartbeat clientId res1 w' = Ret tt w') /\
  (failing (stream_of res1 w) = false ->
   failing (stream_of res2 w) = false ->
   exists w2,
     register_twice clock clientId res1 res2 w = Ret tt w2 /\
     heartbeat clientId res1 w2 = Ret tt (push_chunks res1 [heartbeat_chunk] w2)).
Proof.
  split.
  - cbv zeta. rewrite heartbeat_run. unfold JsMap.has.
    rewrite removeClient_run.
    destruct (JsMap.get clientId (clients w)) as [client|] eqn:Hget; simpl.
    + by rewrite JsMapFacts.get_delete_eq.
    + by rewrite Hget.
  - intros Hok1 Hok2.
    destruct (register_twice_run clientId res1 res2 w Hok2)
      as (w2 & Hrun & Hget & Hfail & _).
    exists w2. split; [done|]. rewrite heartbeat_run. unfold JsMap.has.
    by rewrite Hget, Hfail, Hok1.
Qed.
End RegistryExtras.

Lemma removeClient_deregisters_witness :
  getClientCount (world_of (removeClient "c1" world_two_sessions))
  = Ret 1 (world_of (removeClient "c1" world_two_sessions)).
Proof.
  assert (Hwf : JsMap.wf (clients world_two_sessions)).
  { unfold JsMap.wf.
    change (JsMap.keys (clients world_two_sessions)) with ["c1"; "c2"].
    apply NoDup_cons. split; [|apply NoDup_singleton].
    intros Hin. apply list_elem_of_singleton in Hin. discriminate. }
  destruct (removeClient_deregisters "c1"
              {| client_id := "c1"; response := 7%nat; lastEventId := None |}
              world_two_sessions Hwf eq_refl)
    as (_ & _ & _ & Hcount & _).
  exact Hcount.
Defined.

Lemma stale_close_removes_replacement_witness :
  JsMap.get "c1"
    (clients (world_of (on_close "c1"
                          (world_of (register_twice clock0 "c1" 7%nat 9%nat
                                       initial_world)))))
  = None.
Proof.
  destruct (stale_close_removes_replacement clock0 "c1" 7%nat 9%nat
              initial_world eq_refl) as (w2 & Hrun & _ & Hgone & _).
  rewrite Hrun. exact Hgone.
Defined.

Lemma heartbeat_follows_the_client_id_witness :
  exists w2,
    register_twice clock0 "c1" 7%nat 9%nat initial_world = Ret tt w2 /\
    heartbeat "c1" 7%nat w2 = Ret tt (push_chunks 7%nat [heartbeat_chunk] w2).
Proof.
  destruct (heartbeat_follows_the_client_id clock0 "c1" 7%nat 9%nat
              initial_world) as [_ Hstale].
  exact (Hstale eq_refl eq_refl).
Defined.

(** ** Exceptions and failure isolation *)

Section Failures.
Context (clock : nat -> Z) (toFixed1 : Z -> string).

Local Hint Resolve Date_now_total get_world_total modify_total end_stream_total
  createChartRequest_total createSseEvent_total updateChartRequest_total
  removeClient_total sendEvent_total generateChart_begin_total
  generateChart_finish_total generate_record_result_total
  generate_create_and_announce_total generate_mark_processing_total : total.

Ltac total_auto :=
  repeat first [ never_throws_step | solve [eauto with total] ].

Lemma addClient_total clientId res l :
  never_throws (addClient clock clientId res l).
Proof. unfold addClient. total_auto. Qed.

Lemma broadcast_total eventType message requestId_ data :
  never_throws (broadcast clock eventType message requestId_ data).
Proof.
  unfold broadcast. apply never_throws_bind; [done|]. intros w0.
  apply never_throws_for_each. intros k. apply sendEvent_total.
Qed.

Lemma generate_handler_total body clientId :
  never_throws (generate_handler clock body clientId).
Proof. unfold generate_handler. total_auto. Qed.

Lemma generate_settle_total fl outcome :
  never_throws (generate_settle clock toFixed1 fl outcome).
Proof. unfold generate_settle. total_auto. Qed.

(** X13. Exceptions are contained everywhere but in the heartbeat: of all
    the calls that can be made on the server, the only one that can end in
    an uncaught exception is a firing of the heartbeat interval for a
    clientId that is registered while the stream it writes to throws.
    Storage calls, registration, deregistration, [sendEvent], [broadcast],
    the generate handler and the settlement of the upstream call always
    return normally. *)
Theorem only_the_heartbeat_can_throw c w :
  throws (exec_call clock toFixed1 c w) = true <->
  exists clientId res,
    c = CallHeartbeat clientId res /\
    JsMap.has clientId (clients w) = true /\
    failing (stream_of res w) = true.
Proof.
  assert (Hnever : forall (m : M unit), never_throws m ->
                                        throws (m w) = true -> False).
  { intros m Hm Ht. rewrite (Hm w) in Ht. discriminate. }
  split.
  - destruct c as [config|r u|e|cid res l|cid|cid ty msg r d|ty msg r d|cid
                   |cid res|body cid|fl outcome|res b];
      cbn [exec_call]; intros Ht.
    all: try (exfalso; refine (Hnever _ _ Ht); unfold on_close;
              first [ apply addClient_total | apply broadcast_total
                    | apply generate_settle_total
                    | solve [apply never_throws_bind;
                             [apply generate_handler_total
                             |intros ?; apply never_throws_ret]]
                    | solve [total_auto] ];
              fail).
    + exists cid, res. rewrite heartbeat_run in Ht.
      destruct (JsMap.has cid (clients w)); [|discriminate].
      destruct (failing (stream_of res w)); [done|discriminate].
  - intros (clientId & res & -> & Hhas & Hfail). simpl.
    by rewrite heartbeat_run, Hhas, Hfail.
Qed.

Context (eventType message requestId_ : string) (data : option JVal).

(** One [sendEvent], to any client, seen from a registered session whose
    stream accepts writes. *)
Lemma sendEvent_spares k clientId client w :
  JsMap.get clientId (clients w) = Some client ->
  failing (stream_of (response client) w) = false ->
  exists w',
    sendEvent clock k eventType message requestId_ data w = Ret tt w' /\
    JsMap.get clientId (clients w') = Some client /\
    failing (stream_of (response client) w') = false /\
    (exists written,
        chunks (stream_of (response client) w')
        = (chunks (stream_of (response client) w) ++ written)%list /\
        (k = clientId ->
         exists t, ChunkData {| ed_type := eventType; ed_message := message;
                                ed_requestId := requestId_; ed_timestamp := t;
                                ed_data := data |} ∈ written)) /\
    (exists added,
        history requestId_ w' = (history requestId_ w ++ added)%list /\
        (k = clientId -> requestId_ <> "system" ->
         Exists (records eventType message requestId_) added)).
Proof.
  intros Hget Hok. rewrite sendEvent_run.
  destruct (JsMap.get k (clients w)) as [ck|] eqn:Hk.
  - cbv zeta. destruct (failing (stream_of (response ck) w)) eqn:Hfk.
    + assert (Hne : k <> clientId) by (intros ->; congruence).
      assert (Hres : response ck <> response client) by congruence.
      rewrite removeClient_run. simpl clients. rewrite Hk.
      eexists. split; [reflexivity|]. simpl clients.
      rewrite JsMapFacts.get_delete_ne by done.
      change (stream_of (response client)
                (set_clients (JsMap.delete k (clients w))
                   (close_stream (response ck) (set_ticks (S (ticks w)) w))))
        with (stream_of (response client)
                (close_stream (response ck) (set_ticks (S (ticks w)) w))).
      rewrite stream_of_close_ne by done.
      split_and!; [done|done| |].
      * exists []. rewrite app_nil_r. split; [done|]. by intros ->.
      * exists []. rewrite app_nil_r. split; [done|]. by intros ->.
    + set (w2 := push_chunks (response ck)
                   (frames eventType message requestId_ (clock (ticks w)) data)
                   (set_ticks (S (ticks w)) w)).
      assert (Hstream :
                failing (stream_of (response client) w2) = false /\
                exists written,
                  chunks (stream_of (response client) w2)
                  = (chunks (stream_of (response client) w) ++ written)%list /\
                  (k = clientId ->
                   exists t, ChunkData {| ed_type := eventType;
                                          ed_message := message;
                                          ed_requestId := requestId_;
                                          ed_timestamp := t;
                                          ed_data := data |} ∈ written)).
      { subst w2. destruct (decide (response ck = response client)) as [Heq|Hne].
        - rewrite Heq, stream_of_push. simpl. split; [done|].
          eexists. split; [reflexivity|]. intros _. exists (clock (ticks w)).
          unfold frames. apply elem_of_cons. right. by left.
        - rewrite stream_of_push_ne by done. split; [done|].
          exists []. rewrite app_nil_r. split; [done|].
          intros ->. congruence. }
      destruct Hstream as [Hf2 Hwritten].
      destruct (decide (requestId_ <> "system")) as [Hsys|Hsys].
      * eexists. split; [reflexivity|].
        split_and!; [exact Hget|exact Hf2|exact Hwritten|].
        rewrite history_after_createSseEvent. simpl. rewrite decide_True by done.
        eexists. split; [reflexivity|]. intros _ _. by left.
      * eexists. split; [reflexivity|].
        split_and!; [exact Hget|exact Hf2|exact Hwritten|].
        exists []. rewrite app_nil_r. split; [done|]. by intros _ ?.
  - assert (Hne : k <> clientId) by (intros ->; congruence).
    exists w. split_and!; [done|done|done| |].
    + exists []. rewrite app_nil_r. split; [done|]. by intros ->.
    + exists []. rewrite app_nil_r. split; [done|]. by intros ->.
Qed.

Lemma broadcast_loop_spares ks clientId client :
  forall w,
    JsMap.get clientId (clients w) = Some client ->
    failing (stream_of (response client) w) = false ->
    exists w',
      for_each (fun k => sendEvent clock k eventType message requestId_ data)
               ks w = Ret tt w' /\
      JsMap.get clientId (clients w') = Some client /\
      (exists written,
          chunks (stream_of (response client) w')
          = (chunks (stream_of (response client) w) ++ written)%list /\
          (clientId ∈ ks ->
           exists t, ChunkData {| ed_type := eventType; ed_message := message;
                                  ed_requestId := requestId_;
                                  ed_timestamp := t; ed_data := data |}
                     ∈ written)) /\
      (exists added,
          history requestId_ w' = (history requestId_ w ++ added)%list /\
          (clientId ∈ ks -> requestId_ <> "system" ->
           Exists (records eventType message requestId_) added)).
Proof.
  induction ks as [|k ks IH]; intros w Hget Hok.
  - exists w. simpl. split_and!; [done|done| |].
    + exists []. rewrite app_nil_r. split; [done|]. by intros ?%elem_of_nil.
    + exists []. rewrite app_nil_r. split; [done|]. by intros ?%elem_of_nil.
  - destruct (sendEvent_spares k clientId client w Hget Hok)
      as (w1 & Hrun & Hget1 & Hok1 & (wr1 & Hwr1 & Hin1) & (ad1 & Had1 & Hex1)).
    destruct (IH w1 Hget1 Hok1)
      as (w' & Hrun' & Hget' & (wr2 & Hwr2 & Hin2) & (ad2 & Had2 & Hex2)).
    exists w'. simpl. unfold bind. rewrite Hrun. split_and!; [done|done| |].
    + exists (wr1 ++ wr2)%list. split.
      { rewrite Hwr2, Hwr1. by rewrite <- (assoc_L (++)). }
      intros [->|Hks]%elem_of_cons.
      * destruct (Hin1 eq_refl) as [t Ht]. exists t. apply elem_of_app. by left.
      * destruct (Hin2 Hks) as [t Ht]. exists t. apply elem_of_app. by right.
    + exists (ad1 ++ ad2)%list. split.
      { rewrite Had2, Had1. by rewrite <- (assoc_L (++)). }
      intros [->|Hks]%elem_of_cons Hsys; apply Exists_app.
      * left. by apply Hex1.
      * right. by apply Hex2.
Qed.

(** X14. A failing session does not spoil a broadcast for the others:
    whatever the state of the other sessions (their writes may throw, which
    deregisters them), [broadcast] returns normally, every registered
    session whose own stream accepts writes stays registered and has the
    event written to its stream, and for a requestId other than ['system']
    the event is appended to the request's history. *)
Theorem broadcast_isolates_failing_sessions clientId client w :
  JsMap.get clientId (clients w) = Some client ->
  failing (stream_of (response client) w) = false ->
  let r := broadcast clock eventType message requestId_ data w in
  throws r = false /\
  JsMap.get clientId (clients (world_of r)) = Some client /\
  (exists written t,
      chunks (stream_of (response client) (world_of r))
      = (chunks (stream_of (response client) w) ++ written)%list /\
      ChunkData {| ed_type := eventType; ed_message := message;
                   ed_requestId := requestId_; ed_timestamp := t;
                   ed_data := data |} ∈ written) /\
  (requestId_ <> "system" ->
   exists added,
     history requestId_ (world_of r) = (history requestId_ w ++ added)%list /\
     Exists (records eventType message requestId_) added).
Proof.
  intros Hget Hok r.
  destruct (broadcast_loop_spares (JsMap.keys (clients w)) clientId client w
              Hget Hok)
    as (w' & Hrun & Hget' & (written & Hwr & Hin) & (added & Had & Hex)).
  assert (Hr : r = Ret tt w') by exact Hrun.
  assert (Hkey : clientId ∈ JsMap.keys (clients w)).
  { apply JsMapFacts.get_Some_keys. eauto. }
  rewrite Hr. simpl. split_and!; [done|done| |].
  - destruct (Hin Hkey) as [t Ht]. by exists written, t.
  - intros Hsys. exists added. split; [done|]. by apply Hex.
Qed.
End Failures.

Lemma broadcast_isolates_failing_sessions_witness :
  let w' := world_of (broadcast clock0 "progress" "Preparing chart request..."
                        "req_1000_1" None world_one_failing) in
  response <$> JsMap.get "c1" (clients w') = Some 7%nat /\
  JsMap.get "c2" (clients w') = None.
Proof.
  destruct (broadcast_isolates_failing_sessions clock0 "progress"
              "Preparing chart request..." "req_1000_1" None "c1"
              {| client_id := "c1"; response := 7%nat; lastEventId := None |}
              world_one_failing eq_refl eq_refl) as (_ & Hstays & _).
  cbv zeta. split.
  - by rewrite Hstays.
  - vm_compute. reflexivity.
Defined.

(** ** The schema and the upstream payload *)

Section Schema.

Lemma enum_sound allowed v s : Zod.enum allowed v = Some s -> s ∈ allowed.
Proof.
  unfold Zod.enum. destruct v as [[]|]; try discriminate.
  case_decide; [|discriminate]. by intros [= <-].
Qed.

Lemma enum_default_sound allowed d v s :
  d ∈ allowed -> Zod.enum_default allowed d v = Some s -> s ∈ allowed.
Proof.
  unfold Zod.enum_default. destruct v as [j|]; [|by intros ? [= <-]].
  intros _. apply enum_sound.
Qed.

Lemma number_range_default_sound lo hi d v n :
  lo <= d <= hi -> Zod.number_range_default lo hi d v = Some n -> lo <= n <= hi.
Proof.
  unfold Zod.number_range_default. destruct v as [[]|]; try discriminate.
  - destruct (lo <=? n0) eqn:E1, (n0 <=? hi) eqn:E2; simpl; try discriminate.
    intros _ [= <-]. apply Z.leb_le in E1, E2. lia.
  - by intros ? [= <-].
Qed.

Lemma config_of_fields o config :
  Zod.config_of o = Some config ->
  Zod.f_symbol o = Some (cfg_symbol config) /\
  Zod.f_interval o = Some (cfg_interval config) /\
  Zod.f_chartType o = Some (cfg_chartType config) /\
  Zod.f_width o = Some (cfg_width config) /\
  Zod.f_height o = Some (cfg_height config) /\
  Zod.f_indicators o = Some (cfg_indicators config) /\
  Zod.f_drawings o = Some (cfg_drawings config) /\
  Zod.f_theme o = Some (cfg_theme config) /\
  Zod.f_showVolume o = Some (cfg_showVolume config) /\
  Zod.f_showGrid o = Some (cfg_showGrid config) /\
  Zod.f_timezone o = Some (cfg_timezone config).
Proof.
  unfold Zod.config_of.
  destruct (Zod.f_symbol o); [|discriminate].
  destruct (Zod.f_interval o); [|discriminate].
  destruct (Zod.f_chartType o); [|discriminate].
  destruct (Zod.f_width o); [|discriminate].
  destruct (Zod.f_height o); [|discriminate].
  destruct (Zod.f_indicators o); [|discriminate].
  destruct (Zod.f_drawings o); [|discriminate].
  destruct (Zod.f_theme o); [|discriminate].
  destruct (Zod.f_showVolume o); [|discriminate].
  destruct (Zod.f_showGrid o); [|discriminate].
  destruct (Zod.f_timezone o); [|discriminate].
  simpl. intros [= <-]. simpl. by split_and!.
Qed.

Lemma parse_accepts body config :
  Zod.chartConfigSchema_parse body = inr config ->
  exists o, body = Some (JObj o) /\ Zod.config_of o = Some config.
Proof.
  unfold Zod.chartConfigSchema_parse.
  destruct body as [[| | | | |o]|]; try discriminate.
  destruct (Zod.config_of o) eqn:E; [|discriminate].
  intros [= <-]. eauto.
Qed.

(** X15. Whatever [chartConfigSchema.parse] accepts satisfies the schema:
    the symbol is not empty, the interval, the chart type and the theme are
    among the enumerated values, the width lies in 400..2000 and the height
    in 300..1500. *)
Theorem parsed_config_is_valid body config :
  Zod.chartConfigSchema_parse body = inr config -> valid_config config.
Proof.
  intros (o & _ & Hcfg)%parse_accepts.
  destruct (config_of_fields o config Hcfg)
    as (Hsym & Hitv & Hcty & Hwd & Hht & _ & _ & Hthm & _).
  unfold valid_config. split; [|split; [|split; [|split; [|split]]]].
  - unfold Zod.f_symbol, Zod.string_min1 in Hsym.
    destruct (Zod.field "symbol" o) as [[]|]; try discriminate.
    case_decide; [discriminate|]. by injection Hsym as <-.
  - by eapply enum_sound.
  - by eapply enum_sound.
  - eapply number_range_default_sound; [|exact Hwd]. lia.
  - eapply number_range_default_sound; [|exact Hht]. lia.
  - eapply enum_default_sound; [|exact Hthm]. by left.
Qed.

(** X16. Defaults are applied to absent keys only: in an accepted body, an
    absent [width], [height], [indicators], [drawings], [theme],
    [showVolume], [showGrid] or [timezone] becomes 800, 600, the empty
    list, the empty list, ['light'], [true], [true] and
    ['America/New_York']; a key that is present with the value [null] is
    not defaulted but rejected. *)
Theorem schema_defaults o :
  (forall config,
      Zod.chartConfigSchema_parse (Some (JObj o)) = inr config ->
      (Zod.field "width" o = None -> cfg_width config = 800) /\
      (Zod.field "height" o = None -> cfg_height config = 600) /\
      (Zod.field "indicators" o = None -> cfg_indicators config = []) /\
      (Zod.field "drawings" o = None -> cfg_drawings config = []) /\
      (Zod.field "theme" o = None -> cfg_theme config = "light") /\
      (Zod.field "showVolume" o = None -> cfg_showVolume config = true) /\
      (Zod.field "showGrid" o = None -> cfg_showGrid config = true) /\
      (Zod.field "timezone" o = None ->
       cfg_timezone config = "America/New_York")) /\
  (forall key,
      key ∈ ["symbol"; "interval"; "chartType"; "width"; "height";
             "indicators"; "drawings"; "theme"; "showVolume"; "showGrid";
             "timezone"] ->
      Zod.field key o = Some JNull ->
      exists issues,
        Zod.chartConfigSchema_parse (Some (JObj o)) = inl issues /\
        key ∈ issues).
Proof.
  split.
  - intros config (o' & [= <-] & Hcfg)%parse_accepts.
    destruct (config_of_fields o config Hcfg)
      as (_ & _ & _ & Hwd & Hht & Hin & Hdr & Hthm & Hvol & Hgrd & Htz).
    unfold Zod.f_width, Zod.f_height, Zod.f_indicators, Zod.f_drawings,
      Zod.f_theme, Zod.f_showVolume, Zod.f_showGrid, Zod.f_timezone in *.
    split_and!; intros Hnone; rewrite Hnone in *; simpl in *; congruence.
  - intros key Hkey Hnull. exists (Zod.issues_of o).
    assert (Hissue : key ∈ Zod.issues_of o).
    { unfold Zod.issues_of, Zod.f_symbol, Zod.f_interval, Zod.f_chartType,
        Zod.f_width, Zod.f_height, Zod.f_indicators, Zod.f_drawings,
        Zod.f_theme, Zod.f_showVolume, Zod.f_showGrid, Zod.f_timezone.
      repeat (apply elem_of_cons in Hkey as [->|Hkey];
              [rewrite Hnull; simpl; set_solver|]).
      by apply elem_of_nil in Hkey. }
    split; [|done]. unfold Zod.chartConfigSchema_parse.
    destruct (Zod.config_of o) as [config|] eqn:Hcfg; [|done]. exfalso.
    destruct (config_of_fields o config Hcfg)
      as (H1 & H2 & H3 & H4 & H5 & H6 & H7 & H8 & H9 & H10 & H11).
    unfold Zod.f_symbol, Zod.f_interval, Zod.f_chartType,
      Zod.f_width, Zod.f_height, Zod.f_indicators, Zod.f_drawings,
      Zod.f_theme, Zod.f_showVolume, Zod.f_showGrid, Zod.f_timezone in *.
    repeat (apply elem_of_cons in Hkey as [->|Hkey];
            [rewrite Hnull in *; discriminate|]).
    by apply elem_of_nil in Hkey.
Qed.
End Schema.

Section Payload.

Ltac each_member H :=
  repeat (apply elem_of_cons in H as [->|H]); [..|by apply elem_of_nil in H].

(** X17. The chart-type switch of [buildChartPayload] separates the nine
    chart types of the schema: two different accepted chart types never get
    the same upstream code, every accepted type gets one of the nine codes
    0, 1, 2, 3, 7, 8, 9, 11, 12, and any other string falls back to the
    candlestick code 1. *)
Theorem chart_type_codes_are_distinct :
  (forall a b, a ∈ Zod.chartTypes -> b ∈ Zod.chartTypes ->
               chart_type_code a = chart_type_code b -> a = b) /\
  (forall a, a ∈ Zod.chartTypes -> chart_type_code a ∈ chart_type_codes) /\
  (forall a, a ∉ Zod.chartTypes -> chart_type_code a = 1).
Proof.
  split_and!.
  - intros a b Ha Hb. unfold Zod.chartTypes in *.
    each_member Ha; each_member Hb; vm_compute; intros H;
      first [reflexivity | discriminate H].
  - intros a Ha. unfold Zod.chartTypes in *.
    each_member Ha; vm_compute; set_solver.
  - intros a Ha. unfold chart_type_code, Zod.chartTypes in *.
    repeat (case_decide; [exfalso; apply Ha; subst a; set_solver|]).
    reflexivity.
Qed.

Context (upper : string -> string).

Lemma study_of_well_formed indicator :
  well_formed_study (study_of upper indicator).
Proof.
  unfold well_formed_study, study_of. simpl. split_and!.
  - destruct (ind_period indicator); [case_decide|]; simpl; lia.
  - destruct (ind_period indicator); [case_decide|]; simpl;
      rewrite ?elem_of_nil, ?list_elem_of_singleton; auto.
  - destruct (ind_color indicator); [case_decide|]; congruence.
Qed.

Lemma payload_drawing_of_well_formed drawing :
  well_formed_drawing (payload_drawing_of drawing).
Proof.
  unfold well_formed_drawing, payload_drawing_of. simpl. split.
  - destruct (dr_width drawing); [case_decide|]; lia.
  - destruct (dr_color drawing); [case_decide|]; done.
Qed.

Lemma study_of_significant indicator :
  study_of upper (significant_indicator indicator) = study_of upper indicator.
Proof.
  unfold study_of, significant_indicator, truthy_number, truthy_string. simpl.
  f_equal.
  - destruct (ind_period indicator); [|done].
    case_decide; [done|]. simpl. by rewrite decide_False.
  - destruct (ind_color indicator); [|done].
    case_decide; [done|]. simpl. by rewrite decide_False.
Qed.

Lemma payload_drawing_of_significant drawing :
  payload_drawing_of (significant_drawing drawing) = payload_drawing_of drawing.
Proof.
  unfold payload_drawing_of, significant_drawing, truthy_number, truthy_string.
  simpl. f_equal.
  - destruct (dr_color drawing); [|done].
    case_decide; [done|]. simpl. by rewrite decide_False.
  - destruct (dr_width drawing); [|done].
    case_decide; [done|]. simpl. by rewrite decide_False.
Qed.

Lemma buildChartPayload_lists config :
  p_studies (buildChartPayload upper config)
    = study_of upper <$> cfg_indicators config /\
  p_drawings (buildChartPayload upper config)
    = payload_drawing_of <$> cfg_drawings config.
Proof.
  unfold buildChartPayload. simpl.
  by destruct (cfg_indicators config), (cfg_drawings config).
Qed.

Lemma buildChartPayload_significant config :
  buildChartPayload upper (significant config) = buildChartPayload upper config.
Proof.
  destruct (buildChartPayload_lists config) as [Hs Hd].
  destruct (buildChartPayload_lists (significant config)) as [Hs' Hd'].
  assert (Hs2 : p_studies (buildChartPayload upper (significant config))
                = p_studies (buildChartPayload upper config)).
  { rewrite Hs', Hs. simpl. rewrite <- list_fmap_compose.
    apply list_fmap_ext. intros _ i _. apply study_of_significant. }
  assert (Hd2 : p_drawings (buildChartPayload upper (significant config))
                = p_drawings (buildChartPayload upper config)).
  { rewrite Hd', Hd. simpl. rewrite <- list_fmap_compose.
    apply list_fmap_ext. intros _ d _. apply payload_drawing_of_significant. }
  destruct (buildChartPayload upper (significant config)) eqn:E1.
  destruct (buildChartPayload upper config) eqn:E2.
  simpl in Hs2, Hd2. subst.
  unfold buildChartPayload in E1, E2. simpl in E1, E2.
  injection E1 as <- <- <- <- <- <- _ _ <- <- <-.
  injection E2 as <- <- <- <- <- <- _ _ <- <- <-.
  reflexivity.
Qed.

(** X18. [buildChartPayload] reads a config only through its significant
    part: it ignores the [overbought] and [oversold] settings of every
    indicator, and its JavaScript conditions ([period ? ... : ...],
    [color || ...], [width || ...]) treat a period of 0, an empty colour and
    a drawing width of 0 as absent. Two configs with the same significant
    part give the same payload. The payload has one study per indicator and
    one drawing per drawing of the config; no study carries more than one
    input, the input 0 or an empty colour; every drawing has a line width
    other than 0 and a colour other than the empty string (the fallbacks
    are 2 and '#8B5CF6'). How [toUpperCase] acts on the indicator types
    plays no part. *)
Theorem buildChartPayload_reads_the_significant_part :
  (forall config,
      buildChartPayload upper (significant config)
      = buildChartPayload upper config) /\
  (forall config1 config2,
      significant config1 = significant config2 ->
      buildChartPayload upper config1 = buildChartPayload upper config2) /\
  (forall config,
      let payload := buildChartPayload upper config in
      length (p_studies payload) = length (cfg_indicators config) /\
      length (p_drawings payload) = length (cfg_drawings config) /\
      Forall well_formed_study (p_studies payload) /\
      Forall well_formed_drawing (p_drawings payload)).
Proof.
  split; [|split].
  - apply buildChartPayload_significant.
  - intros config1 config2 Heq.
    rewrite <- (buildChartPayload_significant config1),
            <- (buildChartPayload_significant config2).
    by rewrite Heq.
  - intros config payload. subst payload.
    destruct (buildChartPayload_lists config) as [-> ->].
    rewrite !length_fmap. split_and!; try reflexivity.
    + apply Forall_fmap, Forall_forall. intros i _.
      apply study_of_well_formed.
    + apply Forall_fmap, Forall_forall. intros d _.
      apply payload_drawing_of_well_formed.
Qed.
End Payload.

(** ** The users table *)

Section Users.

Lemma users_set_fresh k v m :
  Forall (fun kv => kv.1 <> k) m -> users_set k v m = (m ++ [(k, v)])%list.
Proof.
  induction 1 as [|[k' v'] m Hk _ IH]; simpl; [done|].
  simpl in Hk. rewrite decide_False by done. by rewrite IH.
Qed.

Lemma users_after_snoc ins i :
  users_after (ins ++ [i]) = (createUser i (users_after ins)).2.
Proof. unfold users_after. by rewrite foldl_app. Qed.

Lemma users_after_spec ins :
  Z.of_nat (length ins) < MAX_EXACT - 1 ->
  users_after ins
  = {| users := imap entry_of ins;
       currentUserId := Z.of_nat (length ins) + 1 |}.
Proof.
  induction ins as [|i ins IH] using rev_ind; intros Hlen; [done|].
  rewrite length_app in Hlen. simpl in Hlen.
  rewrite users_after_snoc, IH by lia. unfold createUser. simpl.
  rewrite imap_app, length_app. simpl. f_equal.
  - rewrite users_set_fresh.
    + unfold entry_of, nth_user. do 4 f_equal; lia.
    + apply Forall_forall. intros [k v] Hin.
      apply elem_of_lookup_imap in Hin as (n & u & [= -> _] & Hn).
      apply lookup_lt_Some in Hn. simpl. lia.
  - unfold js_incr. destruct (Z.ltb_spec (Z.of_nat (length ins) + 1) MAX_EXACT);
      [clear; lia|exfalso; lia].
Qed.

Lemma users_get_imap off ins (n : nat) :
  users_get (Z.of_nat (off + n) + 1)
            (imap (fun k => entry_of (off + k)) ins)
  = nth_user (off + n) <$> ins !! n.
Proof.
  revert off n. induction ins as [|i ins IH]; intros off n; [done|].
  simpl. destruct n as [|n].
  - rewrite Nat.add_0_r. unfold entry_of at 1. simpl.
    by rewrite decide_True.
  - unfold entry_of at 1. simpl. rewrite decide_False by lia.
    replace (off + S n)%nat with (S off + n)%nat by lia.
    rewrite <- (IH (S off) n). f_equal. apply imap_ext.
    intros k x _. unfold entry_of. simpl.
    by replace (off + S k)%nat with (S (off + k)) by lia.
Qed.

Lemma users_get_out_of_range k ins :
  (k < 1 \/ Z.of_nat (length ins) < k) ->
  users_get k (imap entry_of ins) = None.
Proof.
  intros Hk.
  assert (Hnot : Forall (fun kv => kv.1 <> k) (imap entry_of ins)).
  { apply Forall_forall. intros [k' v] Hin.
    apply elem_of_lookup_imap in Hin as (n & u & [= -> _] & Hn).
    apply lookup_lt_Some in Hn. simpl. lia. }
  induction Hnot as [|[k' v] m Hk' _ IH]; simpl; [done|].
  simpl in Hk'. by rewrite decide_False.
Qed.

Lemma find_imap_users name off ins :
  snd <$> list_find (fun u => username u = name)
            (imap (fun k => entry_of (off + k)) ins).*2
  = (fun p => nth_user (off + p.1) p.2)
      <$> list_find (fun i => iu_username i = name) ins.
Proof.
  revert off. induction ins as [|i ins IH]; intros off; [done|].
  simpl. unfold entry_of at 1. simpl.
  destruct (decide (iu_username i = name)) as [Heq|Hne].
  - reflexivity.
  - rewrite <- !option_fmap_compose.
    specialize (IH (S off)).
    rewrite (imap_ext _ (fun k => entry_of (S off + k)))
      by (intros k x _; unfold entry_of; simpl;
          by replace (off + S k)%nat with (S (off + k)) by lia).
    match goal with
    | |- _ <$> ?A = _ <$> ?B =>
        assert (HIH : snd <$> A
                      = (fun p => nth_user (S off + p.1) p.2) <$> B)
          by exact IH;
        clear IH; destruct A as [[j u]|], B as [[j' i']|]
    end; simpl in *; try discriminate; [|done].
    injection HIH as ->.
    by replace (off + S j')%nat with (S (off + j')) by lia.
Qed.

(** X19. User ids are consecutive and every created user is read back: on a
    fresh storage, after [createUser] has been called for the elements of
    [ins] (fewer than 2^53 - 1 of them), the call number [n] (from 0) has
    created the user with id [n + 1] and the given name and password,
    [getUser(n + 1)] returns exactly that user, the counter stands at
    [length ins + 1], and [getUser] of any id outside 1..length returns
    nothing. *)
Theorem created_users_are_read_back ins :
  Z.of_nat (length ins) < MAX_EXACT - 1 ->
  let t := users_after ins in
  currentUserId t = Z.of_nat (length ins) + 1 /\
  (forall (n : nat), getUser (Z.of_nat n + 1) t = nth_user n <$> ins !! n) /\
  (forall k, k < 1 \/ Z.of_nat (length ins) < k -> getUser k t = None).
Proof.
  intros Hlen t. subst t. rewrite users_after_spec by done.
  unfold getUser. simpl. split_and!.
  - done.
  - intros n. apply (users_get_imap 0 ins n).
  - intros k Hk. by apply users_get_out_of_range.
Qed.

(** X20. [MemStorage] does not enforce unique user names: [createUser]
    accepts a name that is already taken, and [getUserByUsername] returns
    the user created first with that name (and nothing when no call used
    the name). *)
Theorem getUserByUsername_returns_the_first ins name :
  Z.of_nat (length ins) < MAX_EXACT - 1 ->
  getUserByUsername name (users_after ins)
  = (fun p => nth_user p.1 p.2)
      <$> list_find (fun i => iu_username i = name) ins.
Proof.
  intros Hlen. rewrite users_after_spec by done.
  unfold getUserByUsername. simpl. apply (find_imap_users name 0 ins).
Qed.
End Users.

Lemma created_users_are_read_back_witness :
  getUser 2 (users_after [{| iu_username := "ann"; iu_password := "a" |};
                          {| iu_username := "bob"; iu_password := "b" |}])
  = Some {| user_id := 2; username := "bob"; password := "b" |}.
Proof.
  destruct (created_users_are_read_back
              [{| iu_username := "ann"; iu_password := "a" |};
               {| iu_username := "bob"; iu_password := "b" |}])
    as (_ & Hget & _); [vm_compute; reflexivity|].
  exact (Hget 1%nat).
Defined.

Lemma getUserByUsername_returns_the_first_witness :
  getUserByUsername "ann"
    (users_after [{| iu_username := "ann"; iu_password := "a" |};
                  {| iu_username := "bob"; iu_password := "b" |};
                  {| iu_username := "ann"; iu_password := "c" |}])
  = Some {| user_id := 1; username := "ann"; password := "a" |}.
Proof.
  rewrite getUserByUsername_returns_the_first by (vm_compute; reflexivity).
  reflexivity.
Defined.

(** ** The generate route, end to end *)

Section Lifecycle.
Context (clock : nat -> Z) (toFixed1 : Z -> string).

Lemma sendEvent_steps clientId eventType message requestId_ data w :
  exists w',
    sendEvent clock clientId eventType message requestId_ data w = Ret tt w' /\
    ledger w' = ledger w /\ (ticks w <= ticks w')%nat.
Proof.
  destruct (never_throws_returns
              (sendEvent clock clientId eventType message requestId_ data) w
              (sendEvent_total clock _ _ _ _ _)) as ([] & w' & Hrun).
  exists w'. split; [done|].
  pose proof (sendEvent_ledger clock clientId eventType message requestId_
                data w) as Hl.
  rewrite Hrun in Hl. split; [exact Hl|].
  rewrite sendEvent_run in Hrun.
  destruct (JsMap.get clientId (clients w)) as [client|];
    [|by injection Hrun as <-].
  cbv zeta in Hrun. destruct (failing (stream_of (response client) w)).
  - rewrite removeClient_run in Hrun. simpl clients in Hrun.
    destruct (JsMap.get clientId (clients w)); injection Hrun as <-; simpl; lia.
  - destruct (decide (requestId_ <> "system")); injection Hrun as <-;
      simpl; lia.
Qed.

Ltac send_step :=
  match goal with
  | |- context [sendEvent ?c ?a ?b ?m ?r ?d ?w] =>
      let w' := fresh "w" in
      let Hs := fresh "Hsend" in
      let Hl := fresh "Hledger" in
      let Ht := fresh "Hticks" in
      destruct (sendEvent_steps a b m r d w) as (w' & Hs & Hl & Ht);
      rewrite Hs; clear Hs; simpl in Ht;
      change (ledger (set_ticks _ ?x)) with (ledger x) in Hl
  end.

Lemma generateChart_begin_run config requestId_ clientId w :
  exists w',
    generateChart_begin clock config requestId_ clientId w
      = Ret (clock (ticks w)) w' /\
    ledger w' = ledger w /\ (ticks w < ticks w')%nat.
Proof.
  unfold generateChart_begin, bind, when, ret, Date_now.
  destruct (truthy clientId); cbv beta iota.
  - do 2 send_step. eexists. split; [reflexivity|]. split; [congruence|lia].
  - eexists. split; [reflexivity|]. split; [done|]. simpl. lia.
Qed.

Lemma generateChart_finish_run config requestId_ clientId startTime outcome w :
  exists w' (k : nat),
    generateChart_finish clock toFixed1 config requestId_ clientId startTime
                         outcome w
      = Ret (response_of outcome (clock k - startTime)) w' /\
    ledger w' = ledger w /\ (ticks w <= k)%nat /\ (k < ticks w')%nat.
Proof.
  unfold generateChart_finish, try_catch, bind, throw, when, ret, Date_now.
  destruct outcome, (truthy clientId); cbv beta iota;
    repeat send_step; cbv beta iota;
    eexists _, _; (split; [reflexivity|]);
    (split; [unfold ledger in *; simpl in *; congruence | simpl; lia]).
Qed.

Lemma generate_create_and_announce_run config clientId w :
  exists cr w0 w1,
    createChartRequest clock config w = Ret cr w0 /\
    generate_create_and_announce clock config clientId w = Ret cr w1 /\
    ledger w1 = JsMap.set (requestId cr) cr (ledger w) /\
    (S (ticks w) < ticks w1)%nat.
Proof.
  destruct (createChartRequest_facts clock config w)
    as (cr & w0 & Hcreate & _ & _ & Hl0 & _ & _ & Ht0).
  unfold generate_create_and_announce, bind at 1. rewrite Hcreate.
  unfold when, bind, ret. destruct (truthy clientId).
  - send_step. eexists _, _, _. split; [reflexivity|]. split; [reflexivity|].
    split; [congruence|lia].
  - eexists _, _, _. split; [reflexivity|]. split; [reflexivity|].
    split; [done|lia].
Qed.

(** The handler of the generate route on a valid body. *)
Lemma handler_run body config clientId w :
  Zod.chartConfigSchema_parse body = inr config ->
  exists cr w0 w3 (k0 : nat),
    createChartRequest clock config w = Ret cr w0 /\
    generate_handler clock body clientId w
      = Ret (ReplyStarted (requestId cr),
             Some {| fl_config := config; fl_requestId := requestId cr;
                     fl_clientId := clientId; fl_startTime := clock k0 |}) w3 /\
    JsMap.get (requestId cr) (ledger w3)
      = Some (spread cr (status_update "processing")) /\
    (S (ticks w) < k0 < ticks w3)%nat.
Proof.
  intros Hparse.
  destruct (generate_create_and_announce_run config clientId w)
    as (cr & w0 & w1 & Hcreate & H1 & Hl1 & Ht1).
  assert (Hget1 : JsMap.get (requestId cr) (ledger w1) = Some cr).
  { rewrite Hl1. apply JsMapFacts.get_set_eq. }
  assert (H2 : exists w2,
             generate_mark_processing cr w1 = Ret tt w2 /\
             JsMap.get (requestId cr) (ledger w2)
               = Some (spread cr (status_update "processing")) /\
             ticks w2 = ticks w1).
  { unfold generate_mark_processing, bind. rewrite updateChartRequest_run, Hget1.
    eexists. split; [reflexivity|]. split; [|reflexivity].
    apply JsMapFacts.get_set_eq. }
  destruct H2 as (w2 & H2 & Hget2 & Ht2).
  destruct (generateChart_begin_run config (requestId cr) clientId w2)
    as (w3 & H3 & Hl3 & Ht3).
  exists cr, w0, w3, (ticks w2). split; [exact Hcreate|]. split; [|split].
  - unfold generate_handler, try_catch, bind, ret.
    by rewrite Hparse, H1, H2, H3.
  - by rewrite Hl3.
  - lia.
Qed.

(** One whole accepted request, whatever the sessions and streams do. *)
Lemma lifecycle_run body config clientId outcome w :
  Zod.chartConfigSchema_parse body = inr config ->
  exists cr w0 w5 (k0 k kc : nat),
    createChartRequest clock config w = Ret cr w0 /\
    generate_lifecycle clock toFixed1 body clientId outcome w
      = Ret (ReplyStarted (requestId cr)) w5 /\
    (S (ticks w) < k0 <= k)%nat /\ (k < kc)%nat /\
    JsMap.get (requestId cr) (ledger w5)
      = Some (spread (spread cr (status_update "processing"))
                (outcome_update (response_of outcome (clock k - clock k0))
                                (clock kc))).
Proof.
  intros Hparse.
  destruct (handler_run body config clientId w Hparse)
    as (cr & w0 & w3 & k0 & Hcreate & Hhandler & Hget3 & Ht3).
  destruct (generateChart_finish_run config (requestId cr) clientId
              (clock k0) outcome w3)
    as (w4 & k & H4 & Hl4 & Ht4 & Ht4').
  set (res := response_of outcome (clock k - clock k0)) in *.
  assert (Hget4 : JsMap.get (requestId cr) (ledger w4)
                  = Some (spread cr (status_update "processing"))).
  { by rewrite Hl4. }
  assert (H5 : exists w5,
             generate_record_result clock (requestId cr) res w4 = Ret tt w5 /\
             JsMap.get (requestId cr) (ledger w5)
               = Some (spread (spread cr (status_update "processing"))
                         (outcome_update res (clock (ticks w4))))).
  { unfold generate_record_result, outcome_update, bind, Date_now, ret.
    destruct (success res); rewrite updateChartRequest_run;
      change (ledger (set_ticks ?n w4)) with (ledger w4); rewrite Hget4;
      (eexists; split; [reflexivity|]); apply JsMapFacts.get_set_eq. }
  destruct H5 as (w5 & H5 & Hget5).
  exists cr, w0, w5, k0, k, (ticks w4).
  split; [exact Hcreate|]. split; [|split; [lia|split; [lia|exact Hget5]]].
  unfold generate_lifecycle, bind. rewrite Hhandler. simpl.
  unfold generate_settle, try_catch, bind. simpl. by rewrite H4, H5.
Qed.

(** X21.  However the upstream call settles, and whether or not the client
    is connected, an accepted request ends in the ledger as [completed] with
    the chart and no error, or as [failed] with the error message and no
    chart; the status route then reports exactly that. *)
Theorem settled_request_is_reported body config clientId outcome w :
  Zod.chartConfigSchema_parse body = inr config ->
  exists rid w' r sbody,
    generate_lifecycle clock toFixed1 body clientId outcome w
      = Ret (ReplyStarted rid) w' /\
    getChartRequest rid w' = Ret (Some r) w' /\
    route_status rid w' = Ret (StatusOk sbody) w' /\
    symbol r = cfg_symbol config /\
    sb_status sbody = status r /\
    if outcome_succeeds outcome then
      status r = "completed" /\ errorMessage r = Null /\
      chartUrl r = of_optional (url (response_of outcome 0)) /\
      base64Data r = of_optional (base64 (response_of outcome 0)) /\
      (exists chart, sb_chart sbody = Some chart /\
                     ci_url chart = chartUrl r /\
                     ci_base64 chart = base64Data r) /\
      sb_error sbody = None
    else
      status r = "failed" /\
      errorMessage r = Has (failure_message outcome) /\
      chartUrl r = Null /\ base64Data r = Null /\
      sb_chart sbody = None /\
      sb_error sbody = Some (Has (failure_message outcome)).
Proof.
  intros Hparse.
  destruct (lifecycle_run body config clientId outcome w Hparse)
    as (cr & w0 & w5 & k0 & k & kc & Hcreate & Hrun & _ & _ & Hget).
  rewrite createChartRequest_run in Hcreate. cbv zeta in Hcreate.
  injection Hcreate as Hcr _.
  eexists _, w5, _, _. split; [exact Hrun|].
  assert (Hread : getChartRequest (requestId cr) w5
                  = Ret (JsMap.get (requestId cr) (ledger w5)) w5) by done.
  split; [by rewrite Hread, Hget|].
  unfold route_status, bind. rewrite Hread, Hget. cbv zeta.
  split; [reflexivity|].
  destruct outcome; simpl; rewrite <-Hcr; simpl; split_and!; eauto.
Qed.

(** X22.  Under a clock that never runs backwards, a settled request has a
    processing time that is not negative and a completion time that is not
    before its creation time. *)
Theorem processing_time_is_not_negative body config clientId outcome w :
  monotone clock ->
  Zod.chartConfigSchema_parse body = inr config ->
  exists rid w' r d t,
    generate_lifecycle clock toFixed1 body clientId outcome w
      = Ret (ReplyStarted rid) w' /\
    JsMap.get rid (ledger w') = Some r /\
    processingTime r = Has d /\ 0 <= d /\
    completedAt r = Has t /\ createdAt r <= t.
Proof.
  intros Hmono Hparse.
  destruct (lifecycle_run body config clientId outcome w Hparse)
    as (cr & w0 & w5 & k0 & k & kc & Hcreate & Hrun & Hk & Hkc & Hget).
  rewrite createChartRequest_run in Hcreate. cbv zeta in Hcreate.
  injection Hcreate as Hcr _.
  pose proof (Hmono k0 k ltac:(lia)) as Hd.
  pose proof (Hmono (S (ticks w)) kc ltac:(lia)) as Ht.
  eexists _, w5, _, (clock k - clock k0), (clock kc).
  split; [exact Hrun|]. split; [exact Hget|].
  destruct outcome; simpl; rewrite <-Hcr; simpl; (split_and!; [done|lia|done|lia]).
Qed.

(** X23.  Between the reply of the generate route and the settlement of the
    upstream call, the request is in the ledger under the identifier of the
    reply with status [processing], and the status route reports it without
    chart, processing time or error. *)
Theorem accepted_request_is_processing body config clientId w :
  Zod.chartConfigSchema_parse body = inr config ->
  exists rid fl w' sbody,
    generate_handler clock body clientId w
      = Ret (ReplyStarted rid, Some fl) w' /\
    fl_requestId fl = rid /\
    rid = request_id (clock (ticks w)) (currentChartId (storage w)) /\
    route_status rid w' = Ret (StatusOk sbody) w' /\
    sb_requestId sbody = rid /\
    sb_status sbody = "processing" /\
    sb_symbol sbody = cfg_symbol config /\
    sb_chart sbody = None /\ sb_processingTime sbody = None /\
    sb_error sbody = None.
Proof.
  intros Hparse.
  destruct (handler_run body config clientId w Hparse)
    as (cr & w0 & w3 & k0 & Hcreate & Hhandler & Hget & _).
  rewrite createChartRequest_run in Hcreate. cbv zeta in Hcreate.
  injection Hcreate as Hcr _.
  eexists _, _, w3, _. split; [exact Hhandler|]. split; [reflexivity|].
  split; [by rewrite <-Hcr|].
  assert (Hread : getChartRequest (requestId cr) w3
                  = Ret (JsMap.get (requestId cr) (ledger w3)) w3) by done.
  unfold route_status, bind. rewrite Hread, Hget. cbv zeta.
  split; [reflexivity|]. simpl. rewrite <-Hcr. simpl. done.
Qed.
End Lifecycle.

Lemma clock0_monotone : monotone clock0.
Proof. intros i j Hij. unfold clock0. lia. Qed.

Lemma settled_request_is_reported_witness :
  exists rid w' r sbody,
    generate_lifecycle clock0 toFixed0 (Some body0) None (FetchNotOk 500 "down")
                       initial_world = Ret (ReplyStarted rid) w' /\
    getChartRequest rid w' = Ret (Some r) w' /\
    route_status rid w' = Ret (StatusOk sbody) w' /\
    status r = "failed" /\
    sb_error sbody = Some (Has "Chart-IMG API error: 500 down").
Proof.
  destruct (settled_request_is_reported clock0 toFixed0 (Some body0) config0
              None (FetchNotOk 500 "down") initial_world eq_refl)
    as (rid & w' & r & sbody & Hrun & Hget & Hroute & _ & _ & Hst & _ & _ & _ &
        _ & Herr).
  exists rid, w', r, sbody. repeat split; assumption.
Defined.

Lemma processing_time_is_not_negative_witness :
  exists rid w' r d t,
    generate_lifecycle clock0 toFixed0 (Some body0) (Some "c1")
                       (FetchPng "iVBOR") world_one_session
      = Ret (ReplyStarted rid) w' /\
    JsMap.get rid (ledger w') = Some r /\
    processingTime r = Has d /\ 0 <= d /\
    completedAt r = Has t /\ createdAt r <= t.
Proof.
  exact (processing_time_is_not_negative clock0 toFixed0 (Some body0) config0
           (Some "c1") (FetchPng "iVBOR") world_one_session clock0_monotone
           eq_refl).
Defined.

Lemma accepted_request_is_processing_witness :
  exists rid fl w' sbody,
    generate_handler clock0 (Some body0) None initial_world
      = Ret (ReplyStarted rid, Some fl) w' /\
    rid = "req_1000_1" /\
    route_status rid w' = Ret (StatusOk sbody) w' /\
    sb_status sbody = "processing".
Proof.
  destruct (accepted_request_is_processing clock0 (Some body0) config0 None
              initial_world eq_refl)
    as (rid & fl & w' & sbody & Hrun & _ & Hrid & Hroute & _ & Hst & _).
  exists rid, fl, w', sbody. repeat split; assumption.
Defined.

(** ** The recent route *)

Section Routes.
Context (clock : nat -> Z).

(** X25.  The recent route never fails and leaves the server as it was.  It
    lists stored requests only; without a usable [limit] (absent, not a
    number, or 0) it lists at most 10 of them, with a positive [limit] at
    most that many, and with a negative [limit] all but the last [-limit]
    of the sorted list. *)
Theorem route_recent_limit parsed w :
  exists items,
    route_recent parsed w = Ret items w /\
    (forall item, item ∈ items ->
       exists r, r ∈ JsMap.values (ledger w) /\ item = recent_item r) /\
    Z.of_nat (length items) =
      match parsed with
      | None => Z.min 10 (JsMap.size (ledger w))
      | Some n =>
          if decide (n = 0) then Z.min 10 (JsMap.size (ledger w))
          else if n <? 0 then Z.max (JsMap.size (ledger w) + n) 0
          else Z.min n (JsMap.size (ledger w))
      end.
Proof.
  set (sorted := js_sort newest_first (JsMap.values (ledger w))).
  exists (recent_item <$> slice0 (recent_limit parsed) sorted).
  split; [reflexivity|]. split.
  - intros item (r & -> & Hr)%list_elem_of_fmap. exists r. split; [|done].
    unfold slice0 in Hr. apply elem_of_take in Hr as (i & Hi & _).
    apply list_elem_of_lookup_2 in Hi. unfold sorted in Hi.
    by rewrite js_sort_perm in Hi.
  - rewrite length_fmap, length_slice0.
    assert (Hlen : Z.of_nat (length sorted) = JsMap.size (ledger w)).
    { unfold sorted, JsMap.size, JsMap.values.
      by rewrite js_sort_perm, length_fmap. }
    rewrite Hlen. unfold recent_limit.
    destruct parsed as [n|]; [|reflexivity].
    destruct (decide (n = 0)); reflexivity.
Qed.
End Routes.

(** ** Instances *)

Lemma events_filed_under_their_request_witness :
  exists events,
    getSseEvents "req_1001_1" world_one_request
      = Ret events world_one_request /\
    Forall (fun e => ev_requestId e = "req_1001_1") events.
Proof.
  apply (events_filed_under_their_request clock0 toFixed0 world_one_request
           "req_1001_1").
  apply reachable_run_calls. constructor.
Defined.

Lemma event_ids_are_unique_witness :
  "req_1001_1" = "req_1001_1" /\
  first_event_of_request = first_event_of_request.
Proof.
  apply (event_ids_are_unique clock0 toFixed0 world_one_request
           "req_1001_1" "req_1001_1"
           first_event_of_request first_event_of_request).
  - apply reachable_run_calls. constructor.
  - vm_compute. reflexivity.
  - vm_compute. apply list_elem_of_here.
  - vm_compute. apply list_elem_of_here.
  - reflexivity.
Defined.

Lemma parsed_config_is_valid_witness : valid_config config0.
Proof.
  apply (parsed_config_is_valid (Some body0) config0). reflexivity.
Defined.

(** * The turns of the event loop *)

Section TurnCalculus.
Context (clock : nat -> Z).

Lemma shown_same w W r T :
  (forall h, chunks (stream_of h W) = chunks (stream_of h w)) ->
  event_store W = event_store w ->
  shown W r T -> shown w r T.
Proof.
  intros Hc He [(h & d & Hd & Hr & HT)|(e & Hin & HT)].
  - left. exists h, d. by rewrite <- Hc.
  - right. exists e. unfold history in *. by rewrite <- He.
Qed.

Lemma shown_delta_intro w w' r Ts :
  (forall h d, ChunkData d ∈ chunks (stream_of h w') ->
               ChunkData d ∈ chunks (stream_of h w) \/
               (ed_requestId d = r /\ toUpperCase (ed_type d) ∈ Ts)) ->
  (forall r' e, e ∈ history r' w' ->
                e ∈ history r' w \/ (r' = r /\ ev_eventType e ∈ Ts)) ->
  shown_delta w w' r Ts.
Proof.
  intros Hc He r' T [(h & d & Hd & Hr & HT)|(e & Hin & HT)].
  - destruct (Hc h d Hd) as [Hold|[Hr' HT']].
    + left. left. by exists h, d.
    + right. split; congruence.
  - destruct (He r' e Hin) as [Hold|[Hr' HT']].
    + left. right. by exists e.
    + right. split; congruence.
Qed.

Lemma shown_delta_same w w' r Ts :
  (forall h, chunks (stream_of h w') = chunks (stream_of h w)) ->
  event_store w' = event_store w ->
  shown_delta w w' r Ts.
Proof. intros Hc He r' T Hs. left. by apply (shown_same w w'). Qed.

Lemma shown_delta_trans w1 w2 w3 r Ts :
  shown_delta w1 w2 r Ts -> shown_delta w2 w3 r Ts -> shown_delta w1 w3 r Ts.
Proof.
  intros H12 H23 r' T Hs. destruct (H23 r' T Hs) as [Hs2|?]; [|by right].
  by apply H12.
Qed.

Lemma shown_delta_weaken w w' r Ts Ts' :
  Ts ⊆ Ts' -> shown_delta w w' r Ts -> shown_delta w w' r Ts'.
Proof.
  intros Hsub Hd r' T Hs. destruct (Hd r' T Hs) as [?|[? ?]]; [by left|].
  right. split; [done|]. by apply Hsub.
Qed.

(** *** Rules *)

Lemma emits_ret {A} r Ts (Q : Exn + A -> Prop) a :
  Q (inr a) -> emits r Ts Q (ret a).
Proof.
  intros HQ w. unfold ret. simpl. split_and!; try done.
  by apply shown_delta_same.
Qed.

Lemma emits_throw {A} r Ts (Q : Exn + A -> Prop) e :
  Q (inl e) -> emits r Ts Q (throw e).
Proof.
  intros HQ w. unfold throw. simpl. split_and!; try done.
  by apply shown_delta_same.
Qed.

Lemma emits_bind {A B} r Ts (Q : Exn + B -> Prop) (m : M A) (k : A -> M B) :
  emits r Ts (fun o => match o with
                       | inl e => Q (inl e)
                       | inr a => emits r Ts Q (k a)
                       end) m ->
  emits r Ts Q (bind m k).
Proof.
  intros Hm w. destruct (Hm w) as (HQ & Hl & Hc & Hd). unfold bind.
  destruct (m w) as [a w1|e w1]; simpl in *.
  - destruct (HQ w1) as (HQ' & Hl' & Hc' & Hd').
    split_and!; [done|congruence|congruence|].
    by apply shown_delta_trans with w1.
  - done.
Qed.

Lemma emits_try_catch {A} r Ts (Q : Exn + A -> Prop) (m : M A) h :
  emits r Ts (fun o => match o with
                       | inl e => emits r Ts Q (h e)
                       | inr a => Q (inr a)
                       end) m ->
  emits r Ts Q (try_catch m h).
Proof.
  intros Hm w. destruct (Hm w) as (HQ & Hl & Hc & Hd). unfold try_catch.
  destruct (m w) as [a w1|e w1]; simpl in *.
  - done.
  - destruct (HQ w1) as (HQ' & Hl' & Hc' & Hd').
    split_and!; [done|congruence|congruence|].
    by apply shown_delta_trans with w1.
Qed.

Lemma emits_when r Ts (Q : Exn + unit -> Prop) b m :
  emits r Ts Q m -> Q (inr tt) -> emits r Ts Q (when b m).
Proof. intros Hm HQ. destruct b; [done|]. by apply emits_ret. Qed.

Lemma emits_Date_now r Ts (Q : Exn + Z -> Prop) :
  (forall t, Q (inr t)) -> emits r Ts Q (Date_now clock).
Proof.
  intros HQ w. unfold Date_now. simpl. split_and!; try done.
  by apply shown_delta_same.
Qed.

Lemma emits_conseq {A} r Ts (Q Q' : Exn + A -> Prop) m :
  emits r Ts Q m -> (forall o, Q o -> Q' o) -> emits r Ts Q' m.
Proof.
  intros Hm HQ w. destruct (Hm w) as (? & ? & ? & ?). split_and!; auto.
Qed.

Lemma emits_sendEvent r Ts (Q : Exn + unit -> Prop)
    clientId eventType message data :
  toUpperCase eventType ∈ Ts -> Q (inr tt) ->
  emits r Ts Q (sendEvent clock clientId eventType message r data).
Proof.
  intros HT HQ w. rewrite sendEvent_run.
  destruct (JsMap.get clientId (clients w)) as [client|] eqn:Hget.
  2:{ simpl. split_and!; try done. by apply shown_delta_same. }
  cbv zeta. destruct (failing (stream_of (response client) w)) eqn:Hf.
  - rewrite removeClient_run. simpl clients. rewrite Hget. simpl.
    split_and!; try done. apply shown_delta_same; [|done].
    intros h.
    change (stream_of h (set_clients ?c ?x)) with (stream_of h x).
    destruct (decide (response client = h)) as [<-|Hne].
    + by rewrite stream_of_close.
    + by rewrite stream_of_close_ne.
  - set (w2 := push_chunks _ _ _).
    assert (Hchunks : forall h d,
               ChunkData d ∈ chunks (stream_of h w2) ->
               ChunkData d ∈ chunks (stream_of h w) \/
               (ed_requestId d = r /\ toUpperCase (ed_type d) ∈ Ts)).
    { intros h d. subst w2.
      destruct (decide (response client = h)) as [<-|Hne].
      - rewrite stream_of_push. simpl.
        change (stream_of (response client) (set_ticks _ w))
          with (stream_of (response client) w).
        rewrite elem_of_app. intros [?|Hin]; [by left|]. right.
        unfold frames in Hin. rewrite !elem_of_cons, elem_of_nil in Hin.
        destruct Hin as [?|[[= ->]|[]]]; [discriminate|]. by simpl.
      - rewrite stream_of_push_ne by done. by left. }
    destruct (decide (r <> "system")).
    + cbn [outcome_of world_of].
      split_and!; [done|by rewrite createSseEvent_run..|].
      apply shown_delta_intro.
      * intros h d. rewrite createSseEvent_run. cbv zeta. exact (Hchunks h d).
      * intros r' e. rewrite history_after_createSseEvent. simpl.
        destruct (decide (r = r')) as [<-|Hne]; [|by left].
        change (history r w2) with (history r w).
        rewrite elem_of_app, list_elem_of_singleton.
        intros [?| ->]; [by left|]. right. by simpl.
    + cbn [outcome_of world_of].
      split_and!; try done. apply shown_delta_intro; [exact Hchunks|].
      intros r' e ?. by left.
Qed.
End TurnCalculus.

Ltac solve_member :=
  vm_compute; repeat first [apply list_elem_of_here | apply list_elem_of_further].

(** Membership in explicit lists, by cases. *)
Ltac in_list :=
  unfold subseteq, list_subseteq in *; intros;
  cbn [app fetch_event_types body_event_types] in *;
  rewrite ?elem_of_cons, ?elem_of_nil in *; tauto.

Ltac emits_step :=
  lazymatch goal with
  | |- emits _ _ _ (ret _) => apply emits_ret
  | |- emits _ _ _ (throw _) => apply emits_throw
  | |- emits _ _ _ (bind _ _) => apply emits_bind
  | |- emits _ _ _ (try_catch _ _) => apply emits_try_catch
  | |- emits _ _ _ (Date_now _) => apply emits_Date_now; intros ?
  | |- emits _ _ _ (when _ _) => apply emits_when
  | |- emits _ _ _ (sendEvent _ _ _ _ _ _) =>
      apply emits_sendEvent; [solve_member|]
  end;
  cbv beta iota.

Section TurnEffects.
Context (clock : nat -> Z) (toFixed1 : Z -> string).

Lemma generateChart_begin_emits config r clientId :
  emits r ["REQUEST"; "PROGRESS"] (fun o => exists t, o = inr t)
        (generateChart_begin clock config r clientId).
Proof. unfold generateChart_begin. repeat emits_step; eauto. Qed.

Lemma generateChart_catch_emits r Ts clientId startTime e :
  "ERROR" ∈ Ts ->
  emits r Ts (fun o => exists result, o = inr result /\ success result = false)
        (generateChart_catch clock r clientId startTime e).
Proof.
  intros HT. unfold generateChart_catch. cbv zeta.
  apply emits_bind, emits_when; cbv beta iota.
  - apply emits_sendEvent; [exact HT|]. cbv beta iota.
    repeat emits_step. eauto.
  - repeat emits_step. eauto.
Qed.

Lemma generateChart_return_emits r Ts clientId startTime result :
  "SUCCESS" ∈ Ts ->
  emits r Ts (fun o => o = inr result)
        (generateChart_return clock toFixed1 r clientId startTime result).
Proof.
  intros HT. unfold generateChart_return. apply emits_bind.
  destruct (truthy clientId).
  - apply emits_bind, emits_Date_now. intros t. cbv beta iota.
    apply emits_sendEvent; [exact HT|]. by apply emits_ret.
  - apply emits_ret. by apply emits_ret.
Qed.

Lemma generateChart_after_fetch_emits r clientId startTime settled :
  emits r (fetch_event_types settled)
    (fun o =>
       match settled with
       | Rejected _ | OtherType =>
           exists result, o = inr (inl result) /\ success result = false
       | NotOk http_status => o = inr (inr (ReadText http_status))
       | JsonType => o = inr (inr ReadJson)
       | PngType => o = inr (inr ReadArrayBuffer)
       end)
    (generateChart_after_fetch clock r clientId startTime settled).
Proof.
  unfold generateChart_after_fetch.
  assert (Hcatch : forall Ts e, "ERROR" ∈ Ts ->
            emits r Ts
              (fun o => exists result,
                          o = inr (inl result : ChartImgResponse + BodyRead) /\
                          success result = false)
              (let* result := generateChart_catch clock r clientId startTime e
               in ret (inl result))).
  { intros Ts e HT. apply emits_bind.
    eapply emits_conseq; [by apply generateChart_catch_emits|].
    intros o (result & -> & Hs). apply emits_ret. eauto. }
  destruct settled; cbn [fetch_event_types]; apply emits_try_catch.
  - apply emits_throw. apply Hcatch. solve_member.
  - by apply emits_ret.
  - repeat emits_step; done.
  - repeat emits_step; done.
  - apply emits_bind, emits_when; cbv beta iota.
    + apply emits_sendEvent; [solve_member|]. apply emits_throw.
      apply Hcatch. solve_member.
    + apply emits_throw. apply Hcatch. solve_member.
Qed.

Lemma generateChart_after_body_emits r clientId startTime read settled :
  emits r (body_event_types read settled)
    (fun o => exists result,
       o = inr result /\
       success result =
         match body_event_types read settled with
         | ["SUCCESS"] => true
         | _ => false
         end)
    (generateChart_after_body clock toFixed1 r clientId startTime read settled).
Proof.
  destruct read, settled as [e|body];
    cbn [generateChart_after_body body_event_types];
    apply emits_try_catch;
    try (apply emits_throw;
         apply generateChart_catch_emits; solve_member).
  - apply emits_bind, emits_Date_now. intros t. cbv beta iota.
    eapply emits_conseq; [apply generateChart_return_emits; solve_member|].
    intros o ->. eauto.
  - apply emits_bind, emits_Date_now. intros t. cbv beta iota.
    eapply emits_conseq; [apply generateChart_return_emits; solve_member|].
    intros o ->. eauto.
Qed.

(** A computation that emits and is known to return. *)
Lemma emits_returns {A} r Ts (Q : Exn + A -> Prop) (m : M A) w :
  emits r Ts Q m ->
  (forall e, ~ Q (inl e)) ->
  exists a w',
    m w = Ret a w' /\ Q (inr a) /\ ledger w' = ledger w /\
    currentChartId (storage w') = currentChartId (storage w) /\
    shown_delta w w' r Ts.
Proof.
  intros Hm Hno. destruct (Hm w) as (HQ & Hl & Hc & Hd).
  destruct (m w) as [a w'|e w']; simpl in *; [eauto 10|].
  by destruct (Hno e).
Qed.

Lemma generate_record_result_effect r result w :
  exists w',
    generate_record_result clock r result w = Ret tt w' /\
    (is_Some (JsMap.get r (ledger w)) ->
     ledger_status r w'
       = Some (if success result then "completed" else "failed")) /\
    (forall k, k <> r -> JsMap.get k (ledger w') = JsMap.get k (ledger w)) /\
    currentChartId (storage w') = currentChartId (storage w) /\
    heap w' = heap w /\ event_store w' = event_store w.
Proof.
  unfold generate_record_result, bind, Date_now, ret.
  destruct (JsMap.get r (ledger w)) as [rec|] eqn:Hget;
    destruct (success result); rewrite updateChartRequest_run;
    change (ledger (set_ticks ?n w)) with (ledger w); rewrite Hget;
    (eexists; split; [reflexivity|]);
    (split; [intros Hin; try (by destruct Hin);
             unfold ledger_status, ledger; simpl;
             by rewrite JsMapFacts.get_set_eq|]);
    (split; [intros k Hk; unfold ledger; simpl;
             by rewrite ?JsMapFacts.get_set_ne|]);
    done.
Qed.

Lemma shown_delta_frame w w1 w' r Ts :
  shown_delta w w1 r Ts ->
  heap w' = heap w1 -> event_store w' = event_store w1 ->
  shown_delta w w' r Ts.
Proof.
  intros Hd Hh He. apply shown_delta_trans with w1; [done|].
  apply shown_delta_same; [|done]. intros h. unfold stream_of. by rewrite Hh.
Qed.

(** The turn that starts when [fetch] settles. *)
Lemma settle_fetch_effect fl settled w :
  exists next w',
    settle_fetch clock fl settled w = Ret next w' /\
    (forall k, k <> fl_requestId fl ->
               JsMap.get k (ledger w') = JsMap.get k (ledger w)) /\
    currentChartId (storage w') = currentChartId (storage w) /\
    shown_delta w w' (fl_requestId fl) (fetch_event_types settled) /\
    if fetch_ends_request settled
    then next = None /\
         (is_Some (JsMap.get (fl_requestId fl) (ledger w)) ->
          ledger_status (fl_requestId fl) w' = Some "failed")
    else is_Some next /\ ledger w' = ledger w.
Proof.
  unfold settle_fetch, try_catch. unfold bind at 1.
  destruct (emits_returns _ _ _ _ w
              (generateChart_after_fetch_emits (fl_requestId fl)
                 (fl_clientId fl) (fl_startTime fl) settled))
    as (o & w1 & Hrun & HQ & Hl & Hc & Hd).
  { intros e. by destruct settled; [intros (? & ? & _)| | | |intros (? & ? & _)]. }
  rewrite Hrun.
  assert (Hends : forall result,
            o = inl result -> success result = false ->
            exists w',
              (let* _ := generate_record_result clock (fl_requestId fl) result
               in ret None) w1 = Ret (None : option BodyRead) w' /\
              (forall k, k <> fl_requestId fl ->
                         JsMap.get k (ledger w') = JsMap.get k (ledger w)) /\
              currentChartId (storage w') = currentChartId (storage w) /\
              shown_delta w w' (fl_requestId fl) (fetch_event_types settled) /\
              (is_Some (JsMap.get (fl_requestId fl) (ledger w)) ->
               ledger_status (fl_requestId fl) w' = Some "failed")).
  { intros result -> Hs.
    destruct (generate_record_result_effect (fl_requestId fl) result w1)
      as (w' & Hrec & Hst & Hothers & Hc' & Hh & He).
    exists w'. unfold bind. rewrite Hrec. split; [done|].
    rewrite Hs, Hl in Hst. split_and!; try done.
    - intros k Hk. rewrite Hothers by done. by rewrite Hl.
    - congruence.
    - by apply shown_delta_frame with w1. }
  destruct settled; cbn [fetch_ends_request].
  - destruct HQ as (result & [= ->] & Hs).
    destruct (Hends result eq_refl Hs) as (w' & Hrun' & ? & ? & ? & ?).
    exists None, w'. cbv beta iota. rewrite Hrun'. by split_and!.
  - injection HQ as ->. eexists _, w1. split; [reflexivity|].
    split_and!; try done. intros k _. by rewrite Hl.
  - injection HQ as ->. eexists _, w1. split; [reflexivity|].
    split_and!; try done. intros k _. by rewrite Hl.
  - injection HQ as ->. eexists _, w1. split; [reflexivity|].
    split_and!; try done. intros k _. by rewrite Hl.
  - destruct HQ as (result & [= ->] & Hs).
    destruct (Hends result eq_refl Hs) as (w' & Hrun' & ? & ? & ? & ?).
    exists None, w'. cbv beta iota. rewrite Hrun'. by split_and!.
Qed.

(** The turn that starts when the read of the body settles. *)
Lemma settle_body_effect fl read settled w :
  exists w',
    settle_body clock toFixed1 fl read settled w = Ret tt w' /\
    (forall k, k <> fl_requestId fl ->
               JsMap.get k (ledger w') = JsMap.get k (ledger w)) /\
    currentChartId (storage w') = currentChartId (storage w) /\
    shown_delta w w' (fl_requestId fl) (body_event_types read settled) /\
    (is_Some (JsMap.get (fl_requestId fl) (ledger w)) ->
     ledger_status (fl_requestId fl) w'
       = Some match body_event_types read settled with
              | ["SUCCESS"] => "completed"
              | _ => "failed"
              end).
Proof.
  unfold settle_body, try_catch. unfold bind at 1.
  destruct (emits_returns _ _ _ _ w
              (generateChart_after_body_emits (fl_requestId fl)
                 (fl_clientId fl) (fl_startTime fl) read settled))
    as (result & w1 & Hrun & (result' & [= <-] & Hs) & Hl & Hc & Hd).
  { by intros e (? & ? & _). }
  rewrite Hrun.
  destruct (generate_record_result_effect (fl_requestId fl) result w1)
    as (w' & Hrec & Hst & Hothers & Hc' & Hh & He).
  exists w'. rewrite Hrec. split; [done|]. split_and!.
  - intros k Hk. rewrite Hothers by done. by rewrite Hl.
  - congruence.
  - by apply shown_delta_frame with w1.
  - intros Hin. rewrite Hst by by rewrite Hl. rewrite Hs.
    by destruct read, settled.
Qed.

(** The handler on a valid body. *)
Lemma handler_effect body config clientId w :
  Zod.chartConfigSchema_parse body = inr config ->
  exists fl w',
    generate_handler clock body clientId w
      = Ret (ReplyStarted (fl_requestId fl), Some fl) w' /\
    fl_requestId fl
      = request_id (clock (ticks w)) (currentChartId (storage w)) /\
    fl_clientId fl = clientId /\
    ledger_status (fl_requestId fl) w' = Some "processing" /\
    (forall k, k <> fl_requestId fl ->
               JsMap.get k (ledger w') = JsMap.get k (ledger w)) /\
    currentChartId (storage w') = js_incr (currentChartId (storage w)) /\
    shown_delta w w' (fl_requestId fl) ["REQUEST"; "PROGRESS"].
Proof.
  intros Hparse.
  set (rid := request_id (clock (ticks w)) (currentChartId (storage w))).
  pose proof (createChartRequest_run clock config w) as Hcreate.
  cbv zeta in Hcreate.
  fold (request_id (clock (ticks w)) (currentChartId (storage w))) in Hcreate.
  fold rid in Hcreate.
  match type of Hcreate with
  | _ = Ret ?c ?w00 => set (w0 := w00) in Hcreate; set (cr := c) in *
  end.
  unfold generate_handler, try_catch. rewrite Hparse.
  unfold generate_create_and_announce. unfold bind at 1. unfold bind at 1.
  rewrite Hcreate. cbv beta iota. unfold bind at 1.
  destruct (emits_returns rid ["REQUEST"; "PROGRESS"] (fun o => o = inr tt)
              (when (truthy clientId)
                 (sendEvent clock (str_of clientId) "request"
                    ("Chart generation started for " +:+ cfg_symbol config)
                    rid None)) w0)
    as ([] & w1 & Hrun1 & _ & Hl1 & Hc1 & Hd1).
  { repeat emits_step; done. }
  { intros e. discriminate. }
  change (requestId cr) with rid. rewrite Hrun1. cbv beta iota.
  unfold ret at 1. cbv beta iota.
  unfold generate_mark_processing. unfold bind at 1. unfold bind at 1.
  rewrite updateChartRequest_run. change (requestId cr) with rid.
  assert (Hget1 : JsMap.get rid (ledger w1) = Some cr).
  { rewrite Hl1. subst w0. unfold ledger. simpl.
    apply JsMapFacts.get_set_eq. }
  rewrite Hget1. unfold ret at 1. cbv beta iota.
  set (w2 := set_storage _ w1). unfold bind at 1.
  destruct (emits_returns rid ["REQUEST"; "PROGRESS"]
              (fun o => exists t : Z, o = inr t)
              (generateChart_begin clock config rid clientId) w2)
    as (t & w3 & Hrun3 & _ & Hl3 & Hc3 & Hd3).
  { apply generateChart_begin_emits. }
  { intros e (? & ?). discriminate. }
  rewrite Hrun3. cbv beta iota. unfold ret.
  exists {| fl_config := config; fl_requestId := rid; fl_clientId := clientId;
            fl_startTime := t |}, w3.
  split; [reflexivity|]. cbn [fl_requestId fl_clientId].
  split; [reflexivity|]. split; [reflexivity|].
  assert (Hl2 : ledger w2
                = JsMap.set rid (spread cr (status_update "processing"))
                            (ledger w1)) by reflexivity.
  split_and!.
  - unfold ledger_status. rewrite Hl3, Hl2, JsMapFacts.get_set_eq. done.
  - intros k Hk. rewrite Hl3, Hl2, JsMapFacts.get_set_ne by done.
    rewrite Hl1. subst w0. unfold ledger. simpl.
    by rewrite JsMapFacts.get_set_ne.
  - rewrite Hc3. subst w2. simpl. by rewrite Hc1.
  - apply shown_delta_trans with w2; [|exact Hd3].
    apply shown_delta_frame with w1; [|done..].
    apply shown_delta_trans with w0; [|exact Hd1].
    by apply shown_delta_same.
Qed.

Lemma handler_invalid body issues clientId w :
  Zod.chartConfigSchema_parse body = inl issues ->
  generate_handler clock body clientId w = Ret (ReplyInvalid issues, None) w.
Proof. intros Hparse. unfold generate_handler, try_catch. by rewrite Hparse. Qed.

Lemma shown_delta_chunks w w' r Ts :
  storage w' = storage w ->
  (forall h d, ChunkData d ∈ chunks (stream_of h w') ->
               ChunkData d ∈ chunks (stream_of h w) \/
               (ed_requestId d = r /\ toUpperCase (ed_type d) ∈ Ts)) ->
  shown_delta w w' r Ts.
Proof.
  intros Hst Hc. apply shown_delta_intro; [exact Hc|].
  intros r' e He. left. unfold history, event_store in *. by rewrite <- Hst.
Qed.

(** A turn of the session side leaves the storage as it was and shows
    nothing new but a connection event. *)
Lemma session_effect c w :
  session_call c = true ->
  storage (world_of (exec_call clock toFixed1 c w)) = storage w /\
  shown_delta w (world_of (exec_call clock toFixed1 c w))
              "system" ["CONNECTION"].
Proof.
  destruct c as [| | |clientId res l| | | |clientId|clientId res| | |res b];
    try discriminate; intros _; cbn [exec_call].
  - rewrite addClient_run. cbv zeta.
    destruct (failing (stream_of res w)) eqn:Hf; rewrite world_of_Ret.
    + split; [reflexivity|]. apply shown_delta_chunks; [reflexivity|].
      intros h d Hd. left. revert Hd.
      change (stream_of h (set_clients ?c ?x)) with (stream_of h x).
      destruct (decide (res = h)) as [<-|Hne].
      * by rewrite stream_of_close.
      * by rewrite stream_of_close_ne.
    + split; [reflexivity|]. apply shown_delta_chunks; [reflexivity|].
      intros h d.
      destruct (decide (res = h)) as [<-|Hne].
      * rewrite stream_of_push. simpl. rewrite elem_of_app.
        intros [?|Hin]; [by left|]. right.
        unfold frames in Hin. rewrite !elem_of_cons, elem_of_nil in Hin.
        destruct Hin as [?|[[= ->]|[]]]; [discriminate|].
        split; [reflexivity|]. solve_member.
      * rewrite stream_of_push_ne by done. by left.
  - unfold on_close. rewrite removeClient_run.
    destruct (JsMap.get clientId (clients w)) as [client|];
      rewrite world_of_Ret.
    + split; [reflexivity|]. apply shown_delta_chunks; [reflexivity|].
      intros h d Hd. left. revert Hd.
      change (stream_of h (set_clients ?c ?x)) with (stream_of h x).
      destruct (decide (response client = h)) as [<-|Hne].
      * by rewrite stream_of_close.
      * by rewrite stream_of_close_ne.
    + split; [reflexivity|]. by apply shown_delta_same.
  - unfold heartbeat, bind, get_world.
    destruct (JsMap.has clientId (clients w)).
    + rewrite write_run. destruct (failing (stream_of res w)).
      * split; [reflexivity|]. by apply shown_delta_same.
      * rewrite world_of_Ret. split; [reflexivity|].
        apply shown_delta_chunks; [reflexivity|].
        intros h d. destruct (decide (res = h)) as [<-|Hne].
        -- rewrite stream_of_push. simpl. rewrite elem_of_app.
           intros [?|Hin]; [by left|].
           apply list_elem_of_singleton in Hin. discriminate.
        -- rewrite stream_of_push_ne by done. by left.
    + split; [reflexivity|]. by apply shown_delta_same.
  - unfold set_failing. rewrite world_of_Ret. split; [reflexivity|].
    apply shown_delta_chunks; [reflexivity|].
    intros h d Hd. left. revert Hd. unfold stream_of at 1. simpl.
    destruct (decide (res = h)) as [<-|Hne].
    + by rewrite lookup_insert_eq.
    + by rewrite lookup_insert_ne.
Qed.

(** A connection to the events route: likewise. *)
Lemma handleSSEConnection_run clientId res l connected w :
  handleSSEConnection clock clientId res l connected w =
  if failing (stream_of res w) then Throw (JsError "write failed") w
  else addClient clock clientId res l
         (push_chunks res [ChunkText ("data: " +:+ connected +:+ nl +:+ nl)]
            (set_ticks (S (ticks w))
               (push_chunks res [ChunkText ("event: connection" +:+ nl)] w))).
Proof.
  unfold handleSSEConnection, bind, Date_now. rewrite write_run.
  destruct (failing (stream_of res w)) eqn:Hf; [reflexivity|].
  rewrite write_run.
  change (stream_of res (set_ticks ?n ?x)) with (stream_of res x).
  rewrite stream_of_push. cbn [failing]. by rewrite Hf.
Qed.

Lemma connect_effect clientId res l connected w :
  storage (world_of (handleSSEConnection clock clientId res l connected w))
    = storage w /\
  shown_delta w (world_of (handleSSEConnection clock clientId res l
                             connected w))
              "system" ["CONNECTION"].
Proof.
  rewrite handleSSEConnection_run.
  destruct (failing (stream_of res w)) eqn:Hf.
  { split; [reflexivity|]. by apply shown_delta_same. }
  set (w1 := push_chunks res _ w).
  set (w2 := push_chunks res _ (set_ticks _ w1)).
  destruct (session_effect (CallAddClient clientId res l) w2 eq_refl)
    as [Hst Hd].
  cbn [exec_call] in Hst, Hd. split; [by rewrite Hst|].
  apply shown_delta_trans with w2; [|exact Hd].
  apply shown_delta_chunks; [reflexivity|].
  intros h d Hin. left. revert Hin. subst w2 w1.
  destruct (decide (res = h)) as [<-|Hne].
  - rewrite stream_of_push. cbn [chunks].
    change (stream_of res (set_ticks ?n ?x)) with (stream_of res x).
    rewrite stream_of_push. cbn [chunks]. rewrite !elem_of_app.
    intros [[?|Hin]|Hin]; [done|..];
      apply list_elem_of_singleton in Hin; discriminate.
  - rewrite stream_of_push_ne by done.
    change (stream_of h (set_ticks ?n ?x)) with (stream_of h x).
    by rewrite stream_of_push_ne.
Qed.
End TurnEffects.

(** ** The invariant of the turns *)

Section TurnInvariant.
Context (clock : nat -> Z) (toFixed1 : Z -> string).

Lemma status_in_ledger r st w :
  ledger_status r w = Some st -> is_Some (JsMap.get r (ledger w)).
Proof.
  unfold ledger_status. destruct (JsMap.get r (ledger w)); [eauto|discriminate].
Qed.

Lemma minted_not_system w r :
  ledger_keys_minted w ->
  currentChartId (storage w) < MAX_EXACT ->
  is_Some (JsMap.get r (ledger w)) -> r <> "system".
Proof.
  intros Hm Hlt Hin. apply JsMapFacts.get_Some_keys in Hin.
  destruct (Hm Hlt r Hin) as (stamp & i & -> & _).
  apply request_id_not_system.
Qed.

Lemma minted_fresh w stamp :
  ledger_keys_minted w ->
  currentChartId (storage w) < MAX_EXACT ->
  JsMap.get (request_id stamp (currentChartId (storage w))) (ledger w) = None.
Proof.
  intros Hm Hlt.
  destruct (JsMap.get _ (ledger w)) eqn:Hget; [|done].
  assert (Hin : is_Some (JsMap.get (request_id stamp (currentChartId (storage w)))
                                   (ledger w))) by eauto.
  apply JsMapFacts.get_Some_keys in Hin.
  destruct (Hm Hlt _ Hin) as (stamp' & i & Heq & Hi).
  apply request_id_inj in Heq as [_ Heq]. lia.
Qed.

Lemma minted_transfer w w' :
  (forall k, is_Some (JsMap.get k (ledger w')) ->
             is_Some (JsMap.get k (ledger w))) ->
  currentChartId (storage w') = currentChartId (storage w) ->
  ledger_keys_minted w -> ledger_keys_minted w'.
Proof.
  intros Hkeys Hc Hm Hlt k Hk. rewrite Hc in *.
  apply Hm; [done|]. apply JsMapFacts.get_Some_keys, Hkeys.
  by apply JsMapFacts.get_Some_keys.
Qed.

Lemma ledger_status_others w w' r :
  (forall k, k <> r -> JsMap.get k (ledger w') = JsMap.get k (ledger w)) ->
  forall k, k <> r -> ledger_status k w' = ledger_status k w.
Proof. intros H k Hk. unfold ledger_status. by rewrite H. Qed.

Lemma status_allows_other st T :
  T ∈ ["PROGRESS"; "CONNECTION"] -> status_allows st T.
Proof.
  rewrite !elem_of_cons, elem_of_nil. intros [->|[->|[]]];
    split_and!; discriminate.
Qed.

(** The step from one world to the next that all turns share: the ledger
    changes at [r] only, what is newly shown belongs to [r], and the status
    of [r] allows everything shown of [r]. *)
Lemma ledger_leads_step w w' r Ts :
  ledger_leads_shown w ->
  shown_delta w w' r Ts ->
  (forall k, k <> r -> ledger_status k w' = ledger_status k w) ->
  (forall T, shown w r T \/ T ∈ Ts ->
             status_allows (ledger_status r w') T) ->
  ledger_leads_shown w'.
Proof.
  intros Hleads Hd Hothers Hr r' T Hs.
  destruct (decide (r' = r)) as [->|Hne].
  - apply Hr. destruct (Hd r T Hs) as [?|[_ ?]]; auto.
  - destruct (Hd r' T Hs) as [Hold|[? _]]; [|done].
    rewrite Hothers by done. by apply Hleads.
Qed.

Lemma NoDup_delete_notin {A} (l : list A) i x :
  NoDup l -> l !! i = Some x -> x ∉ delete i l.
Proof.
  intros Hnd Hi. rewrite delete_take_drop.
  rewrite <- (take_drop_middle l i x Hi) in Hnd.
  apply NoDup_app in Hnd as (_ & Hdisj & Hnd).
  apply NoDup_cons in Hnd as [Hx _].
  rewrite elem_of_app. intros [Hin|Hin]; [|done].
  apply (Hdisj x Hin). apply list_elem_of_here.
Qed.

(** A settlement turn of the request [p] that waits at position [i]. *)
Lemma turn_invariant_settle s i p w' st Ts P' :
  turn_invariant s ->
  waiting s !! i = Some p ->
  (forall k, k <> waiting_request p ->
             JsMap.get k (ledger w') = JsMap.get k (ledger (world s))) ->
  currentChartId (storage w') = currentChartId (storage (world s)) ->
  shown_delta (world s) w' (waiting_request p) Ts ->
  (ledger_status (waiting_request p) (world s) = Some "processing" ->
   ledger_status (waiting_request p) w' = Some st) ->
  (forall T, T ∈ (["REQUEST"; "PROGRESS"] ++ Ts)%list ->
             status_allows (Some st) T) ->
  (P' = delete i (waiting s) \/
   exists p', P' = <[i := p']> (waiting s) /\
              waiting_request p' = waiting_request p /\
              st = "processing" /\ Ts ⊆ ["REQUEST"; "PROGRESS"]) ->
  turn_invariant {| world := w'; waiting := P' |}.
Proof.
  intros Hinv Hi Hothers Hc Hd Hst Hallow HP'. unfold turn_invariant.
  cbn [world waiting]. intros Hlt. rewrite Hc in Hlt.
  destruct (Hinv Hlt) as (Hm & Hknown & Hnd & Hpend & Hleads).
  set (r := waiting_request p) in *.
  assert (Hp : p ∈ waiting s) by by apply list_elem_of_lookup_2 with i.
  destruct (Hpend p Hp) as [Hproc Htypes]. fold r in Hproc, Htypes.
  specialize (Hst Hproc).
  assert (Hkeys : forall k, is_Some (JsMap.get k (ledger w')) ->
                            is_Some (JsMap.get k (ledger (world s)))).
  { intros k Hk. destruct (decide (k = r)) as [->|Hne].
    - by apply status_in_ledger with "processing".
    - by rewrite <- Hothers. }
  assert (Hri : (waiting_request <$> waiting s) !! i = Some r).
  { by rewrite list_lookup_fmap, Hi. }
  assert (Hrest : forall q, q ∈ delete i (waiting s) ->
             q ∈ waiting s /\ waiting_request q <> r).
  { intros q Hq. split; [by apply list_elem_of_delete_inv in Hq|].
    intros Heq. apply (NoDup_delete_notin _ i r Hnd Hri).
    rewrite <- list_fmap_delete, <- Heq. by apply list_elem_of_fmap_2. }
  assert (Hold : forall q, q ∈ waiting s -> waiting_request q <> r ->
             ledger_status (waiting_request q) w' = Some "processing" /\
             forall T, shown w' (waiting_request q) T ->
                       T ∈ ["REQUEST"; "PROGRESS"]).
  { intros q Hq Hne. destruct (Hpend q Hq) as [Hs Ht]. split.
    - by rewrite (ledger_status_others _ _ r Hothers).
    - intros T HT. destruct (Hd _ T HT) as [?|[? _]]; [by apply Ht|done]. }
  split_and!.
  - by apply minted_transfer with (world s).
  - intros r' T Hs. destruct (Hd r' T Hs) as [Hold'|[-> _]].
    + destruct (Hknown r' T Hold') as [?|Hin]; [by left|]. right.
      destruct (decide (r' = r)) as [->|Hne].
      * by apply status_in_ledger with st.
      * by rewrite Hothers.
    + right. by apply status_in_ledger with st.
  - destruct HP' as [->|(p' & -> & Hp' & _)].
    + rewrite list_fmap_delete.
      eapply sublist_NoDup; [exact Hnd|apply sublist_delete].
    + rewrite list_fmap_insert, Hp'. fold r. by rewrite list_insert_id.
  - destruct HP' as [->|(p' & -> & Hp' & -> & Hsub)].
    + intros q Hq. destruct (Hrest q Hq). by apply Hold.
    + intros q Hq. apply list_elem_of_lookup_1 in Hq as [j Hj].
      destruct (decide (i = j)) as [<-|Hij].
      * rewrite list_lookup_insert_eq in Hj by by eapply lookup_lt_Some.
        injection Hj as <-. rewrite Hp'. fold r. split; [done|].
        intros T HT. destruct (Hd _ T HT) as [?|[_ ?]]; [by apply Htypes|].
        by apply Hsub.
      * rewrite list_lookup_insert_ne in Hj by done.
        apply Hold; [by apply list_elem_of_lookup_2 with j|].
        intros Heq.
        assert (Hrj : (waiting_request <$> waiting s) !! j = Some r).
        { by rewrite list_lookup_fmap, Hj, <- Heq. }
        by apply Hij, (NoDup_lookup _ i j r Hnd).
  - apply ledger_leads_step with (world s) r Ts; try done.
    + by apply ledger_status_others.
    + intros T HT. fold r in Hst. rewrite Hst. apply Hallow.
      rewrite elem_of_app. destruct HT as [HT|HT]; [left|by right].
      by apply Htypes.
Qed.

Lemma turn_invariant_initial : turn_invariant initial_server.
Proof.
  intros _. cbn [world waiting initial_server].
  assert (Hnone : forall r T, ~ shown initial_world r T).
  { intros r T [(h & d & Hd & _)|(e & He & _)].
    - unfold stream_of in Hd. simpl in Hd. rewrite lookup_empty in Hd.
      by apply elem_of_nil in Hd.
    - unfold history, event_store in He. simpl in He.
      rewrite lookup_empty in He. by apply elem_of_nil in He. }
  split_and!.
  - apply ledger_keys_minted_initial.
  - intros r T Hs. by destruct (Hnone r T).
  - constructor.
  - intros p Hp. by apply elem_of_nil in Hp.
  - intros r T Hs. by destruct (Hnone r T).
Qed.

Lemma turn_invariant_sessions s w' :
  storage w' = storage (world s) ->
  shown_delta (world s) w' "system" ["CONNECTION"] ->
  turn_invariant s -> turn_invariant {| world := w'; waiting := waiting s |}.
Proof.
  intros Hst Hd Hinv. unfold turn_invariant. cbn [world waiting].
  rewrite Hst. intros Hlt.
  destruct (Hinv Hlt) as (Hm & Hknown & Hnd & Hpend & Hleads).
  assert (Hl : ledger w' = ledger (world s)) by (unfold ledger; by rewrite Hst).
  assert (Hstatus : forall k, ledger_status k w' = ledger_status k (world s)).
  { intros k. unfold ledger_status. by rewrite Hl. }
  split_and!.
  - apply minted_transfer with (world s); [|by rewrite Hst|done].
    intros k. by rewrite Hl.
  - intros r T Hs. rewrite Hl.
    destruct (Hd r T Hs) as [?|[-> _]]; [by apply Hknown with T|by left].
  - done.
  - intros p Hp. destruct (Hpend p Hp) as [Hproc Htypes].
    rewrite Hstatus. split; [done|]. intros T HT.
    destruct (Hd _ T HT) as [?|[Heq _]]; [by apply Htypes|].
    exfalso. apply (minted_not_system (world s) (waiting_request p)); try done.
    by apply status_in_ledger with "processing".
  - apply ledger_leads_step with (world s) "system" ["CONNECTION"]; try done.
    + intros T [HT|HT]; [rewrite Hstatus; by apply Hleads|].
      apply status_allows_other. in_list.
Qed.

Lemma turn_invariant_session s c :
  session_call c = true ->
  turn_invariant s -> turn_invariant (after_session clock toFixed1 c s).
Proof.
  intros Hcall.
  destruct (session_effect clock toFixed1 c (world s) Hcall) as [Hst Hd].
  by apply turn_invariant_sessions.
Qed.

Lemma turn_invariant_connect s clientId res l connected :
  turn_invariant s ->
  turn_invariant (after_connect clock clientId res l connected s).
Proof.
  destruct (connect_effect clock toFixed1 clientId res l connected (world s))
    as [Hst Hd].
  by apply turn_invariant_sessions.
Qed.

Lemma turn_invariant_generate s body clientId :
  turn_invariant s -> turn_invariant (after_generate clock body clientId s).
Proof.
  intros Hinv. unfold after_generate.
  destruct (Zod.chartConfigSchema_parse body) as [issues|config] eqn:Hparse.
  { rewrite (handler_invalid clock body issues clientId (world s) Hparse).
    cbn [world_of value_of]. rewrite (right_id_L [] _). by destruct s. }
  destruct (handler_effect clock body config clientId (world s) Hparse)
    as (fl & w' & Hrun & Hrid & _ & Hproc & Hothers & Hc & Hd).
  rewrite Hrun. cbn [world_of value_of]. unfold turn_invariant.
  cbn [world waiting]. intros Hlt. rewrite Hc in Hlt.
  apply js_incr_below in Hlt as [Hlt Hinc].
  destruct (Hinv Hlt) as (Hm & Hknown & Hnd & Hpend & Hleads).
  set (r := fl_requestId fl) in *.
  assert (Hfresh : JsMap.get r (ledger (world s)) = None).
  { rewrite Hrid. by apply minted_fresh. }
  assert (Hsys : r <> "system").
  { rewrite Hrid. apply request_id_not_system. }
  assert (Hunseen : forall T, ~ shown (world s) r T).
  { intros T Hs. destruct (Hknown r T Hs) as [?|Hin]; [done|].
    rewrite Hfresh in Hin. by destruct Hin. }
  assert (Hne : forall q, q ∈ waiting s -> waiting_request q <> r).
  { intros q Hq Heq. destruct (Hpend q Hq) as [Hs _].
    apply status_in_ledger in Hs. rewrite Heq, Hfresh in Hs. by destruct Hs. }
  split_and!.
  - pose proof (generate_handler_preserves clock ledger_keys_minted
                  (ledger_keys_minted_invariant clock) body clientId
                  (world s) Hm) as Hm'.
    by rewrite Hrun in Hm'.
  - intros r' T Hs. destruct (Hd r' T Hs) as [Hold|[-> _]].
    + destruct (Hknown r' T Hold) as [?|Hin]; [by left|]. right.
      destruct (decide (r' = r)) as [->|Hne'].
      * by apply status_in_ledger with "processing".
      * by rewrite Hothers.
    + right. by apply status_in_ledger with "processing".
  - rewrite fmap_app. apply NoDup_app. split; [done|]. split.
    + intros x Hx Hin. apply list_elem_of_singleton in Hin.
      apply list_elem_of_fmap in Hx as (q & -> & Hq). by apply (Hne q).
    + apply NoDup_singleton.
  - intros q Hq. apply elem_of_app in Hq as [Hq|Hq].
    + destruct (Hpend q Hq) as [Hs Ht]. split.
      * rewrite (ledger_status_others _ _ r Hothers); [done|by apply Hne].
      * intros T HT. destruct (Hd _ T HT) as [?|[Heq _]]; [by apply Ht|].
        by destruct (Hne q Hq).
    + apply list_elem_of_singleton in Hq as ->. cbn [waiting_request].
      fold r. split; [done|]. intros T HT.
      destruct (Hd _ T HT) as [Hold|[_ ?]]; [by destruct (Hunseen T)|done].
  - apply ledger_leads_step with (world s) r ["REQUEST"; "PROGRESS"];
      try done.
    + by apply ledger_status_others.
    + intros T [HT|HT]; [by destruct (Hunseen T)|]. rewrite Hproc.
      rewrite !elem_of_cons, elem_of_nil in HT.
      destruct HT as [->|[->|[]]]; split_and!; try discriminate.
      intros _. solve_member.
Qed.

Lemma lifecycle_types_allowed st L T :
  (st, L) ∈ [("processing", ["REQUEST"; "PROGRESS"]);
             ("failed", ["REQUEST"; "PROGRESS"; "ERROR"]);
             ("completed", ["REQUEST"; "PROGRESS"; "SUCCESS"])] ->
  T ∈ L -> status_allows (Some st) T.
Proof.
  rewrite !elem_of_cons, elem_of_nil.
  intros [[= -> ->]|[[= -> ->]|[[= -> ->]|[]]]];
    rewrite !elem_of_cons, elem_of_nil;
    intros HT; repeat (destruct HT as [->|HT]); try (by destruct HT);
    split_and!; try discriminate; try done; intros _; solve_member.
Qed.

Lemma turn_invariant_fetch s i fl settled :
  waiting s !! i = Some (AwaitsFetch fl) ->
  turn_invariant s -> turn_invariant (after_fetch clock i fl settled s).
Proof.
  intros Hi Hinv. unfold after_fetch.
  destruct (settle_fetch_effect clock fl settled (world s))
    as (next & w' & Hrun & Hothers & Hc & Hd & Hend).
  rewrite Hrun. cbn [world_of value_of].
  destruct (fetch_ends_request settled) eqn:Hends.
  - destruct Hend as [-> Hfailed].
    apply (turn_invariant_settle s i (AwaitsFetch fl) w' "failed"
             (fetch_event_types settled)); try done.
    + intros Hproc. apply Hfailed. by apply status_in_ledger with "processing".
    + intros T HT.
      apply (lifecycle_types_allowed _ ["REQUEST"; "PROGRESS"; "ERROR"]);
        [solve_member|].
      destruct settled; try discriminate; in_list.
    + by left.
  - destruct Hend as [[read ->] Hl].
    apply (turn_invariant_settle s i (AwaitsFetch fl) w' "processing"
             (fetch_event_types settled)); try done.
    + unfold ledger_status. by rewrite Hl.
    + intros T HT.
      apply (lifecycle_types_allowed _ ["REQUEST"; "PROGRESS"]);
        [solve_member|].
      destruct settled; try discriminate; in_list.
    + right. exists (AwaitsBody fl read). split_and!; try done.
      destruct settled; try discriminate; in_list.
Qed.

Lemma turn_invariant_body s i fl read settled :
  waiting s !! i = Some (AwaitsBody fl read) ->
  turn_invariant s ->
  turn_invariant (after_body clock toFixed1 i fl read settled s).
Proof.
  intros Hi Hinv. unfold after_body.
  destruct (settle_body_effect clock toFixed1 fl read settled (world s))
    as (w' & Hrun & Hothers & Hc & Hd & Hst).
  rewrite Hrun. cbn [world_of].
  apply (turn_invariant_settle s i (AwaitsBody fl read) w'
           match body_event_types read settled with
           | ["SUCCESS"] => "completed"
           | _ => "failed"
           end
           (body_event_types read settled)); try done.
  - intros Hproc. apply Hst. by apply status_in_ledger with "processing".
  - intros T HT.
    destruct read, settled; cbn [body_event_types] in *;
      first [ apply (lifecycle_types_allowed _ ["REQUEST"; "PROGRESS"; "ERROR"]);
              [solve_member|in_list]
            | apply (lifecycle_types_allowed _
                       ["REQUEST"; "PROGRESS"; "SUCCESS"]);
              [solve_member|in_list] ].
  - by left.
Qed.

Lemma between_turns_invariant s :
  between_turns clock toFixed1 s -> turn_invariant s.
Proof.
  induction 1 as [|s body clientId _ IH|s i fl settled _ IH Hi
                  |s i fl read settled _ IH Hi
                  |s clientId res l connected _ IH|s c _ IH Hc].
  - apply turn_invariant_initial.
  - by apply turn_invariant_generate.
  - by apply turn_invariant_fetch.
  - by apply turn_invariant_body.
  - by apply turn_invariant_connect.
  - by apply turn_invariant_session.
Qed.

Lemma shown_on_stream w h d :
  ChunkData d ∈ chunks (stream_of h w) ->
  shown w (ed_requestId d) (toUpperCase (ed_type d)).
Proof. intros Hd. left. by exists h, d. Qed.

(** C3. In every state in which the server can begin to handle a request,
    that is between two turns of the event loop, and while the request
    counter is below 2^53, the ledger leads the events: a ['request'] event
    that is visible on a stream or stored has a ledger entry that has left
    ['pending'] (it shows ['processing'], ['completed'] or ['failed']); a
    ['success'] event has an entry that shows ['completed']; an ['error']
    event has an entry that shows ['failed']. In program order the route
    emits each event before it writes the status, but both happen in one
    turn, so a reader that observes the event and then queries the ledger
    finds the transition in place. *)
Theorem ledger_leads_events_between_turns s :
  between_turns clock toFixed1 s ->
  currentChartId (storage (world s)) < MAX_EXACT ->
  ledger_leads_events (world s) /\ ledger_leads_stored_events (world s).
Proof.
  intros Hs Hlt.
  destruct (between_turns_invariant s Hs Hlt) as (_ & _ & _ & _ & Hleads).
  split.
  - intros h d Hd. apply shown_on_stream in Hd.
    destruct (Hleads _ _ Hd) as (Hreq & Hsucc & Herr).
    split_and!; intros Hty; rewrite Hty in *; auto.
  - intros r e He.
    apply (Hleads r (ev_eventType e)). right. by exists e.
Qed.
End TurnInvariant.

(** ** The atomic settlement and the turns *)

Section Refinement.
Context (clock : nat -> Z) (toFixed1 : Z -> string).

Ltac send_returns :=
  match goal with
  | |- context [sendEvent ?c ?a ?b ?m ?r ?d ?w] =>
      let H := fresh "Hsend" in
      destruct (never_throws_returns (sendEvent c a b m r d) w
                  (sendEvent_total c a b m r d)) as ([] & ? & H);
      rewrite H; clear H; cbv beta iota
  end.

(** The settlement of the upstream call as one step is the settlement turns
    run back to back. *)
Lemma generate_settle_in_turns fl outcome w :
  generate_settle clock toFixed1 fl outcome w
  = settle_in_turns clock toFixed1 fl outcome w.
Proof.
  unfold generate_settle, settle_in_turns, settle_fetch, settle_body,
    generateChart_finish, generateChart_after_fetch, generateChart_after_body,
    generateChart_catch, generateChart_return, generate_catch, fetch_part,
    try_catch, bind, when, ret, throw, Date_now.
  destruct outcome, (truthy (fl_clientId fl)); cbv beta iota;
    repeat (cbn [fst snd res_processingTime]; send_returns);
    cbn [fst snd]; try reflexivity;
    (destruct (generate_record_result _ _ _ _) as [[]|]; [reflexivity|]);
    by destruct (updateChartRequest _ _ _).
Qed.
End Refinement.

(** ** The events of each turn *)

Section TurnEvents.
Context (clock : nat -> Z) (toFixed1 : Z -> string).

Lemma session_is_at live clientId wi W :
  session_is live clientId wi ->
  clients W = clients wi -> heap W = heap wi ->
  session_is live clientId W.
Proof.
  assert (Hmove : forall w1 w2, clients w2 = clients w1 -> heap w2 = heap w1 ->
                    session_live clientId w1 -> session_live clientId w2).
  { intros w1 w2 Hc Hh (client & Hget & Hf). exists client.
    unfold stream_of in *. by rewrite Hc, Hh. }
  destruct live; simpl; intros Hl Hc Hh.
  - by apply (Hmove wi W).
  - intros HW. apply Hl. by apply (Hmove W wi).
Qed.

Lemma appended_at requestId_ w0 wi W types :
  appended requestId_ w0 wi types ->
  sseEvents (storage W) = sseEvents (storage wi) ->
  appended requestId_ w0 W types.
Proof.
  intros (es & Hh & Hty & Hid) He. exists es.
  unfold history, event_store in *. by rewrite He.
Qed.

(** One [sendEvent] to a session that is live, or is not. *)
Lemma sendEvent_tracked live eventType message data clientId requestId_
    w0 w types :
  session_is live clientId w ->
  appended requestId_ w0 w (if live then types else []) ->
  requestId_ <> "system" ->
  exists w',
    sendEvent clock clientId eventType message requestId_ data w = Ret tt w' /\
    session_is live clientId w' /\
    appended requestId_ w0 w'
             (if live then types ++ [toUpperCase eventType] else [])%list.
Proof.
  destruct live; simpl.
  - intros (client & Hget & Hf) (es & Hh & Hty & Hid) Hsys.
    destruct (sendEvent_delivered clock eventType message requestId_ data
                clientId client w Hget Hf Hsys)
      as (w' & e & Hrun & Hc & _ & Hfail & Hh' & (He1 & He2 & _) & _).
    exists w'. split; [exact Hrun|]. split.
    + exists client. by rewrite Hc, Hfail.
    + exists (es ++ [e])%list. rewrite Hh', Hh, <-(assoc_L _).
      split; [done|]. split.
      * by rewrite fmap_app, Hty, <-He2.
      * apply Forall_app. split; [done|]. by apply Forall_singleton.
  - intros Hdead Happ Hsys. rewrite sendEvent_run.
    destruct (JsMap.get clientId (clients w)) as [client|] eqn:Hget.
    2:{ exists w. split; [done|]. split; [|done].
        intros (client & Hget' & _). congruence. }
    cbv zeta. destruct (failing (stream_of (response client) w)) eqn:Hf.
    2:{ destruct Hdead. by exists client. }
    rewrite removeClient_run. simpl clients. rewrite Hget.
    eexists. split; [reflexivity|]. split.
    + intros (client' & Hget' & _). simpl in Hget'.
      by rewrite JsMapFacts.get_delete_eq in Hget'.
    + by apply appended_at with w.
Qed.

Ltac tracked_send Hsys :=
  match goal with
  | Hl : session_is ?live _ ?wi,
    Ha : appended ?rid ?w0 ?wi (if ?live then ?tys else [])
    |- context [sendEvent clock ?c ?ty ?msg ?r ?d ?W] =>
      let w' := fresh "w" in
      let Hs := fresh "Hsend" in
      let Hl' := fresh "Hlive" in
      let Ha' := fresh "Happ" in
      destruct (sendEvent_tracked live ty msg d c rid w0 W tys
                  (session_is_at live c wi W Hl eq_refl eq_refl)
                  (appended_at rid w0 wi W _ Ha eq_refl) Hsys)
        as (w' & Hs & Hl' & Ha');
      change (sendEvent clock c ty msg r d W)
        with (sendEvent clock c ty msg rid d W);
      rewrite Hs; clear Hs Hl Ha; cbv beta iota
  end.

Ltac tracked_update :=
  match goal with
  | |- context [updateChartRequest ?r ?u ?W] =>
      rewrite (updateChartRequest_run r u W);
      destruct (JsMap.get r (ledger W)); cbv beta iota
  end.

Ltac turn_norm Hdec :=
  cbn [fst snd fl_config fl_requestId fl_clientId fl_startTime str_of default
       from_option id success];
  rewrite ?Hdec; cbv beta iota.

Ltac tracked_done :=
  match goal with
  | Hl : session_is _ _ _, Ha : appended _ _ _ _ |- _ =>
      split_and!;
      first [ reflexivity
            | eapply session_is_at; [exact Hl|reflexivity..]
            | eapply appended_at; [exact Ha|reflexivity] ]
  end.

Lemma appended_nothing (live : bool) requestId_ w :
  appended requestId_ w w (if live then [] else []).
Proof. exists []. rewrite (right_id_L [] _). by destruct live. Qed.

Lemma handler_events live clientId body config w :
  Zod.chartConfigSchema_parse body = inr config ->
  clientId <> "" ->
  session_is live clientId w ->
  let rid := request_id (clock (ticks w)) (currentChartId (storage w)) in
  match generate_handler clock body (Some clientId) w with
  | Ret (ReplyStarted r, Some fl) w' =>
      r = rid /\ fl_requestId fl = rid /\ fl_clientId fl = Some clientId /\
      session_is live clientId w' /\
      appended rid w w' (if live then handler_event_types else [])
  | _ => False
  end.
Proof.
  intros Hparse Hcid Hlive rid.
  assert (Hsys : rid <> "system") by apply request_id_not_system.
  pose proof (appended_nothing live rid w) as Happ.
  unfold generate_handler, generate_create_and_announce,
    generate_mark_processing, generateChart_begin,
    try_catch, bind, when, ret, throw, Date_now, truthy.
  rewrite Hparse, createChartRequest_run.
  destruct (decide (clientId = "")) as [|Hne] eqn:Hdec; [done|].
  turn_norm Hdec. cbv zeta.
  tracked_send Hsys. tracked_update; do 2 tracked_send Hsys; tracked_done.
Qed.

Lemma settle_fetch_events live clientId fl settled w :
  clientId <> "" ->
  fl_clientId fl = Some clientId ->
  fl_requestId fl <> "system" ->
  session_is live clientId w ->
  match settle_fetch clock fl settled w with
  | Ret next w' =>
      next = (if fetch_ends_request settled then None
              else match settled with
                   | NotOk http_status => Some (ReadText http_status)
                   | PngType => Some ReadArrayBuffer
                   | _ => Some ReadJson
                   end) /\
      session_is live clientId w' /\
      appended (fl_requestId fl) w w'
               (if live then fetch_event_types settled else [])
  | Throw _ _ => False
  end.
Proof.
  destruct fl as [config rid cid startTime]. simpl.
  intros Hcid -> Hsys Hlive.
  pose proof (appended_nothing live rid w) as Happ.
  unfold settle_fetch, generateChart_after_fetch, generateChart_catch,
    generate_record_result, generate_catch,
    try_catch, bind, when, ret, throw, Date_now, truthy.
  destruct (decide (clientId = "")) as [|Hne] eqn:Hdec; [done|].
  destruct settled; turn_norm Hdec;
    repeat first [ tracked_send Hsys | tracked_update
                 | progress turn_norm Hdec ];
    tracked_done.
Qed.

Lemma settle_body_events live clientId fl read settled w :
  clientId <> "" ->
  fl_clientId fl = Some clientId ->
  fl_requestId fl <> "system" ->
  session_is live clientId w ->
  match settle_body clock toFixed1 fl read settled w with
  | Ret _ w' =>
      session_is live clientId w' /\
      appended (fl_requestId fl) w w'
               (if live then body_event_types read settled else [])
  | Throw _ _ => False
  end.
Proof.
  destruct fl as [config rid cid startTime]. simpl.
  intros Hcid -> Hsys Hlive.
  pose proof (appended_nothing live rid w) as Happ.
  unfold settle_body, generateChart_after_body, generateChart_catch,
    generateChart_return, generate_record_result, generate_catch,
    try_catch, bind, when, ret, throw, Date_now, truthy.
  destruct (decide (clientId = "")) as [|Hne] eqn:Hdec; [done|].
  destruct read, settled as [e|body_]; turn_norm Hdec;
    repeat first [ tracked_send Hsys | tracked_update
                 | progress turn_norm Hdec ];
    tracked_done.
Qed.
End TurnEvents.

Section TurnTheorems.
Context (clock : nat -> Z) (toFixed1 : Z -> string).

(** X24. The events of a request, turn by turn. A request runs in up to
    three turns of the event loop, and the client may come or go between
    them. For a non-empty client id, each turn stores exactly the events of
    its list, in order and under the request's id, when the client's
    session is live at the start of the turn (registered on a stream that
    accepts writes), and stores nothing when it is not: the handler REQUEST,
    PROGRESS, PROGRESS; the turn at the settlement of [fetch] ERROR when
    [fetch] rejects, nothing when the response is not ok, PROGRESS when the
    body is JSON or a PNG, PROGRESS and ERROR for another content type; the
    turn at the settlement of the body SUCCESS when the chart was read and
    ERROR when the read rejects or returned the text of an error response.
    A turn leaves a live session live and never revives one that is not. *)
Theorem events_turn_by_turn (live : bool) clientId :
  clientId <> "" ->
  (forall body config w,
      Zod.chartConfigSchema_parse body = inr config ->
      session_is live clientId w ->
      exists fl w',
        generate_handler clock body (Some clientId) w
          = Ret (ReplyStarted (fl_requestId fl), Some fl) w' /\
        fl_clientId fl = Some clientId /\
        fl_requestId fl <> "system" /\
        appended (fl_requestId fl) w w'
                 (if live then handler_event_types else []) /\
        session_is live clientId w') /\
  (forall fl settled w,
      fl_clientId fl = Some clientId ->
      fl_requestId fl <> "system" ->
      session_is live clientId w ->
      exists next w',
        settle_fetch clock fl settled w = Ret next w' /\
        (next = None <-> fetch_ends_request settled = true) /\
        appended (fl_requestId fl) w w'
                 (if live then fetch_event_types settled else []) /\
        session_is live clientId w') /\
  (forall fl read settled w,
      fl_clientId fl = Some clientId ->
      fl_requestId fl <> "system" ->
      session_is live clientId w ->
      exists w',
        settle_body clock toFixed1 fl read settled w = Ret tt w' /\
        appended (fl_requestId fl) w w'
                 (if live then body_event_types read settled else []) /\
        session_is live clientId w').
Proof.
  intros Hcid. split; [|split].
  - intros body config w Hparse Hlive.
    pose proof (handler_events clock live clientId body config w Hparse Hcid
                  Hlive) as Hrun.
    cbv zeta in Hrun.
    destruct (generate_handler clock body (Some clientId) w)
      as [[[r| |] [fl|]] w'|]; try done.
    destruct Hrun as (-> & Hrid & Hc & Hlive' & Happ).
    exists fl, w'. rewrite Hrid.
    split_and!; try done; apply request_id_not_system.
  - intros fl settled w Hc Hsys Hlive.
    pose proof (settle_fetch_events clock live clientId fl settled w Hcid Hc
                  Hsys Hlive) as Hrun.
    destruct (settle_fetch clock fl settled w) as [next w'|]; [|done].
    destruct Hrun as (-> & Hlive' & Happ).
    eexists _, w'. split; [reflexivity|].
    split_and!; try done; by destruct settled.
  - intros fl read settled w Hc Hsys Hlive.
    pose proof (settle_body_events clock toFixed1 live clientId fl read
                  settled w Hcid Hc Hsys Hlive) as Hrun.
    destruct (settle_body clock toFixed1 fl read settled w) as [[] w'|];
      [|done].
    destruct Hrun as (Hlive' & Happ). by exists w'.
Qed.
End TurnTheorems.

(** ** Instances *)

Lemma server_settled_between_turns : between_turns clock0 toFixed0 server_settled.
Proof.
  unfold server_settled. apply turns_body.
  - unfold server_answered. apply turns_fetch.
    + unfold server_submitted.
      apply turns_generate, turns_connect, turns_init.
    + vm_compute. reflexivity.
  - vm_compute. reflexivity.
Qed.

(** In the settled request of the concrete run the ['success'] event is
    visible and stored, and the ledger shows ['completed']. *)
Example success_event_is_shown :
  shown (world server_settled) "req_1002_1" "SUCCESS" /\
  ledger_status "req_1002_1" (world server_settled) = Some "completed".
Proof.
  split; [|vm_compute; reflexivity].
  right. eexists. split.
  - apply list_elem_of_lookup_2 with 4%nat. vm_compute. reflexivity.
  - reflexivity.
Qed.

Lemma ledger_leads_events_between_turns_witness :
  ledger_leads_events (world server_settled) /\
  ledger_leads_stored_events (world server_settled).
Proof.
  apply (ledger_leads_events_between_turns clock0 toFixed0 server_settled).
  - apply server_settled_between_turns.
  - vm_compute. reflexivity.
Defined.

Lemma events_turn_by_turn_witness :
  exists w',
    settle_body clock0 toFixed0 flight0 ReadJson
      (inr (Some "https://charts.example/1.png", None))
      (world server_answered) = Ret tt w' /\
    appended "req_1002_1" (world server_answered) w' ["SUCCESS"] /\
    session_live "c1" w'.
Proof.
  assert (Hcid : "c1" <> "") by discriminate.
  destruct (events_turn_by_turn clock0 toFixed0 true "c1" Hcid) as (_ & _ & H).
  apply (H flight0 ReadJson (inr (Some "https://charts.example/1.png", None))
           (world server_answered)).
  - reflexivity.
  - discriminate.
  - eexists. split; vm_compute; reflexivity.
Defined.
